(** * IPO portfolio allocator: scoring, candidate building and allocation

    A shallow embedding of [recommender1.py].  Python floats are modelled
    as exact rationals ([Q]); dictionaries as [gmap]; exceptions and
    non-termination as an explicit result type.

    The rationals are the finite floats, without their rounding: the
    model computes what the program computes wherever only
    comparisons are made, and wherever the amounts are whole numbers
    up to 2^53, which binary64 adds and subtracts exactly.  The
    properties that depend on the rounding are stated for such
    amounts, and the passes of the heuristic are given a second time
    on binary64 numbers (module [Binary64]) to show where rounding is
    seen.  NaN is not a number of the model. *)

From Stdlib Require Import ZArith QArith Qround Lqa Lia List Bool.
From Stdlib Require Import String Ascii.
From stdpp Require Import base option gmap strings.
Import ListNotations.

Local Open Scope Q_scope.
Local Open Scope string_scope.
Local Open Scope list_scope.

(** ** Outcomes of running Python code *)

Inductive exn : Type :=
  | ValueError
  | TypeError
  | AttributeError
  | ZeroDivisionError.

(** [Ok] is a normal return, [Raise] an uncaught exception, [Timeout]
    a loop that was still running when the fuel ran out. *)
Inductive result (A : Type) : Type :=
  | Ok (a : A)
  | Raise (e : exn)
  | Timeout.

Arguments Ok {A} a.
Arguments Raise {A} e.
Arguments Timeout {A}.

Definition rbind {A B : Type} (m : result A) (k : A -> result B) : result B :=
  match m with
  | Ok a => k a
  | Raise e => Raise e
  | Timeout => Timeout
  end.

Notation "x <~ m ;; k" := (rbind m (fun x => k))
  (at level 100, m at next level, right associativity).

Fixpoint rmap_list {A B : Type} (f : A -> result B) (l : list A) : result (list B) :=
  match l with
  | [] => Ok []
  | x :: l' => y <~ f x ;; ys <~ rmap_list f l' ;; Ok (y :: ys)
  end.

(** ** Configuration constants *)

Definition MIN_INVEST_MAINBOARD : Q := 15000.
Definition DEFAULT_MAX_LOTS_PER_IPO : Z := 3.
Definition DIVERSIFICATION_WEIGHT : Q := 1 # 10.
Definition TOP_FILL_K : nat := 3.

(** ** Comparisons on floats *)

Definition Qltb (a b : Q) : bool := negb (Qle_bool b a).
Definition Qgeb (a b : Q) : bool := Qle_bool b a.
Definition Qgtb (a b : Q) : bool := negb (Qle_bool a b).
Definition Qeqb (a b : Q) : bool := Qeq_bool a b.


(** ** Python values held in the Mongo documents *)

Inductive pyval : Type :=
  | PNone
  | PNum (q : Q)
  | PStr (s : string).

(** A value that may also be a nested document, as [issue_price] is. *)
Inductive pyobj : Type :=
  | PScalar (v : pyval)
  | PDict (d : gmap string pyval).

(** [bool(v)]: [None], [0] and the empty string are false. *)
Definition truthy (v : pyval) : bool :=
  match v with
  | PNone => false
  | PNum q => negb (Qeqb q 0)
  | PStr s => negb (String.eqb s EmptyString)
  end.

(** [bool(d)] for a dict: false exactly when it has no key. *)
Definition dict_truthy (d : gmap string pyval) : bool :=
  negb (bool_decide (d = ∅)).

Definition obj_truthy (o : pyobj) : bool :=
  match o with
  | PScalar v => truthy v
  | PDict d => dict_truthy d
  end.

(** [a or b] on values. *)
Definition py_or (a b : pyval) : pyval := if truthy a then a else b.

(** [d.get(k)] with the default [None]. *)
Definition dict_get (d : gmap string pyval) (k : string) : pyval :=
  match d !! k with
  | Some v => v
  | None => PNone
  end.

(** [bool(x)] for an optional float: [None] and [0.0] are false. *)
Definition opt_truthy (x : option Q) : bool :=
  match x with
  | Some q => negb (Qeqb q 0)
  | None => false
  end.

Record date : Type := mkDate { year : Z; month : Z; day : Z }.

(** [a > b] on dates. *)
Definition date_gtb (a b : date) : bool :=
  if (year b <? year a)%Z then true
  else if (year a <? year b)%Z then false
  else if (month b <? month a)%Z then true
  else if (month a <? month b)%Z then false
  else (day b <? day a)%Z.

(** The key [extracted_fields] of an offering: missing, [None], or a dict. *)
Inductive fields_entry : Type :=
  | EfAbsent
  | EfNone
  | EfDict (d : gmap string pyval).

(** An offering document ([ipo_doc]).  A key read with [.get(k)] is a
    [pyval] ([PNone] when missing); [category] is read with a default,
    so its absence is kept apart. *)
Record ipo_doc : Type := mkIpo {
  doc_issue_price : pyobj;
  doc_extracted_fields : fields_entry;
  doc_close_date : pyval;
  doc_gmp_investorgain : pyval;
  doc_category : option pyval
}.

(** An analysis document: [an_score] is [None] when the key is missing. *)
Record analysis_doc : Type := mkAnalysis {
  an_score : option pyval;
  an_status : pyval
}.

Record weights : Type := mkWeights {
  w_base : Q; w_retail : Q; w_fund : Q; w_gmp : Q; w_sentiment : Q
}.

Record breakdown : Type := mkBreakdown {
  base_score : pyval;
  retail_quota_pct : Q;
  rq_score : Q;
  fund_score : Q;
  sentiment_score : Q;
  gmp_strength_pct : Q;
  weights_of : weights
}.

Record candidate : Type := mkCand {
  ipo : string;
  category : pyval;
  composite : Q;
  cand_breakdown : breakdown;
  issue_mid : Q;
  lot : option Z;
  min_invest : Q;
  close_date : date;
  gmp_investorgain : pyval;
  cand_analysis : analysis_doc
}.

(** One line of an allocation: the dict appended by both strategies. *)
Record alloc_line : Type := mkLine {
  a_ipo : string;
  a_lots : Z;
  a_min_invest : Q;
  a_invested : Q;
  a_composite : Q
}.

(** [sum(a["invested"] for a in allocation)]. *)
Definition total_invested (allocation : list alloc_line) : Q :=
  fold_right (fun a acc => a_invested a + acc) 0 allocation.

(** ** Greedy fill ([greedy_fill_full]) *)

(** The sort key [x["composite"]/x["min_invest"]]; float division by
    zero raises. *)
Definition density (c : candidate) : result Q :=
  if Qeqb (min_invest c) 0 then Raise ZeroDivisionError
  else Ok (composite c / min_invest c).

(** Insertion into a list sorted by decreasing key.  [x] goes before
    every element whose key is not larger: with the elements inserted
    from the right this is Python's stable [sorted(..., reverse=True)]. *)
Fixpoint insert_desc {A : Type} (x : Q * A) (l : list (Q * A)) : list (Q * A) :=
  match l with
  | [] => [x]
  | y :: l' => if Qgtb (fst y) (fst x) then y :: insert_desc x l' else x :: l
  end.

Definition sort_desc {A : Type} (l : list (Q * A)) : list (Q * A) :=
  fold_right insert_desc [] l.

(** [sorted(candidates, key=density, reverse=True)]: all keys are
    computed first, in list order, then the list is sorted. *)
Definition sorted_by_density (candidates : list candidate) : result (list candidate) :=
  keyed <~ rmap_list (fun c => k <~ density c ;; Ok (k, c)) candidates ;;
  Ok (map snd (sort_desc keyed)).

(** [sorted(allocation, key=lambda x: x["composite"], reverse=True)]. *)
Definition sorted_by_composite (allocation : list alloc_line) : list alloc_line :=
  map snd (sort_desc (map (fun a => (a_composite a, a)) allocation)).

(** [min(c["min_invest"] for c in candidates)]; raises on no candidate. *)
Definition min_of (l : list Q) : result Q :=
  match l with
  | [] => Raise ValueError
  | x :: l' => Ok (fold_left (fun m y => if Qltb y m then y else m) l' x)
  end.

(** The line appended for a first lot of [c]. *)
Definition new_line (c : candidate) : alloc_line :=
  mkLine (ipo c) 1 (min_invest c) (min_invest c) (composite c).

(** [found = next((a for a in allocation if a["ipo"] == c["ipo"]), None)]
    followed by the in-place update of [found], or by the append when
    there is none.  Only the first line with that id is touched. *)
Fixpoint add_lot (c : candidate) (allocation : list alloc_line) : list alloc_line :=
  match allocation with
  | [] => [new_line c]
  | a :: rest =>
      if String.eqb (a_ipo a) (ipo c)
      then mkLine (a_ipo a) (a_lots a + 1) (a_min_invest a)
                  (a_invested a + min_invest c) (a_composite a) :: rest
      else a :: add_lot c rest
  end.

(** The loop state: the allocation built so far and the money left. *)
Definition gstate : Type := (list alloc_line * Q)%type.

(** Seed pass: one lot of every candidate that is still affordable. *)
Fixpoint seed_pass (cands : list candidate) (st : gstate) : gstate :=
  match cands with
  | [] => st
  | c :: cs =>
      let '(allocation, remaining) := st in
      if Qgeb remaining (min_invest c)
      then seed_pass cs (allocation ++ [new_line c], remaining - min_invest c)
      else seed_pass cs st
  end.

(** One sweep of the [for c in top_k] loop; the boolean is [added]. *)
Fixpoint topk_sweep (min_unit : Q) (top_k : list candidate) (st : gstate) (added : bool)
  : gstate * bool :=
  match top_k with
  | [] => (st, added)
  | c :: cs =>
      let '(allocation, remaining) := st in
      let '(st', added') :=
        if Qgeb remaining (min_invest c)
        then ((add_lot c allocation, remaining - min_invest c), true)
        else (st, added) in
      if Qltb (snd st') min_unit then (st', added')
      else topk_sweep min_unit cs st' added'
  end.

(** [while added and remaining >= min_unit]. *)
Fixpoint topk_loop (fuel : nat) (min_unit : Q) (top_k : list candidate)
    (st : gstate) (added : bool) : result gstate :=
  if added && Qgeb (snd st) min_unit then
    match fuel with
    | O => Timeout
    | S fuel' =>
        let '(st', added') := topk_sweep min_unit top_k st false in
        topk_loop fuel' min_unit top_k st' added'
    end
  else Ok st.

(** [max(affordable, key=density)]: the first element of largest key. *)
Fixpoint max_by_density (best : Q * candidate) (l : list (Q * candidate)) : candidate :=
  match l with
  | [] => snd best
  | x :: l' => max_by_density (if Qgtb (fst x) (fst best) then x else best) l'
  end.

Definition pick_affordable (cands : list candidate) (remaining : Q) : result (option candidate) :=
  let affordable := List.filter (fun c => Qle_bool (min_invest c) remaining) cands in
  keyed <~ rmap_list (fun c => k <~ density c ;; Ok (k, c)) affordable ;;
  match keyed with
  | [] => Ok None
  | x :: l => Ok (Some (max_by_density x l))
  end.

(** Drain pass: [while remaining >= min_unit], buy the densest
    affordable candidate, [break] when there is none. *)
Fixpoint drain_loop (fuel : nat) (min_unit : Q) (cands : list candidate)
    (st : gstate) : result gstate :=
  if Qgeb (snd st) min_unit then
    match fuel with
    | O => Timeout
    | S fuel' =>
        p <~ pick_affordable cands (snd st) ;;
        match p with
        | None => Ok st
        | Some pick =>
            drain_loop fuel' min_unit cands
              (add_lot pick (fst st), snd st - min_invest pick)
        end
    end
  else Ok st.

Definition greedy_fill_full (fuel : nat) (candidates : list candidate) (budget : Q)
  : result (list alloc_line * Q) :=
  candidates <~ sorted_by_density candidates ;;
  min_unit <~ min_of (map min_invest candidates) ;;
  let st := seed_pass candidates ([], budget) in
  let top_k := firstn (Nat.min TOP_FILL_K (length candidates)) candidates in
  st <~ topk_loop fuel min_unit top_k st true ;;
  st <~ drain_loop fuel min_unit candidates st ;;
  Ok (sorted_by_composite (fst st), snd st).

(** Fuel that suffices whenever every minimum investment is positive:
    each turn of either loop that does not end it spends at least the
    smallest unit. *)
Definition enough_fuel (candidates : list candidate) (budget : Q) : nat :=
  match min_of (map min_invest candidates) with
  | Ok m => Z.to_nat (Qfloor (budget / m)) + 2
  | _ => 0
  end.

(** ** Candidates of the allocation scenarios

    A candidate with the given id, score and minimum investment; the
    fields the allocation never reads are filled with the scorer's
    defaults. *)
Definition default_weights : weights :=
  mkWeights (30 # 100) (25 # 100) (20 # 100) (15 # 100) (10 # 100).

Definition plain_candidate (name : string) (score min_inv : Q) : candidate :=
  mkCand name (PStr "Mainboard") score
    (mkBreakdown (PNum 5) 10 10 5 5 0 default_weights)
    min_inv None min_inv (mkDate 2025 1 1) PNone (mkAnalysis None PNone).

Definition cand_A : candidate := plain_candidate "A" 8 15000.
Definition cand_B : candidate := plain_candidate "B" 6 10000.

(** ** Exact optimizer ([allocate_balanced]) *)

(** [int(x)] on a float: truncation toward zero. *)
Definition py_int (x : Q) : Z :=
  if Qltb x 0 then (- Qfloor (- x))%Z else Qfloor x.

(** [a // b] on floats: the floor of the quotient; zero divisor raises. *)
Definition py_floordiv (a b : Q) : result Q :=
  if Qeqb b 0 then Raise ZeroDivisionError
  else Ok (inject_Z (Qfloor (a / b))).

Definition Qmax (a b : Q) : Q := if Qltb a b then b else a.
Definition Qmin (a b : Q) : Q := if Qltb b a then b else a.

(** An integer variable of the program, with its bounds. *)
Record lp_var : Type := mkVar { lowBound : Z; upBound : Z }.

(** The program handed to the solver: the variables by offering id, the
    objective and the budget row as lists of (coefficient, id), and the
    right-hand side of the budget row.  The display name built with
    [re.sub] only labels a variable and is left out. *)
Record lp_problem : Type := mkProblem {
  vars_map : gmap string lp_var;
  objective : list (Q * string);
  budget_row : list (Q * string);
  budget_rhs : Q
}.

(** The solving capability: after [prob.solve], [pulp.value(var)] for
    the variable of an id, [None] when the solver left it unset. *)
Definition solver : Type := lp_problem -> string -> option Q.

(** [cap] for one candidate. *)
Definition lot_cap (c : candidate) (budget : Q) : result Z :=
  q <~ py_floordiv budget (min_invest c) ;;
  let max_possible := py_int (Qmax 1 q) in
  Ok (Z.min DEFAULT_MAX_LOTS_PER_IPO max_possible).

(** The bound [lot_cap] returns when the division is defined. *)
Definition cap_of (c : candidate) (budget : Q) : Z :=
  Z.min DEFAULT_MAX_LOTS_PER_IPO (Z.max 1 (Qfloor (budget / min_invest c))).

(** The loop that fills [vars_map]; a later candidate with the same id
    replaces the variable of an earlier one. *)
Fixpoint build_vars (candidates : list candidate) (budget : Q)
    (vm : gmap string lp_var) : result (gmap string lp_var) :=
  match candidates with
  | [] => Ok vm
  | c :: cs =>
      cap <~ lot_cap c budget ;;
      build_vars cs budget (<[ipo c := mkVar 0 cap]> vm)
  end.

(** [obj - DIVERSIFICATION_WEIGHT * total_lots], term by term. *)
Definition build_objective (candidates : list candidate) : list (Q * string) :=
  map (fun c => (composite c, ipo c)) candidates
  ++ map (fun c => (- DIVERSIFICATION_WEIGHT, ipo c)) candidates.

Definition build_problem (candidates : list candidate) (budget : Q) : result lp_problem :=
  vm <~ build_vars candidates budget ∅ ;;
  Ok (mkProblem vm (build_objective candidates)
        (map (fun c => (min_invest c, ipo c)) candidates) budget).

(** The loop that reads the solution back. *)
Fixpoint read_solution (value : string -> option Q) (candidates : list candidate)
    (allocation : list alloc_line) (total : Q) : list alloc_line * Q :=
  match candidates with
  | [] => (allocation, total)
  | c :: cs =>
      let v := py_int (match value (ipo c) with
                       | Some x => if Qeqb x 0 then 0 else x
                       | None => 0
                       end) in
      if (0 <? v)%Z then
        let invested := inject_Z v * min_invest c in
        read_solution value cs
          (allocation ++ [mkLine (ipo c) v (min_invest c) invested (composite c)])
          (total + invested)
      else read_solution value cs allocation total
  end.

(** [None] is the [(None, None)] returned when [pulp] cannot be
    imported, that is when no solver is given. *)
Definition allocate_balanced (pulp : option solver) (candidates : list candidate)
    (budget : Q) : result (option (list alloc_line * Q)) :=
  match pulp with
  | None => Ok None
  | Some solve =>
      prob <~ build_problem candidates budget ;;
      let '(allocation, total) := read_solution (solve prob) candidates [] 0 in
      Ok (Some (allocation, budget - total))
  end.

(** ** Selection policy (the allocation step of [main]) *)

Definition select_allocation (pulp : option solver) (fuel : nat)
    (candidates : list candidate) (budget : Q) : result (list alloc_line * Q) :=
  r <~ allocate_balanced pulp candidates budget ;;
  match r with
  | None => greedy_fill_full fuel candidates budget
  | Some (allocation, remaining) =>
      if Qgtb remaining ((1 # 100) * budget) then
        g <~ greedy_fill_full fuel candidates budget ;;
        let '(g_alloc, g_rem) := g in
        if Qgtb (budget - g_rem) (budget - remaining)
        then Ok (g_alloc, g_rem)
        else Ok (allocation, remaining)
      else Ok (allocation, remaining)
  end.

(** [main] returns before allocating when there is no candidate. *)
Definition main_allocation (pulp : option solver) (fuel : nat)
    (candidates : list candidate) (budget : Q)
  : result (option (list alloc_line * Q)) :=
  match candidates with
  | [] => Ok None
  | _ => r <~ select_allocation pulp fuel candidates budget ;; Ok (Some r)
  end.

(** Two solvers for the examples: one that leaves every variable
    unset, one that gives every offering a single lot. *)
Definition idle_solver : solver := fun _ _ => None.
Definition one_lot_solver : solver := fun _ _ => Some 1.

(** A candidate dearer than the budget of the example below. *)
Definition cand_X : candidate := plain_candidate "X" 7 15000.

(** ** Predicates used to state the allocation properties *)

(** [invested == lots * min_invest] on one line. *)
Definition line_exact (a : alloc_line) : Prop :=
  a_invested a == inject_Z (a_lots a) * a_min_invest a.

(** The line belongs to a candidate of the list and carries its unit. *)
Definition line_of (candidates : list candidate) (a : alloc_line) : Prop :=
  exists c, In c candidates /\ ipo c = a_ipo a /\ min_invest c = a_min_invest a.

(** A state reached from another by buying lots of affordable
    candidates, either merged into the allocation or appended to it. *)
Inductive buys (candidates : list candidate) : gstate -> gstate -> Prop :=
  | buys_refl st : buys candidates st st
  | buys_add c al r st' :
      In c candidates -> min_invest c <= r ->
      buys candidates (add_lot c al, r - min_invest c) st' ->
      buys candidates (al, r) st'
  | buys_app c al r st' :
      In c candidates -> min_invest c <= r ->
      buys candidates (al ++ [new_line c], r - min_invest c) st' ->
      buys candidates (al, r) st'.

(** What holds of every state of a run started with [budget]. *)
Definition ginv (candidates : list candidate) (budget : Q) (st : gstate) : Prop :=
  Forall line_exact (fst st) /\
  Forall (line_of candidates) (fst st) /\
  total_invested (fst st) + snd st == budget /\
  (0 <= snd st \/ fst st = []).

(** The value the solver gave to a variable, 0 when unset. *)
Definition value_or_0 (value : string -> option Q) (k : string) : Q :=
  match value k with
  | Some x => x
  | None => 0
  end.

Definition row_value (value : string -> option Q) (row : list (Q * string)) : Q :=
  fold_right (fun t acc => fst t * value_or_0 value (snd t) + acc) 0 row.

(** The solver's answer respects the bounds and the budget row. *)
Definition feasible (prob : lp_problem) (value : string -> option Q) : Prop :=
  (forall k var, vars_map prob !! k = Some var ->
     inject_Z (lowBound var) <= value_or_0 value k <= inject_Z (upBound var)) /\
  row_value value (budget_row prob) <= budget_rhs prob.

(** Two runs of the heuristic on the same candidates, with budgets
    [b1 <= b2].  They are in lockstep while they have bought the same
    lots; once the richer run buys a lot the poorer cannot afford, it
    has spent more than the whole smaller budget and is ahead. *)
Definition lockstep (b1 b2 : Q) (st1 st2 : gstate) : Prop :=
  fst st1 = fst st2 /\ snd st2 == snd st1 + (b2 - b1) /\ snd st1 <= b1.

Definition ahead (b1 b2 : Q) (st2 : gstate) : Prop :=
  b1 < b2 - snd st2 /\ 0 < b2 - snd st2.

(** ** Text *)

(** Strings are byte strings; case mapping and white space are those
    of ASCII. *)
Definition lower_ascii (c : ascii) : ascii :=
  let n := nat_of_ascii c in
  if (65 <=? n)%nat && (n <=? 90)%nat then ascii_of_nat (n + 32) else c.

(** [s.lower()]. *)
Fixpoint str_lower (s : string) : string :=
  match s with
  | EmptyString => EmptyString
  | String c s' => String (lower_ascii c) (str_lower s')
  end.

(** [needle in hay]. *)
Fixpoint contains (needle hay : string) : bool :=
  String.prefix needle hay ||
  match hay with
  | EmptyString => false
  | String _ hay' => contains needle hay'
  end.

(** [s.replace(pat, empty)] for a non-empty [pat]: [skip] counts the
    bytes of a match still to be dropped. *)
Fixpoint remove_from (pat : string) (skip : nat) (s : string) : string :=
  match s with
  | EmptyString => EmptyString
  | String c s' =>
      match skip with
      | S k => remove_from pat k s'
      | O =>
          if String.prefix pat s
          then remove_from pat (String.length pat - 1) s'
          else String c (remove_from pat 0 s')
      end
  end.

Definition str_remove (pat s : string) : string := remove_from pat 0 s.

Definition is_space (c : ascii) : bool :=
  let n := nat_of_ascii c in
  ((9 <=? n)%nat && (n <=? 13)%nat) || ((28 <=? n)%nat && (n <=? 32)%nat).

Fixpoint lstrip (s : string) : string :=
  match s with
  | EmptyString => EmptyString
  | String c s' => if is_space c then lstrip s' else s
  end.

(** Drops trailing white space: a space is kept only when something
    other than white space follows it. *)
Fixpoint rstrip (s : string) : string :=
  match s with
  | EmptyString => EmptyString
  | String c s' =>
      match rstrip s' with
      | EmptyString => if is_space c then EmptyString else String c EmptyString
      | t => String c t
      end
  end.

(** [s.strip()]. *)
Definition strip (s : string) : string := rstrip (lstrip s).

(** ** Library calls

    What the code asks of [re], [float], [str], [datetime.strptime] and
    [dateutil]: [py_float s] is [float(s)], [None] when it raises
    [ValueError]; [py_num_str] is [str] on a number; [re_search pat
    ignorecase s] gives the groups of the first match; [re_findall]
    the matched substrings; the two date parsers give [None] when they
    raise. *)
Record PyLib : Type := mkLib {
  py_float : string -> option Q;
  py_num_str : Q -> string;
  re_search : string -> bool -> string -> option (list string);
  re_findall : string -> string -> list string;
  strptime : string -> string -> option date;
  dateutil_parse : string -> option date
}.

(** [m.group(i)]. *)
Definition group (i : nat) (groups : list string) : string :=
  nth (i - 1) groups EmptyString.

Definition RETAIL_RE : string := "Retail\s*:?(\d+\.?\d*)%".
Definition ROE_RE : string := "roe[:\s]*([-\d.]+)".
Definition DE_RE : string := "d/?e[:\s]*([-\d.]+)".
Definition EPS_RE : string := "eps[:\s]*[-(₹]?([\d.]+)".
Definition LOT_RE : string := "(?:Min[:\s]*)?(\d{1,6})\s*shares?.*?₹\s?([\d,]+)".
Definition RUPEE_RE : string := "₹\s?([\d,]+)".
Definition PRICE_RE : string := "\d+\.?\d*".

(** [round(x)] to the nearest integer, ties to even. *)
Definition round_half_even (x : Q) : Z :=
  let f := Qfloor x in
  let d := x - inject_Z f in
  if Qltb d (1 # 2) then f
  else if Qltb (1 # 2) d then (f + 1)%Z
  else if Z.even f then f else (f + 1)%Z.

(** [round(x, 3)]. *)
Definition round3 (x : Q) : Q :=
  inject_Z (round_half_even (x * 1000)) / 1000.

(** [max(1, min(score, 10))]. *)
Definition clamp_1_10 (score : Q) : Q := Qmax 1 (Qmin score 10).

Section WithLib.

Variable lib : PyLib.

(** [str(x)]. *)
Definition py_str (x : pyval) : string :=
  match x with
  | PNone => "None"
  | PNum q => py_num_str lib q
  | PStr s => s
  end.

(** ** Utilities *)

(** [safe_float]: the currency sign and the commas are dropped and
    the rest is handed to [float]; any exception gives [None].  On a
    number, [float(str(x))] is the number itself; on [None] the text
    is ["None"], which [float] refuses. *)
Definition safe_float (x : pyval) : option Q :=
  match x with
  | PNone => None
  | PNum q => Some q
  | PStr s => py_float lib (strip (str_remove "," (str_remove "₹" s)))
  end.

(** [try_parse_date]. *)
Definition try_parse_date (s : pyval) : option date :=
  if negb (truthy s) then None
  else
    let s := strip (py_str s) in
    let try f := strptime lib (String.substring 0 (String.length f) s) f in
    match try "%Y-%m-%d" with
    | Some d => Some d
    | None =>
    match try "%d-%b-%Y" with
    | Some d => Some d
    | None =>
    match try "%d %b %Y" with
    | Some d => Some d
    | None =>
    match try "%d/%m/%Y" with
    | Some d => Some d
    | None => dateutil_parse lib s
    end end end end.

(** [parse_lot_and_min_invest].  In the second branch [float] is
    applied to the result of [safe_float], and raises on [None]. *)
Definition parse_lot_and_min_invest (text : pyval) : result (option Z * option Q) :=
  if negb (truthy text) then Ok (None, None)
  else
    let s := py_str text in
    match re_search lib LOT_RE true s with
    | Some m =>
        let lot := safe_float (PStr (group 1 m)) in
        let min_inv := safe_float (PStr (group 2 m)) in
        Ok (match lot with
            | Some l => if opt_truthy lot then Some (py_int l) else None
            | None => None
            end,
            if opt_truthy min_inv then min_inv else None)
    | None =>
        match re_search lib RUPEE_RE false s with
        | Some m2 =>
            match safe_float (PStr (group 1 m2)) with
            | Some q => Ok (None, Some q)
            | None => Raise TypeError
            end
        | None => Ok (None, None)
        end
    end.

(** [sum(nums)/len(nums) if nums else None]. *)
Definition mean (nums : list Q) : option Q :=
  match nums with
  | [] => None
  | _ => Some (fold_left Qplus nums 0 / inject_Z (Z.of_nat (length nums)))
  end.

(** [parse_issue_mid].  The price band is looked up in
    [ipo_doc.get("extracted_fields", {})], which is [None] when the
    key is present with the value [None]. *)
Definition parse_issue_mid (ipo_doc : ipo_doc) : result (option Q) :=
  v <~ (if obj_truthy (doc_issue_price ipo_doc) then Ok (doc_issue_price ipo_doc)
        else match doc_extracted_fields ipo_doc with
             | EfAbsent => Ok (PScalar PNone)
             | EfNone => Raise AttributeError
             | EfDict d => Ok (PScalar (dict_get d "Price Band"))
             end) ;;
  match v with
  | PDict d =>
      let mid := py_or (dict_get d "avg") (py_or (dict_get d "mid") (dict_get d "min")) in
      Ok (safe_float mid)
  | PScalar v =>
      if negb (truthy v) then Ok None
      else
        let nums := re_findall lib PRICE_RE (py_str v) in
        let nums := omap (fun n => safe_float (PStr n)) nums in
        Ok (mean nums)
  end.

(** ** Scoring components *)

Definition extract_retail_quota (text : pyval) : option Q :=
  if negb (truthy text) then Some 10
  else
    match re_search lib RETAIL_RE true (py_str text) with
    | Some m => safe_float (PStr (group 1 m))
    | None => Some 10
    end.

(** [x and x > bound] for an optional float. *)
Definition above (x : option Q) (bound : Q) : bool :=
  match x with
  | Some q => opt_truthy x && Qgtb q bound
  | None => false
  end.

Definition extract_fundamental_score (text : pyval) : Q :=
  if negb (truthy text) then 5
  else
    let score := 5 in
    let t := str_lower (py_str text) in
    let score :=
      if contains "profit" t || contains "positive" t || contains "growth" t
      then score + 2 else score in
    let score :=
      if contains "loss" t || contains "negative" t then score - 2 else score in
    let score :=
      match re_search lib ROE_RE false t with
      | Some m =>
          if above (safe_float (PStr (group 1 m))) 10 then score + (15 # 10) else score
      | None => score
      end in
    let score :=
      match re_search lib DE_RE false t with
      | Some m =>
          if above (safe_float (PStr (group 1 m))) 1 then score - 1 else score
      | None => score
      end in
    let score :=
      match re_search lib EPS_RE false t with
      | Some m =>
          if above (safe_float (PStr (group 1 m))) 0 then score + 1 else score - 1
      | None => score
      end in
    clamp_1_10 score.

Definition GOOD_WORDS : list string :=
  ["growing"; "leader"; "expanding"; "innovative"; "strong"; "profitable"; "stable"].
Definition BAD_WORDS : list string :=
  ["loss"; "decline"; "volatile"; "uncertain"; "risky"; "unprofitable"].

Definition extract_sentiment (text : pyval) : Q :=
  if negb (truthy text) then 5
  else
    let t := str_lower (py_str text) in
    let score := 5 in
    let score :=
      fold_left (fun sc w => if contains w t then sc + (1 # 2) else sc) GOOD_WORDS score in
    let score :=
      fold_left (fun sc w => if contains w t then sc - (1 # 2) else sc) BAD_WORDS score in
    clamp_1_10 score.

(** [ipo_doc.get("extracted_fields", {}) or {}]. *)
Definition fields_of (ipo_doc : ipo_doc) : gmap string pyval :=
  match doc_extracted_fields ipo_doc with
  | EfDict d => d
  | _ => ∅
  end.

(** A number in arithmetic; anything else raises. *)
Definition as_number (v : pyval) : result Q :=
  match v with
  | PNum q => Ok q
  | _ => Raise TypeError
  end.

(** [x or 0] for an optional float. *)
Definition float_or_0 (x : option Q) : Q :=
  match x with
  | Some g => if Qeqb g 0 then 0 else g
  | None => 0
  end.

(** [(gmp / issue * 100) if (gmp and issue) else 0]. *)
Definition gmp_strength_of (gmp : Q) (issue : option Q) : Q :=
  match issue with
  | Some i => if negb (Qeqb gmp 0) && opt_truthy issue then gmp / i * 100 else 0
  | None => 0
  end.

Definition compute_composite_and_breakdown (ipo_doc : ipo_doc) (analysis : analysis_doc)
  : result (Q * breakdown) :=
  let fields := fields_of ipo_doc in
  let base := match an_score analysis with Some v => v | None => PNum 5 end in
  let retail := extract_retail_quota (dict_get fields "Investor Quota Split") in
  let fund := extract_fundamental_score
      (py_or (dict_get fields "Valuation Ratios (EPS, ROE, ROCE, D/E, NAV)")
             (dict_get fields "Financial Performance (FY23–FY25)")) in
  let sent := extract_sentiment (dict_get fields "Company Overview") in
  let gmp := float_or_0 (safe_float (doc_gmp_investorgain ipo_doc)) in
  issue <~ parse_issue_mid ipo_doc ;;
  let gmp_strength := gmp_strength_of gmp issue in
  retail <~ match retail with Some r => Ok r | None => Raise TypeError end ;;
  let rq_score := Qmin (retail / 10) 1 * 10 in
  let w := mkWeights (30 # 100) (25 # 100) (20 # 100) (15 # 100) (10 # 100) in
  base_num <~ as_number base ;;
  let composite :=
    w_base w * base_num + w_retail w * rq_score + w_fund w * fund
    + w_gmp w * (gmp_strength / 10) + w_sentiment w * sent in
  let composite := round3 (Qmin composite 10) in
  Ok (composite,
      mkBreakdown base retail (round3 rq_score) (round3 fund) (round3 sent)
        (round3 gmp_strength) w).

(** ** Candidates *)

(** The body of the loop of [build_candidates]: [None] is a
    [continue].  A lot count of 0 counts as no lot, both in
    [if lot] and in the stored [int(lot) if lot else None]. *)
Definition build_candidate (scored : gmap string analysis_doc) (hold_date : date)
    (name : string) (ipo_doc : ipo_doc) : result (option candidate) :=
  match scored !! name with
  | None => Ok None
  | Some analysis =>
      if negb (match an_status analysis with
               | PStr s => String.eqb s "scored"
               | _ => false
               end)
         && negb (match an_score analysis with Some _ => true | None => false end)
      then Ok None
      else
        let fields := fields_of ipo_doc in
        let close := py_or (doc_close_date ipo_doc)
                       (py_or (dict_get fields "IPO Dates") (dict_get fields "Close Date")) in
        match try_parse_date (PStr (py_str close)) with
        | None => Ok None
        | Some close_date =>
            if date_gtb close_date hold_date then Ok None
            else
              issue_mid <~ parse_issue_mid ipo_doc ;;
              match issue_mid with
              | None => Ok None
              | Some mid =>
                  if negb (opt_truthy issue_mid) then Ok None
                  else
                    lm <~ parse_lot_and_min_invest (dict_get fields "Market Lot & Amounts") ;;
                    let '(lot, min_inv) := lm in
                    let lot := match lot with
                               | Some l => if (l =? 0)%Z then None else lot
                               | None => None
                               end in
                    let min_inv :=
                      match (if opt_truthy min_inv then min_inv else None) with
                      | Some m => m
                      | None => match lot with
                                | Some l => inject_Z l * mid
                                | None => MIN_INVEST_MAINBOARD
                                end
                      end in
                    cb <~ compute_composite_and_breakdown ipo_doc analysis ;;
                    let '(composite, breakdown) := cb in
                    if Qltb composite 5 then Ok None
                    else
                      Ok (Some (mkCand name
                                  (match doc_category ipo_doc with
                                   | Some v => v
                                   | None => PStr "Mainboard"
                                   end)
                                  composite breakdown mid
                                  lot
                                  min_inv close_date
                                  (doc_gmp_investorgain ipo_doc) analysis))
              end
        end
  end.

Fixpoint build_candidates (ipos_by_name : list (string * ipo_doc))
    (scored : gmap string analysis_doc) (hold_date : date) : result (list candidate) :=
  match ipos_by_name with
  | [] => Ok []
  | (name, ipo_doc) :: rest =>
      c <~ build_candidate scored hold_date name ipo_doc ;;
      cands <~ build_candidates rest scored hold_date ;;
      Ok (match c with Some c => c :: cands | None => cands end)
  end.

End WithLib.

(** ** Example documents

    A library that knows the few strings of the examples: the amounts
    ["10"], ["0"] and ["35"], the lot text ["10 shares ₹0"] with its
    two groups, the quota text ["Retail:35%"], and the date
    ["2025-05-05"], which [strptime] refuses under every format tried
    (the text is cut to the length of the format) and [dateutil]
    reads. *)
Definition demo_float (s : string) : option Q :=
  if String.eqb s "10" then Some 10
  else if String.eqb s "0" then Some 0
  else if String.eqb s "35" then Some 35
  else None.

Definition demo_search (pat : string) (ignorecase : bool) (s : string)
  : option (list string) :=
  if String.eqb pat LOT_RE && String.eqb s "10 shares ₹0" then Some ["10"; "0"]
  else if String.eqb pat RETAIL_RE && String.eqb s "Retail:35%" then Some ["35"]
  else None.

Definition demo_lib : PyLib :=
  mkLib demo_float (fun _ => EmptyString) demo_search (fun _ _ => [])
    (fun _ _ => None)
    (fun s => if String.eqb s "2025-05-05" then Some (mkDate 2025 5 5) else None).

(** A grey-market premium of -10 on a structured price of 100. *)
Definition doc_negative_gmp : ipo_doc :=
  mkIpo (PDict {[ "avg" := PNum 100 ]}) (EfDict ∅) PNone (PNum (-10)) None.

(** [{"extracted_fields": None}]: the key is there, its value is null. *)
Definition doc_null_fields : ipo_doc :=
  mkIpo (PScalar PNone) EfNone PNone PNone None.

(** A structured price of -5, a lot of 10 shares with the amount 0. *)
Definition doc_negative_price : ipo_doc :=
  mkIpo (PDict {[ "avg" := PNum (-5) ]})
    (EfDict {[ "Market Lot & Amounts" := PStr "10 shares ₹0" ]})
    (PStr "2025-05-05") PNone None.

(** A plain offering: price 100, retail quota 35%, no lot text. *)
Definition doc_plain : ipo_doc :=
  mkIpo (PDict {[ "avg" := PNum 100 ]})
    (EfDict {[ "Investor Quota Split" := PStr "Retail:35%" ]})
    (PStr "2025-05-05") (PNum 12) None.

Definition analysis_empty : analysis_doc := mkAnalysis None PNone.
Definition analysis_seven : analysis_doc := mkAnalysis (Some (PNum 7)) (PStr "scored").
Definition analysis_ten : analysis_doc := mkAnalysis (Some (PNum 10)) (PStr "scored").

Definition hold_may : date := mkDate 2025 5 31.

(** An offering with no field at all. *)
Definition doc_bare : ipo_doc := mkIpo (PScalar PNone) EfAbsent PNone PNone None.

(** The candidate built from [doc_plain] and [analysis_seven]. *)
Definition cand_P : candidate :=
  mkCand "P" (PStr "Mainboard")
    (round3 (Qmin ((30 # 100) * 7 + (25 # 100) * (Qmin (35 / 10) 1 * 10)
                   + (20 # 100) * 5 + (15 # 100) * (12 / 100 * 100 / 10)
                   + (10 # 100) * 5) 10))
    (mkBreakdown (PNum 7) 35 (round3 (Qmin (35 / 10) 1 * 10)) (round3 5) (round3 5)
       (round3 (12 / 100 * 100)) default_weights)
    100 None MIN_INVEST_MAINBOARD (mkDate 2025 5 5) (PNum 12) analysis_seven.

From Stdlib Require Import Sorted.

(** ** Further predicates on allocations *)

(** The line stands for a candidate of the list: same id, same unit,
    same score, at least one lot, and a unit within the budget. *)
Definition line_sound (candidates : list candidate) (budget : Q) (a : alloc_line) : Prop :=
  (1 <= a_lots a)%Z /\
  exists c, In c candidates /\ ipo c = a_ipo a /\ min_invest c = a_min_invest a /\
            composite c = a_composite a /\ min_invest c <= budget.

(** Lines in non-increasing order of score. *)
Definition by_score_desc (al : list alloc_line) : Prop :=
  StronglySorted (fun a b => a_composite b <= a_composite a) al.

(** [sum(c["min_invest"] for c in candidates)]. *)
Definition total_units (candidates : list candidate) : Q :=
  fold_right (fun c acc => min_invest c + acc) 0 candidates.

(** A state reached by buying lots that are all merged with
    [add_lot]. *)
Inductive adds (candidates : list candidate) : gstate -> gstate -> Prop :=
  | adds_refl st : adds candidates st st
  | adds_step c al r st' :
      In c candidates -> min_invest c <= r ->
      adds candidates (add_lot c al, r - min_invest c) st' ->
      adds candidates (al, r) st'.

(** The value read back for a candidate: [pulp.value(var) or 0]. *)
Definition value_read (value : string -> option Q) (c : candidate) : Q :=
  match value (ipo c) with
  | Some x => if Qeqb x 0 then 0 else x
  | None => 0
  end.

(** The line of a candidate in the optimizer's allocation. *)
Definition line_read (value : string -> option Q) (cs : list candidate)
    (a : alloc_line) : Prop :=
  exists c, In c cs /\ a_ipo a = ipo c /\ a_min_invest a = min_invest c /\
            a_lots a = py_int (value_read value c) /\ (1 <= a_lots a)%Z.

(** The program built for A and B with budget 25000. *)
Definition scenario_problem : lp_problem :=
  mkProblem (<["B" := mkVar 0 2]> (<["A" := mkVar 0 1]> ∅))
    (build_objective [cand_A; cand_B])
    [(15000, "A"); (10000, "B")] 25000.

(** ** Further example documents *)

(** A library that also knows a lot text made of a currency sign and
    a comma: the lot pattern does not match it, the amount pattern
    captures the comma, and [float] refuses what is left of it. *)
Definition demo_search_rupee (pat : string) (ignorecase : bool) (s : string)
  : option (list string) :=
  if String.eqb pat RUPEE_RE && String.eqb s "₹," then Some [","]
  else demo_search pat ignorecase s.

Definition demo_lib_rupee : PyLib :=
  mkLib demo_float (fun _ => EmptyString) demo_search_rupee (fun _ _ => [])
    (fun _ _ => None)
    (fun s => if String.eqb s "2025-05-05" then Some (mkDate 2025 5 5) else None).

(** Price 100, closing in time, with that lot text. *)
Definition doc_bad_lot : ipo_doc :=
  mkIpo (PDict {[ "avg" := PNum 100 ]})
    (EfDict {[ "Market Lot & Amounts" := PStr "₹," ]})
    (PStr "2025-05-05") PNone None.

(** Closing in time, scored, but with no price anywhere. *)
Definition doc_no_price : ipo_doc :=
  mkIpo (PScalar PNone) (EfDict ∅) (PStr "2025-05-05") PNone None.

(** ** Score classes ([get_score_class]) *)

Definition get_score_class (score : Q) : string :=
  if Qgeb score 7 then "score-high"
  else if Qgeb score 5 then "score-medium"
  else "score-low".

(** A library that reads a price band as the two prices 95 and 100. *)
Definition demo_lib_band : PyLib :=
  mkLib (fun s => if String.eqb s "95" then Some 95
                  else if String.eqb s "100" then Some 100 else None)
    (fun _ => EmptyString) (fun _ _ _ => None)
    (fun pat s => if String.eqb pat PRICE_RE && String.eqb s "₹95 to ₹100"
                  then ["95"; "100"] else [])
    (fun _ _ => None) (fun _ => None).

Definition doc_band : ipo_doc :=
  mkIpo (PScalar (PStr "₹95 to ₹100")) EfAbsent PNone PNone None.

(** ** Explainability ([explain_allocation]) *)

Record explanation : Type := mkExplanation {
  reasons_more : list string;
  reasons_less : list string;
  ex_breakdown : breakdown
}.

Section Explain.

Variable lib : PyLib.

(** The summary sentence: the numbers are written as [str] writes
    them. *)
Definition summary_reason (c : candidate) : string :=
  let br := cand_breakdown c in
  ("Composite score " ++ py_num_str lib (composite c)
   ++ " computed from base_score=" ++ py_str lib (base_score br)
   ++ ", retail_q=" ++ py_num_str lib (retail_quota_pct br)
   ++ "%, fund=" ++ py_num_str lib (fund_score br)
   ++ ", sentiment=" ++ py_num_str lib (sentiment_score br)
   ++ ", gmp_str=" ++ py_num_str lib (gmp_strength_pct br) ++ "%")%string.

(** The body of the loop for the candidate [c] of a line. *)
Definition explain_one (c : candidate) : explanation :=
  let br := cand_breakdown c in
  let reasons_more := [summary_reason c] in
  let reasons_less := [] in
  let reasons_more :=
    if Qgtb (gmp_strength_pct br) 10
    then reasons_more ++ [("High GMP strength " ++ py_num_str lib (gmp_strength_pct br)
                           ++ "% → strong listing expectation")%string]
    else reasons_more in
  let '(reasons_more, reasons_less) :=
    if Qgeb (retail_quota_pct br) 30
    then (reasons_more ++ ["High retail quota → better allotment odds"], reasons_less)
    else (reasons_more,
          reasons_less ++ [("Retail quota " ++ py_num_str lib (retail_quota_pct br)
                            ++ "% is low")%string]) in
  let '(reasons_more, reasons_less) :=
    if Qgeb (fund_score br) 6
    then (reasons_more ++ ["Fundamentals show positive indicators"], reasons_less)
    else (reasons_more, reasons_less ++ ["Fundamentals are weak/moderate"]) in
  let reasons_less :=
    if contains "sme" (str_lower (py_str lib (category c)))
    then reasons_less ++ ["SME IPO: higher risk & lower liquidity"]
    else reasons_less in
  mkExplanation reasons_more reasons_less br.

(** The loop over the allocation.  [candidates_dict.get] gives [None]
    for an id without candidate, and reading its breakdown raises. *)
Fixpoint explain_loop (candidates_dict : gmap string candidate)
    (allocation : list alloc_line) (explain : gmap string explanation)
  : result (gmap string explanation) :=
  match allocation with
  | [] => Ok explain
  | a :: rest =>
      match candidates_dict !! a_ipo a with
      | None => Raise TypeError
      | Some c =>
          explain_loop candidates_dict rest (<[a_ipo a := explain_one c]> explain)
      end
  end.

Definition explain_allocation (allocation : list alloc_line)
    (candidates_dict : gmap string candidate) : result (gmap string explanation) :=
  explain_loop candidates_dict allocation ∅.

End Explain.

(** [{c["ipo"]: c for c in candidates}], as [main] builds it. *)
Definition candidates_dict_of (candidates : list candidate) : gmap string candidate :=
  fold_left (fun m c => <[ipo c := c]> m) candidates ∅.

(** A candidate in the SME category. *)
Definition cand_S : candidate :=
  mkCand "S" (PStr "SME") 6 (mkBreakdown (PNum 6) 12 10 5 5 0 default_weights)
    100 None 12000 (mkDate 2025 5 5) PNone analysis_seven.

(** A mainboard candidate with a high retail quota and good
    fundamentals. *)
Definition cand_G : candidate :=
  mkCand "G" (PStr "Mainboard") 8 (mkBreakdown (PNum 8) 35 10 7 5 0 default_weights)
    100 None 15000 (mkDate 2025 5 5) PNone analysis_seven.

(** ** Values stored in Mongo ([sanitize_for_mongo]) *)

(** A document to store: dicts, lists, tuples, dates, datetimes, and
    plain values.  A dict is kept as the list of its items.  A tuple
    stands for every container that is neither a dict nor a list. *)
#[local] Unset Elimination Schemes.

Inductive mongo : Type :=
  | MDict (items : list (string * mongo))
  | MList (elems : list mongo)
  | MTuple (elems : list mongo)
  | MDate (d : date)
  | MDateTime (d : date) (hour minute second : Z)
  | MAtom (v : pyval).

#[local] Set Elimination Schemes.

(** Induction on documents, with the property holding of every value
    of a dict and every element of a list or tuple. *)
Fixpoint mongo_induction (P : mongo -> Prop)
    (Hdict : forall items, Forall (fun kv => P (snd kv)) items -> P (MDict items))
    (Hlist : forall elems, Forall P elems -> P (MList elems))
    (Htuple : forall elems, Forall P elems -> P (MTuple elems))
    (Hdate : forall d, P (MDate d))
    (Hdatetime : forall d h m s, P (MDateTime d h m s))
    (Hatom : forall v, P (MAtom v))
    (obj : mongo) : P obj :=
  match obj with
  | MDict items =>
      Hdict items
        ((fix go (l : list (string * mongo)) : Forall (fun kv => P (snd kv)) l :=
            match l with
            | [] => @List.Forall_nil _ _
            | (k, v) :: l' =>
                @List.Forall_cons _ _ (k, v) l'
                  (mongo_induction P Hdict Hlist Htuple Hdate Hdatetime Hatom v) (go l')
            end) items)
  | MList elems =>
      Hlist elems
        ((fix go (l : list mongo) : Forall P l :=
            match l with
            | [] => @List.Forall_nil _ _
            | x :: l' =>
                @List.Forall_cons _ _ x l'
                  (mongo_induction P Hdict Hlist Htuple Hdate Hdatetime Hatom x) (go l')
            end) elems)
  | MTuple elems =>
      Htuple elems
        ((fix go (l : list mongo) : Forall P l :=
            match l with
            | [] => @List.Forall_nil _ _
            | x :: l' =>
                @List.Forall_cons _ _ x l'
                  (mongo_induction P Hdict Hlist Htuple Hdate Hdatetime Hatom x) (go l')
            end) elems)
  | MDate d => Hdate d
  | MDateTime d h m s => Hdatetime d h m s
  | MAtom v => Hatom v
  end.

(** [isinstance(obj, date)]: [datetime] is a subclass of [date]. *)
Definition isinstance_date (obj : mongo) : bool :=
  match obj with
  | MDate _ | MDateTime _ _ _ _ => true
  | _ => false
  end.

Definition isinstance_datetime (obj : mongo) : bool :=
  match obj with
  | MDateTime _ _ _ _ => true
  | _ => false
  end.

Definition digit (n : Z) : ascii := ascii_of_nat (48 + Z.to_nat (n mod 10)).

Definition pad2 (n : Z) : string :=
  String (digit (n / 10)) (String (digit n) EmptyString).

Definition pad4 (n : Z) : string :=
  String (digit (n / 1000)) (String (digit (n / 100)) (pad2 n)).

(** [datetime(y, m, d, hh, mm, ss).isoformat()]. *)
Definition isoformat (d : date) (hour minute second : Z) : string :=
  (pad4 (year d) ++ "-" ++ pad2 (month d) ++ "-" ++ pad2 (day d)
   ++ "T" ++ pad2 hour ++ ":" ++ pad2 minute ++ ":" ++ pad2 second)%string.

(** [obj.year], [obj.month], [obj.day] of a date or datetime. *)
Definition date_part (obj : mongo) : date :=
  match obj with
  | MDate d | MDateTime d _ _ _ => d
  | _ => mkDate 0 0 0
  end.

(** [sanitize_for_mongo]: only dicts and lists are descended into;
    a tuple falls to the last branch and is returned as it is. *)
Fixpoint sanitize_for_mongo (obj : mongo) : mongo :=
  match obj with
  | MDict items =>
      MDict (map (fun kv => let '(k, v) := kv in (k, sanitize_for_mongo v)) items)
  | MList elems => MList (map sanitize_for_mongo elems)
  | _ =>
      if isinstance_date obj then MAtom (PStr (isoformat (date_part obj) 0 0 0))
      else if isinstance_datetime obj then
        match obj with
        | MDateTime d h m s => MAtom (PStr (isoformat d h m s))
        | _ => obj
        end
      else obj
  end.

(** No date or datetime anywhere in the document. *)
Fixpoint date_free (obj : mongo) : bool :=
  match obj with
  | MDict items => forallb (fun kv => let '(_, v) := kv in date_free v) items
  | MList elems | MTuple elems => forallb date_free elems
  | MDate _ | MDateTime _ _ _ _ => false
  | MAtom _ => true
  end.

(** No tuple anywhere in the document. *)
Fixpoint tuple_free (obj : mongo) : bool :=
  match obj with
  | MDict items => forallb (fun kv => let '(_, v) := kv in tuple_free v) items
  | MList elems => forallb tuple_free elems
  | MTuple _ => false
  | MDate _ | MDateTime _ _ _ _ | MAtom _ => true
  end.

(** The same document with every datetime that is not inside a tuple
    cut to its day. *)
Fixpoint drop_times (obj : mongo) : mongo :=
  match obj with
  | MDict items => MDict (map (fun kv => let '(k, v) := kv in (k, drop_times v)) items)
  | MList elems => MList (map drop_times elems)
  | MDateTime d _ _ _ => MDate d
  | _ => obj
  end.

(** ** The record [main] stores *)

Definition num (q : Q) : mongo := MAtom (PNum q).
Definition text (s : string) : mongo := MAtom (PStr s).

(** An allocation line, with its keys in the order the heuristic
    writes them. *)
Definition line_doc (a : alloc_line) : mongo :=
  MDict [("ipo", text (a_ipo a)); ("lots", num (inject_Z (a_lots a)));
         ("min_invest", num (a_min_invest a)); ("invested", num (a_invested a));
         ("composite", num (a_composite a))].

(** The breakdown dict of [compute_composite_and_breakdown]. *)
Definition breakdown_doc (br : breakdown) : mongo :=
  MDict [("base_score", MAtom (base_score br));
         ("retail_quota_pct", num (retail_quota_pct br));
         ("rq_score", num (rq_score br));
         ("fund_score", num (fund_score br));
         ("sentiment_score", num (sentiment_score br));
         ("gmp_strength_pct", num (gmp_strength_pct br));
         ("weights",
          MDict [("base", num (w_base (weights_of br)));
                 ("retail", num (w_retail (weights_of br)));
                 ("fund", num (w_fund (weights_of br)));
                 ("gmp", num (w_gmp (weights_of br)));
                 ("sentiment", num (w_sentiment (weights_of br)))])].

(** An entry of the dict [explain_allocation] returns. *)
Definition explanation_doc (e : explanation) : mongo :=
  MDict [("reasons_more", MList (map text (reasons_more e)));
         ("reasons_less", MList (map text (reasons_less e)));
         ("breakdown", breakdown_doc (ex_breakdown e))].

(** [rec], before it is sanitized: the two dates are already written
    as text with [isoformat]; [explain] is given as its items. *)
Definition recommendation_doc (created_at : string) (budget : Q) (hold_until : string)
    (allocation : list alloc_line) (explain : list (string * explanation))
    (total_invested leftover : Q) : mongo :=
  MDict [("created_at", text created_at);
         ("budget", num budget);
         ("hold_until", text hold_until);
         ("allocation", MList (map line_doc allocation));
         ("explain", MDict (map (fun kv => (fst kv, explanation_doc (snd kv))) explain));
         ("total_invested", num total_invested);
         ("leftover", num leftover)].

(** * The heuristic on binary64 numbers

    Python's floats are IEEE 754 binary64 numbers, and every sum,
    difference, product and quotient is rounded to the nearest of
    them.  The definitions above compute with exact rationals; the
    ones of this module are the same passes on binary64 numbers, and
    show where the rounding is seen. *)

From Stdlib Require Import Floats.

#[local] Set Warnings "-inexact-float".

Module Binary64.

(** The keys of a candidate that [greedy_fill_full] reads. *)
Record candidate : Type := mkCand {
  ipo : string;
  composite : float;
  min_invest : float
}.

Record alloc_line : Type := mkLine {
  a_ipo : string;
  a_lots : Z;
  a_min_invest : float;
  a_invested : float;
  a_composite : float
}.

(** [a >= b] and [a > b]: false as soon as one side is NaN. *)
Definition geb (a b : float) : bool := PrimFloat.leb b a.
Definition gtb (a b : float) : bool := PrimFloat.ltb b a.

(** [x["composite"]/x["min_invest"]]; dividing by [0.0] or [-0.0]
    raises. *)
Definition density (c : candidate) : result float :=
  if PrimFloat.eqb (min_invest c) PrimFloat.zero then Raise ZeroDivisionError
  else Ok (PrimFloat.div (composite c) (min_invest c)).

(** Stable sort by decreasing key, as [insert_desc] and [sort_desc]
    above; the keys are compared with [<] only. *)
Fixpoint insert_desc {A : Type} (x : float * A) (l : list (float * A))
  : list (float * A) :=
  match l with
  | [] => [x]
  | y :: l' => if gtb (fst y) (fst x) then y :: insert_desc x l' else x :: l
  end.

Definition sort_desc {A : Type} (l : list (float * A)) : list (float * A) :=
  fold_right insert_desc [] l.

Definition sorted_by_density (candidates : list candidate) : result (list candidate) :=
  keyed <~ rmap_list (fun c => k <~ density c ;; Ok (k, c)) candidates ;;
  Ok (map snd (sort_desc keyed)).

Definition sorted_by_composite (allocation : list alloc_line) : list alloc_line :=
  map snd (sort_desc (map (fun a => (a_composite a, a)) allocation)).

(** [min(c["min_invest"] for c in candidates)]. *)
Definition min_of (l : list float) : result float :=
  match l with
  | [] => Raise ValueError
  | x :: l' => Ok (fold_left (fun m y => if PrimFloat.ltb y m then y else m) l' x)
  end.

Definition new_line (c : candidate) : alloc_line :=
  mkLine (ipo c) 1 (min_invest c) (min_invest c) (composite c).

(** [found["lots"] += 1; found["invested"] += c["min_invest"]] on the
    first line of that id, or the append of a new line. *)
Fixpoint add_lot (c : candidate) (allocation : list alloc_line) : list alloc_line :=
  match allocation with
  | [] => [new_line c]
  | a :: rest =>
      if String.eqb (a_ipo a) (ipo c)
      then mkLine (a_ipo a) (a_lots a + 1) (a_min_invest a)
                  (PrimFloat.add (a_invested a) (min_invest c)) (a_composite a) :: rest
      else a :: add_lot c rest
  end.

Definition gstate : Type := (list alloc_line * float)%type.

Fixpoint seed_pass (cands : list candidate) (st : gstate) : gstate :=
  match cands with
  | [] => st
  | c :: cs =>
      let '(allocation, remaining) := st in
      if geb remaining (min_invest c)
      then seed_pass cs (allocation ++ [new_line c],
                         PrimFloat.sub remaining (min_invest c))
      else seed_pass cs st
  end.

Fixpoint topk_sweep (min_unit : float) (top_k : list candidate) (st : gstate)
    (added : bool) : gstate * bool :=
  match top_k with
  | [] => (st, added)
  | c :: cs =>
      let '(allocation, remaining) := st in
      let '(st', added') :=
        if geb remaining (min_invest c)
        then ((add_lot c allocation, PrimFloat.sub remaining (min_invest c)), true)
        else (st, added) in
      if PrimFloat.ltb (snd st') min_unit then (st', added')
      else topk_sweep min_unit cs st' added'
  end.

Fixpoint topk_loop (fuel : nat) (min_unit : float) (top_k : list candidate)
    (st : gstate) (added : bool) : result gstate :=
  if added && geb (snd st) min_unit then
    match fuel with
    | O => Timeout
    | S fuel' =>
        let '(st', added') := topk_sweep min_unit top_k st false in
        topk_loop fuel' min_unit top_k st' added'
    end
  else Ok st.

Fixpoint max_by_density (best : float * candidate) (l : list (float * candidate))
  : candidate :=
  match l with
  | [] => snd best
  | x :: l' => max_by_density (if gtb (fst x) (fst best) then x else best) l'
  end.

Definition pick_affordable (cands : list candidate) (remaining : float)
  : result (option candidate) :=
  let affordable := List.filter (fun c => PrimFloat.leb (min_invest c) remaining) cands in
  keyed <~ rmap_list (fun c => k <~ density c ;; Ok (k, c)) affordable ;;
  match keyed with
  | [] => Ok None
  | x :: l => Ok (Some (max_by_density x l))
  end.

Fixpoint drain_loop (fuel : nat) (min_unit : float) (cands : list candidate)
    (st : gstate) : result gstate :=
  if geb (snd st) min_unit then
    match fuel with
    | O => Timeout
    | S fuel' =>
        p <~ pick_affordable cands (snd st) ;;
        match p with
        | None => Ok st
        | Some pick =>
            drain_loop fuel' min_unit cands
              (add_lot pick (fst st), PrimFloat.sub (snd st) (min_invest pick))
        end
    end
  else Ok st.

Definition greedy_fill_full (fuel : nat) (candidates : list candidate) (budget : float)
  : result (list alloc_line * float) :=
  candidates <~ sorted_by_density candidates ;;
  min_unit <~ min_of (map min_invest candidates) ;;
  let st := seed_pass candidates ([], budget) in
  let top_k := firstn (Nat.min TOP_FILL_K (length candidates)) candidates in
  st <~ topk_loop fuel min_unit top_k st true ;;
  st <~ drain_loop fuel min_unit candidates st ;;
  Ok (sorted_by_composite (fst st), snd st).

(** [float(n)] for a lot count. *)
Definition of_lots (n : Z) : float := PrimFloat.of_uint63 (Uint63.of_Z n).

(** [a["invested"] == a["lots"] * a["min_invest"]]. *)
Definition line_exact (a : alloc_line) : bool :=
  PrimFloat.eqb (a_invested a) (PrimFloat.mul (of_lots (a_lots a)) (a_min_invest a)).

(** [sum(a["invested"] for a in allocation)], which starts from the
    integer 0 and adds from the left. *)
Definition total_invested (allocation : list alloc_line) : float :=
  fold_left (fun acc a => PrimFloat.add acc (a_invested a)) allocation PrimFloat.zero.

(** The test [composite < 5] of [build_candidates]. *)
Definition below_floor (composite : float) : bool :=
  PrimFloat.ltb composite 5%float.

Definition get_score_class (score : float) : string :=
  if geb score 7%float then "score-high"
  else if geb score 5%float then "score-medium"
  else "score-low".

End Binary64.

(** ** Amounts that binary64 keeps exact

    A whole number up to 2^53 is a binary64 number, and the sum or the
    difference of two of them, when it is again at most 2^53, is
    computed without rounding.  On such amounts the rational
    arithmetic of [add_lot] and of the three passes is the program's. *)
Definition whole (q : Q) : Prop := q == inject_Z (Qfloor q).

Definition MAX_EXACT : Q := 9007199254740992.

Definition whole_amounts (candidates : list candidate) (budget : Q) : Prop :=
  whole budget /\ 0 <= budget /\ budget <= MAX_EXACT /\
  forall c, In c candidates -> whole (min_invest c).


(** * Proofs *)

(** ** Boolean comparisons reflect the order on [Q] *)

Lemma Qltb_lt a b : Qltb a b = true <-> a < b.
Proof.
  unfold Qltb. rewrite negb_true_iff. split; intros H.
  - apply Qnot_le_lt. intros Hle. apply Qle_bool_iff in Hle. congruence.
  - apply not_true_is_false. intros Hle. apply Qle_bool_iff in Hle. lra.
Qed.

Lemma Qltb_ge a b : Qltb a b = false <-> b <= a.
Proof.
  unfold Qltb. rewrite negb_false_iff. apply Qle_bool_iff.
Qed.

Lemma Qgeb_ge a b : Qgeb a b = true <-> b <= a.
Proof. unfold Qgeb. apply Qle_bool_iff. Qed.

Lemma Qgeb_lt a b : Qgeb a b = false <-> a < b.
Proof.
  unfold Qgeb. split; intros H.
  - apply Qnot_le_lt. intros Hle. apply Qle_bool_iff in Hle. congruence.
  - apply not_true_is_false. intros Hle. apply Qle_bool_iff in Hle. lra.
Qed.

Lemma Qgtb_gt a b : Qgtb a b = true <-> b < a.
Proof. unfold Qgtb. apply (Qltb_lt b a). Qed.

Lemma Qgtb_le a b : Qgtb a b = false <-> a <= b.
Proof. unfold Qgtb. apply (Qltb_ge b a). Qed.

(** ** The worked scenario *)

(** C7: for A (score 8, unit 15000) and B (score 6, unit 10000) with
    budget 25000 the density order is B then A, the seed pass gives one
    lot to each and leaves nothing, and the heuristic returns the lines
    of A and B, in that order, with leftover 0, whatever the fuel. *)
Theorem C7_two_candidate_scenario :
  sorted_by_density [cand_A; cand_B] = Ok [cand_B; cand_A] /\
  seed_pass [cand_B; cand_A] ([], 25000)
    = ([mkLine "B" 1 10000 10000 6; mkLine "A" 1 15000 15000 8], 0) /\
  forall fuel,
    greedy_fill_full fuel [cand_A; cand_B] 25000
      = Ok ([mkLine "A" 1 15000 15000 8; mkLine "B" 1 10000 10000 6], 0).
Proof.
  split; [reflexivity|]. split; [reflexivity|].
  intros fuel. destruct fuel; reflexivity.
Qed.

(** ** Selection policy *)

(** C8: without an optimizer result the heuristic's result is used; an
    optimizer result whose leftover is at most 1% of the budget is used
    as it is; otherwise the heuristic runs too and replaces the
    optimizer's result only when it invests strictly more. *)
Theorem C8_selection_policy (pulp : option solver) (fuel : nat)
    (candidates : list candidate) (budget : Q) :
  (allocate_balanced pulp candidates budget = Ok None ->
   select_allocation pulp fuel candidates budget
     = greedy_fill_full fuel candidates budget) /\
  (forall allocation remaining,
     allocate_balanced pulp candidates budget = Ok (Some (allocation, remaining)) ->
     remaining <= (1 # 100) * budget ->
     select_allocation pulp fuel candidates budget = Ok (allocation, remaining)) /\
  (forall allocation remaining g_alloc g_rem,
     allocate_balanced pulp candidates budget = Ok (Some (allocation, remaining)) ->
     (1 # 100) * budget < remaining ->
     greedy_fill_full fuel candidates budget = Ok (g_alloc, g_rem) ->
     (budget - remaining < budget - g_rem ->
      select_allocation pulp fuel candidates budget = Ok (g_alloc, g_rem)) /\
     (budget - g_rem <= budget - remaining ->
      select_allocation pulp fuel candidates budget = Ok (allocation, remaining))).
Proof.
  unfold select_allocation. split; [|split].
  - intros ->. reflexivity.
  - intros allocation remaining -> Hle. cbn [rbind].
    apply Qgtb_le in Hle. rewrite Hle. reflexivity.
  - intros allocation remaining g_alloc g_rem -> Hlt Hg. cbn [rbind].
    apply Qgtb_gt in Hlt. rewrite Hlt, Hg. cbn [rbind]. split.
    + intros Hmore. apply Qgtb_gt in Hmore. rewrite Hmore. reflexivity.
    + intros Htie. apply Qgtb_le in Htie. rewrite Htie. reflexivity.
Qed.

Lemma C8_selection_policy_witness :
  select_allocation None 5 [cand_A; cand_B] 25000
    = greedy_fill_full 5 [cand_A; cand_B] 25000 /\
  select_allocation (Some one_lot_solver) 5 [cand_A; cand_B] 25000
    = Ok ([mkLine "A" 1 15000 15000 8; mkLine "B" 1 10000 10000 6], 25000 - (0 + 15000 + 10000)) /\
  select_allocation (Some idle_solver) 5 [cand_A; cand_B] 25000
    = Ok ([mkLine "A" 1 15000 15000 8; mkLine "B" 1 10000 10000 6], 0) /\
  select_allocation (Some one_lot_solver) 5 [cand_A] 20000
    = Ok ([mkLine "A" 1 15000 15000 8], 20000 - (0 + 15000)).
Proof.
  split; [|split; [|split]].
  - apply (proj1 (C8_selection_policy None 5 [cand_A; cand_B] 25000)).
    reflexivity.
  - apply (proj1 (proj2 (C8_selection_policy (Some one_lot_solver) 5
                           [cand_A; cand_B] 25000))).
    + reflexivity.
    + discriminate.
  - apply (proj2 (proj2 (C8_selection_policy (Some idle_solver) 5
                           [cand_A; cand_B] 25000))
             [] (25000 - 0)
             [mkLine "A" 1 15000 15000 8; mkLine "B" 1 10000 10000 6] 0).
    + reflexivity.
    + reflexivity.
    + reflexivity.
    + reflexivity.
  - apply (proj2 (proj2 (C8_selection_policy (Some one_lot_solver) 5
                           [cand_A] 20000))
             [mkLine "A" 1 15000 15000 8] (20000 - (0 + 15000))
             [mkLine "A" 1 15000 15000 8] (20000 - 15000)).
    + reflexivity.
    + reflexivity.
    + reflexivity.
    + discriminate.
Defined.

(** ** Bounds of the lot variables *)

Lemma py_int_inject (z : Z) : py_int (inject_Z z) = z.
Proof.
  unfold py_int. destruct (Qltb (inject_Z z) 0) eqn:E.
  - change (- inject_Z z) with (inject_Z (- z)). rewrite Qfloor_Z. lia.
  - apply Qfloor_Z.
Qed.

Lemma Qmax_inject (a b : Z) : Qmax (inject_Z a) (inject_Z b) = inject_Z (Z.max a b).
Proof.
  unfold Qmax. destruct (Qltb (inject_Z a) (inject_Z b)) eqn:E.
  - apply Qltb_lt in E. rewrite <- Zlt_Qlt in E. f_equal. lia.
  - apply Qltb_ge in E. rewrite <- Zle_Qle in E. f_equal. lia.
Qed.

Lemma lot_cap_eq (c : candidate) (budget : Q) :
  ~ min_invest c == 0 -> lot_cap c budget = Ok (cap_of c budget).
Proof.
  intros Hnz. unfold lot_cap, py_floordiv, Qeqb.
  destruct (Qeq_bool (min_invest c) 0) eqn:E.
  - apply Qeq_bool_iff in E. contradiction.
  - cbn. change 1 with (inject_Z 1). rewrite Qmax_inject, py_int_inject. reflexivity.
Qed.

Lemma build_vars_lookup (budget : Q) (candidates : list candidate) :
  (forall c, In c candidates -> ~ min_invest c == 0) ->
  forall vm0 : gmap string lp_var,
  exists vm : gmap string lp_var,
    build_vars candidates budget vm0 = Ok vm /\
    (forall k : string, ~ In k (map ipo candidates) -> vm !! k = vm0 !! k) /\
    (NoDup (map ipo candidates) ->
     forall c, In c candidates -> vm !! ipo c = Some (mkVar 0 (cap_of c budget))).
Proof.
  induction candidates as [|c cs IH]; intros Hnz vm0.
  - exists vm0. split; [reflexivity|]. split; [reflexivity | intros _ c []].
  - cbn [build_vars]. rewrite lot_cap_eq by (apply Hnz; left; reflexivity). cbn [rbind].
    destruct (IH (fun x Hx => Hnz x (or_intror Hx))
                 (<[ipo c := mkVar 0 (cap_of c budget)]> vm0)) as (vm & Hvm & Hout & Hin).
    exists vm. split; [exact Hvm|]. split.
    + intros k Hk. rewrite Hout by (intros Hk'; apply Hk; right; exact Hk').
      apply lookup_insert_ne. intros Heq. apply Hk. left. exact Heq.
    + intros Hnd x [<- | Hx].
      * inversion Hnd as [|? ? Hnotin Hnd']; subst.
        rewrite Hout by (rewrite <- list_elem_of_In; exact Hnotin). apply lookup_insert_eq.
      * inversion Hnd as [|? ? Hnotin Hnd']; subst. apply Hin; assumption.
Qed.

(** C3, as the code has it: the variable of every candidate has lower
    bound 0 and upper bound [min(3, max(1, floor(budget / min_invest)))];
    for a candidate dearer than the budget the upper bound is 1. *)
Theorem C3_lot_bounds (candidates : list candidate) (budget : Q) :
  (forall c, In c candidates -> 0 < min_invest c) ->
  NoDup (map ipo candidates) ->
  exists vm : gmap string lp_var,
    build_vars candidates budget ∅ = Ok vm /\
    forall c, In c candidates ->
      vm !! ipo c
        = Some (mkVar 0 (Z.min DEFAULT_MAX_LOTS_PER_IPO
                           (Z.max 1 (Qfloor (budget / min_invest c))))) /\
      (budget < min_invest c ->
       vm !! ipo c = Some (mkVar 0 1)).
Proof.
  intros Hpos Hnd.
  destruct (build_vars_lookup budget candidates
              (fun c Hc => Qnot_eq_sym _ _ (Qlt_not_eq _ _ (Hpos c Hc))) ∅)
    as (vm & Hvm & _ & Hin).
  exists vm. split; [exact Hvm|]. intros c Hc.
  pose proof (Hin Hnd c Hc) as Hl. split; [exact Hl|].
  intros Hlt. rewrite Hl. unfold cap_of, DEFAULT_MAX_LOTS_PER_IPO.
  assert (Hfl : (Qfloor (budget / min_invest c) <= 0)%Z).
  { assert (Hq : budget / min_invest c < 1).
    { apply Qlt_shift_div_r; [apply Hpos; exact Hc | lra]. }
    assert (Hlt1 : (Qfloor (budget / min_invest c) < 1)%Z).
    { rewrite Zlt_Qlt. pose proof (Qfloor_le (budget / min_invest c)) as Hf.
      change (inject_Z 1) with 1. lra. }
    lia. }
  do 2 f_equal. lia.
Qed.

Lemma C3_lot_bounds_witness :
  exists vm : gmap string lp_var,
    build_vars [cand_A; cand_B] 25000 ∅ = Ok vm /\
    forall c, In c [cand_A; cand_B] ->
      vm !! ipo c
        = Some (mkVar 0 (Z.min DEFAULT_MAX_LOTS_PER_IPO
                           (Z.max 1 (Qfloor (25000 / min_invest c))))) /\
      (25000 < min_invest c -> vm !! ipo c = Some (mkVar 0 1)).
Proof.
  apply (C3_lot_bounds [cand_A; cand_B] 25000).
  - intros c [<- | [<- | []]]; reflexivity.
  - repeat constructor; rewrite list_elem_of_In; cbn; intuition discriminate.
Defined.

(** C3 as stated fails: with budget 10000 the variable of a candidate
    whose unit is 15000 gets the upper bound 1, while
    [min(3, floor(10000 / 15000))] is 0. *)
Lemma C3_counterexample :
  ~ (forall vm : gmap string lp_var,
       build_vars [cand_X] 10000 ∅ = Ok vm ->
       vm !! ipo cand_X
         = Some (mkVar 0 (Z.min DEFAULT_MAX_LOTS_PER_IPO
                            (Qfloor (10000 / min_invest cand_X))))).
Proof.
  intros H. specialize (H {[ "X" := mkVar 0 1 ]} eq_refl).
  vm_compute in H. discriminate H.
Qed.

(** ** No candidate at all *)

(** C1, as the code has it: on the empty candidate list the optimizer,
    when a solver is present, returns no line and the whole budget as
    leftover; the heuristic raises, since it takes the minimum of no
    unit; and [main] returns before allocating, so that neither
    strategy is run on an empty list. *)
Theorem C1_empty_candidates (solve : solver) (pulp : option solver)
    (fuel : nat) (budget : Q) :
  (exists leftover,
     allocate_balanced (Some solve) [] budget = Ok (Some ([], leftover)) /\
     leftover == budget) /\
  greedy_fill_full fuel [] budget = Raise ValueError /\
  main_allocation pulp fuel [] budget = Ok None.
Proof.
  split; [|split].
  - exists (budget - 0). split; [reflexivity | ring].
  - reflexivity.
  - reflexivity.
Qed.

(** C1 as stated fails: the heuristic does not return an empty
    allocation for the empty list. *)
Lemma C1_counterexample :
  ~ (exists leftover,
       greedy_fill_full 5 [] 10000 = Ok ([], leftover) /\ leftover == 10000).
Proof.
  intros (leftover & H & _). discriminate H.
Qed.

(** ** Sorting and the smallest unit *)

Lemma insert_desc_perm {A : Type} (x : Q * A) (l : list (Q * A)) :
  Permutation (insert_desc x l) (x :: l).
Proof.
  induction l as [|y l IH]; cbn.
  - reflexivity.
  - destruct (Qgtb (fst y) (fst x)).
    + rewrite IH. apply perm_swap.
    + reflexivity.
Qed.

Lemma sort_desc_perm {A : Type} (l : list (Q * A)) : Permutation (sort_desc l) l.
Proof.
  induction l as [|x l IH]; cbn.
  - reflexivity.
  - rewrite insert_desc_perm. constructor. exact IH.
Qed.

(** The keyed list built before sorting. *)
Lemma keyed_ok (l : list candidate) :
  (forall c, In c l -> ~ min_invest c == 0) ->
  rmap_list (fun c => k <~ density c ;; Ok (k, c)) l
    = Ok (map (fun c => (composite c / min_invest c, c)) l).
Proof.
  induction l as [|c l IH]; intros Hnz.
  - reflexivity.
  - cbn [rmap_list map].
    rewrite IH by (intros x Hx; apply Hnz; right; exact Hx).
    unfold density, Qeqb.
    destruct (Qeq_bool (min_invest c) 0) eqn:E.
    + apply Qeq_bool_iff in E. exfalso. apply (Hnz c); [left; reflexivity | exact E].
    + reflexivity.
Qed.

Lemma sorted_by_density_perm (candidates : list candidate) :
  (forall c, In c candidates -> ~ min_invest c == 0) ->
  exists sorted,
    sorted_by_density candidates = Ok sorted /\ Permutation sorted candidates.
Proof.
  intros Hnz. unfold sorted_by_density. rewrite keyed_ok by exact Hnz. cbn.
  eexists. split; [reflexivity|].
  rewrite sort_desc_perm, map_map. cbn. rewrite map_id. reflexivity.
Qed.

Lemma sorted_by_composite_perm (allocation : list alloc_line) :
  Permutation (sorted_by_composite allocation) allocation.
Proof.
  unfold sorted_by_composite.
  rewrite sort_desc_perm, map_map. cbn. rewrite map_id. reflexivity.
Qed.

Lemma fold_min_spec (l : list Q) (x : Q) :
  let m := fold_left (fun m y => if Qltb y m then y else m) l x in
  In m (x :: l) /\ forall y, In y (x :: l) -> m <= y.
Proof.
  revert x. induction l as [|z l IH]; intros x; cbn.
  - split; [left; reflexivity|]. intros y [<- | []]. lra.
  - destruct (Qltb z x) eqn:E.
    + destruct (IH z) as [Hin Hle]. split.
      * right. exact Hin.
      * apply Qltb_lt in E. intros y [<- | Hy].
        -- specialize (Hle z (or_introl eq_refl)). cbn in Hle. lra.
        -- apply Hle. exact Hy.
    + destruct (IH x) as [Hin Hle]. split.
      * destruct Hin as [Hin | Hin]; [left; exact Hin | right; right; exact Hin].
      * apply Qltb_ge in E. intros y [<- | [<- | Hy]].
        -- apply Hle. left. reflexivity.
        -- specialize (Hle x (or_introl eq_refl)). cbn in Hle. lra.
        -- apply Hle. right. exact Hy.
Qed.

Lemma min_of_spec (l : list Q) :
  l <> [] ->
  exists m, min_of l = Ok m /\ In m l /\ forall y, In y l -> m <= y.
Proof.
  destruct l as [|x l]; [congruence|]. intros _.
  eexists. split; [reflexivity|]. apply fold_min_spec.
Qed.


(** ** Invariants of the heuristic *)

Lemma ids_injective (candidates : list candidate) :
  NoDup (map ipo candidates) ->
  forall c c', In c candidates -> In c' candidates -> ipo c = ipo c' -> c = c'.
Proof.
  induction candidates as [|x l IH]; intros Hnd c c' Hc Hc' Heq.
  - destruct Hc.
  - inversion Hnd as [|? ? Hnotin Hnd']; subst.
    rewrite list_elem_of_In in Hnotin.
    destruct Hc as [<- | Hc], Hc' as [<- | Hc'].
    + reflexivity.
    + exfalso. apply Hnotin. rewrite Heq. apply in_map. exact Hc'.
    + exfalso. apply Hnotin. rewrite <- Heq. apply in_map. exact Hc.
    + apply IH; assumption.
Qed.

Lemma total_invested_app (l1 l2 : list alloc_line) :
  total_invested (l1 ++ l2) == total_invested l1 + total_invested l2.
Proof.
  unfold total_invested.
  induction l1 as [|a l1 IH]; cbn [app fold_right].
  - ring.
  - rewrite IH. ring.
Qed.

Lemma total_invested_add_lot (c : candidate) (al : list alloc_line) :
  total_invested (add_lot c al) == total_invested al + min_invest c.
Proof.
  unfold total_invested.
  induction al as [|a al IH]; cbn [add_lot fold_right new_line a_invested].
  - ring.
  - destruct (String.eqb (a_ipo a) (ipo c)); cbn [fold_right a_invested].
    + ring.
    + rewrite IH. ring.
Qed.

Lemma line_exact_new (c : candidate) : line_exact (new_line c).
Proof. unfold line_exact, new_line. cbn [a_invested a_lots a_min_invest]. ring. Qed.

Lemma line_of_new (candidates : list candidate) (c : candidate) :
  In c candidates -> line_of candidates (new_line c).
Proof. intros Hc. exists c. repeat split. exact Hc. Qed.

Lemma add_lot_exact (candidates : list candidate) (c : candidate) (al : list alloc_line) :
  NoDup (map ipo candidates) -> In c candidates ->
  Forall (line_of candidates) al -> Forall line_exact al ->
  Forall line_exact (add_lot c al).
Proof.
  intros Hnd Hc Hof Hex. induction al as [|a al IH]; cbn.
  - constructor; [apply line_exact_new | constructor].
  - inversion Hof as [|? ? Ha Hof']; subst. inversion Hex as [|? ? Hea Hex']; subst.
    destruct (String.eqb (a_ipo a) (ipo c)) eqn:E.
    + constructor; [|exact Hex'].
      apply String.eqb_eq in E. destruct Ha as (c' & Hc' & Hid & Hmin).
      assert (c' = c) by (apply (ids_injective candidates Hnd); congruence).
      subst c'. unfold line_exact in *. cbn [a_invested a_lots a_min_invest].
      rewrite Hea, Hmin.
      rewrite inject_Z_plus. change (inject_Z 1) with 1. ring.
    + constructor; [exact Hea | apply IH; assumption].
Qed.

Lemma add_lot_of (candidates : list candidate) (c : candidate) (al : list alloc_line) :
  In c candidates -> Forall (line_of candidates) al ->
  Forall (line_of candidates) (add_lot c al).
Proof.
  intros Hc Hof. induction al as [|a al IH]; cbn.
  - constructor; [apply line_of_new; exact Hc | constructor].
  - inversion Hof as [|? ? Ha Hof']; subst.
    destruct (String.eqb (a_ipo a) (ipo c)).
    + constructor; [|exact Hof']. destruct Ha as (c' & H1 & H2 & H3).
      exists c'. repeat split; assumption.
    + constructor; [exact Ha | apply IH; exact Hof'].
Qed.

Lemma ginv_buys (candidates : list candidate) (budget : Q) :
  NoDup (map ipo candidates) ->
  (forall c, In c candidates -> 0 < min_invest c) ->
  forall st st', buys candidates st st' ->
  ginv candidates budget st -> ginv candidates budget st'.
Proof.
  intros Hnd Hpos st st' Hb. induction Hb as [st | c al r st' Hc Hle Hb IH | c al r st' Hc Hle Hb IH];
    intros Hinv.
  - exact Hinv.
  - apply IH. destruct Hinv as (Hex & Hof & Htot & Hnn). cbn [fst snd] in *.
    repeat split; cbn [fst snd].
    + eapply add_lot_exact; eassumption.
    + apply add_lot_of; assumption.
    + rewrite total_invested_add_lot. lra.
    + left. lra.
  - apply IH. destruct Hinv as (Hex & Hof & Htot & Hnn). cbn [fst snd] in *.
    repeat split; cbn [fst snd].
    + apply Forall_app. split; [exact Hex|]. constructor; [apply line_exact_new | constructor].
    + apply Forall_app. split; [exact Hof|]. constructor; [apply line_of_new; exact Hc | constructor].
    + rewrite total_invested_app. unfold total_invested at 2.
      cbn [fold_right new_line a_invested]. lra.
    + left. lra.
Qed.

Lemma buys_trans (candidates : list candidate) (s1 s2 s3 : gstate) :
  buys candidates s1 s2 -> buys candidates s2 s3 -> buys candidates s1 s3.
Proof.
  intros H12 H23. induction H12.
  - exact H23.
  - eapply buys_add; eauto.
  - eapply buys_app; eauto.
Qed.

(** Buying only lowers the money left, and by a whole unit or more
    whenever anything was bought. *)
Lemma buys_remaining (candidates : list candidate) (mu : Q) :
  0 < mu -> (forall c, In c candidates -> mu <= min_invest c) ->
  forall st st', buys candidates st st' ->
  st' = st \/ snd st' <= snd st - mu.
Proof.
  intros Hmu Hge st st' Hb.
  induction Hb as [st | c al r st' Hc Hle Hb IH | c al r st' Hc Hle Hb IH].
  - left. reflexivity.
  - right. specialize (Hge c Hc). destruct IH as [-> | IH]; cbn [snd] in *; lra.
  - right. specialize (Hge c Hc). destruct IH as [-> | IH]; cbn [snd] in *; lra.
Qed.

Lemma buys_mono (candidates : list candidate) (mu : Q) :
  0 < mu -> (forall c, In c candidates -> mu <= min_invest c) ->
  forall st st', buys candidates st st' -> snd st' <= snd st.
Proof.
  intros Hmu Hge st st' Hb.
  destruct (buys_remaining candidates mu Hmu Hge st st' Hb) as [-> | H]; lra.
Qed.

Lemma buys_nonneg (candidates : list candidate) (st st' : gstate) :
  buys candidates st st' -> st' = st \/ 0 <= snd st'.
Proof.
  induction 1 as [st | c al r st' Hc Hle Hbuys IH | c al r st' Hc Hle Hbuys IH].
  - left. reflexivity.
  - right. destruct IH as [-> | IH]; [cbn [snd]; lra | exact IH].
  - right. destruct IH as [-> | IH]; [cbn [snd]; lra | exact IH].
Qed.

Lemma buys_total (candidates : list candidate) (st st' : gstate) :
  buys candidates st st' ->
  total_invested (fst st') + snd st' == total_invested (fst st) + snd st.
Proof.
  induction 1 as [st | c al r st' Hc Hle Hb IH | c al r st' Hc Hle Hb IH].
  - reflexivity.
  - rewrite IH. cbn [fst snd]. rewrite total_invested_add_lot. ring.
  - rewrite IH. cbn [fst snd]. rewrite total_invested_app.
    unfold total_invested at 2. cbn [fold_right new_line a_invested]. ring.
Qed.

Lemma buys_le (candidates : list candidate) (st st' : gstate) :
  (forall c, In c candidates -> 0 < min_invest c) ->
  buys candidates st st' -> snd st' <= snd st.
Proof.
  intros Hpos. induction 1 as [st | c al r st' Hc Hle Hb IH | c al r st' Hc Hle Hb IH].
  - lra.
  - specialize (Hpos c Hc). cbn [snd] in *. lra.
  - specialize (Hpos c Hc). cbn [snd] in *. lra.
Qed.

(** ** Each pass only buys affordable lots *)

Lemma seed_pass_buys (candidates cs : list candidate) (st : gstate) :
  incl cs candidates -> buys candidates st (seed_pass cs st).
Proof.
  revert st. induction cs as [|c cs IH]; intros [al r] Hincl; cbn [seed_pass].
  - apply buys_refl.
  - assert (Hcs : incl cs candidates) by (intros x Hx; apply Hincl; right; exact Hx).
    destruct (Qgeb r (min_invest c)) eqn:E.
    + apply Qgeb_ge in E. eapply buys_app; [apply Hincl; left; reflexivity | exact E |].
      apply IH. exact Hcs.
    + apply IH. exact Hcs.
Qed.

Lemma topk_sweep_buys (candidates : list candidate) (mu : Q) (cs : list candidate) :
  incl cs candidates ->
  forall st added,
    buys candidates st (fst (topk_sweep mu cs st added)) /\
    (snd (topk_sweep mu cs st added) = true \/
     topk_sweep mu cs st added = (st, added)).
Proof.
  induction cs as [|c cs IH]; intros Hincl [al r] added; cbn [topk_sweep].
  - split; [apply buys_refl | right; reflexivity].
  - assert (Hcs : incl cs candidates) by (intros x Hx; apply Hincl; right; exact Hx).
    destruct (Qgeb r (min_invest c)) eqn:E; cbn [snd].
    + apply Qgeb_ge in E.
      destruct (Qltb (r - min_invest c) mu).
      * split; [|left; reflexivity]. cbn [fst].
        eapply buys_add; [apply Hincl; left; reflexivity | exact E | apply buys_refl].
      * destruct (IH Hcs (add_lot c al, r - min_invest c) true) as [Hb Hf]. split.
        -- eapply buys_add; [apply Hincl; left; reflexivity | exact E | exact Hb].
        -- left. destruct Hf as [Hf | Hf]; [exact Hf | rewrite Hf; reflexivity].
    + destruct (Qltb r mu).
      * split; [apply buys_refl | right; reflexivity].
      * apply IH. exact Hcs.
Qed.

Lemma topk_loop_buys (candidates : list candidate) (mu : Q) (cs : list candidate) :
  incl cs candidates ->
  forall fuel st added st',
    topk_loop fuel mu cs st added = Ok st' -> buys candidates st st'.
Proof.
  intros Hincl. induction fuel as [|fuel IH]; intros st added st' H; cbn [topk_loop] in H.
  - destruct (added && Qgeb (snd st) mu); [discriminate|].
    injection H as <-. apply buys_refl.
  - destruct (added && Qgeb (snd st) mu).
    + destruct (topk_sweep mu cs st false) as [st1 added1] eqn:Es.
      pose proof (proj1 (topk_sweep_buys candidates mu cs Hincl st false)) as Hb.
      rewrite Es in Hb. cbn [fst] in Hb.
      eapply buys_trans; [exact Hb | eapply IH; exact H].
    + injection H as <-. apply buys_refl.
Qed.

Lemma rmap_keyed_snd (l : list candidate) (keyed : list (Q * candidate)) :
  rmap_list (fun c => k <~ density c ;; Ok (k, c)) l = Ok keyed ->
  map snd keyed = l.
Proof.
  revert keyed. induction l as [|c l IH]; intros keyed H; cbn [rmap_list] in H.
  - injection H as <-. reflexivity.
  - destruct (density c) as [k| |]; cbn [rbind] in H; try discriminate.
    destruct (rmap_list _ l) as [ks| |]; cbn [rbind] in H; try discriminate.
    injection H as <-. cbn. f_equal. apply IH. reflexivity.
Qed.

Lemma max_by_density_in (l : list (Q * candidate)) (best : Q * candidate) :
  In (max_by_density best l) (map snd (best :: l)).
Proof.
  revert best. induction l as [|x l IH]; intros best; cbn [max_by_density].
  - left. reflexivity.
  - specialize (IH (if Qgtb (fst x) (fst best) then x else best)).
    destruct (Qgtb (fst x) (fst best)); cbn [map In] in *; tauto.
Qed.

Lemma pick_affordable_some (cs : list candidate) (r : Q) (p : candidate) :
  pick_affordable cs r = Ok (Some p) -> In p cs /\ min_invest p <= r.
Proof.
  unfold pick_affordable. intros H.
  destruct (rmap_list _ _) as [keyed| |] eqn:Ek; cbn [rbind] in H; try discriminate.
  apply rmap_keyed_snd in Ek.
  destruct keyed as [|x l]; [discriminate|]. injection H as <-.
  pose proof (max_by_density_in l x) as Hin. rewrite Ek in Hin.
  apply filter_In in Hin. destruct Hin as [Hin Hle].
  split; [exact Hin | apply Qle_bool_iff; exact Hle].
Qed.

Lemma pick_affordable_none (cs : list candidate) (r : Q) :
  pick_affordable cs r = Ok None -> forall c, In c cs -> r < min_invest c.
Proof.
  unfold pick_affordable. intros H c Hc.
  destruct (rmap_list _ _) as [keyed| |] eqn:Ek; cbn [rbind] in H; try discriminate.
  apply rmap_keyed_snd in Ek.
  destruct keyed as [|x l]; [|discriminate]. cbn in Ek.
  destruct (Qle_bool (min_invest c) r) eqn:E.
  - assert (Hin : In c (List.filter (fun c => Qle_bool (min_invest c) r) cs))
      by (apply filter_In; split; assumption).
    rewrite <- Ek in Hin. destruct Hin.
  - apply Qnot_le_lt. intros Hle. apply Qle_bool_iff in Hle. congruence.
Qed.

Lemma drain_loop_buys (candidates : list candidate) (mu : Q) (cs : list candidate) :
  incl cs candidates ->
  forall fuel st st',
    drain_loop fuel mu cs st = Ok st' ->
    buys candidates st st' /\
    (snd st' < mu \/ forall c, In c cs -> snd st' < min_invest c).
Proof.
  intros Hincl. induction fuel as [|fuel IH]; intros [al r] st' H;
    cbn [drain_loop fst snd] in H.
  - destruct (Qgeb r mu) eqn:E; [discriminate|].
    injection H as <-. split; [apply buys_refl|]. left. apply Qgeb_lt. exact E.
  - destruct (Qgeb r mu) eqn:E.
    + destruct (pick_affordable cs r) as [[p|]| |] eqn:Ep; cbn [rbind] in H; try discriminate.
      * apply pick_affordable_some in Ep. destruct Ep as [Hp Hle].
        destruct (IH _ _ H) as [Hb Hex]. split; [|exact Hex].
        eapply buys_add; [apply Hincl; exact Hp | exact Hle | exact Hb].
      * injection H as <-. split; [apply buys_refl|]. right.
        apply pick_affordable_none. exact Ep.
    + injection H as <-. split; [apply buys_refl|]. left. apply Qgeb_lt. exact E.
Qed.

(** ** Both loops stop *)

Lemma topk_sweep_progress (mu : Q) (cs : list candidate) :
  0 < mu -> (forall c, In c cs -> mu <= min_invest c) ->
  forall st added,
    topk_sweep mu cs st added = (st, added) \/
    (snd (topk_sweep mu cs st added) = true /\
     snd (fst (topk_sweep mu cs st added)) <= snd st - mu).
Proof.
  intros Hmu. induction cs as [|c cs IH]; intros Hge [al r] added; cbn [topk_sweep].
  - left. reflexivity.
  - assert (Hcs : forall x, In x cs -> mu <= min_invest x)
      by (intros x Hx; apply Hge; right; exact Hx).
    pose proof (Hge c (or_introl eq_refl)) as Hc.
    destruct (Qgeb r (min_invest c)) eqn:E; cbn [snd].
    + right. destruct (Qltb (r - min_invest c) mu).
      * cbn [fst snd]. split; [reflexivity | lra].
      * destruct (IH Hcs (add_lot c al, r - min_invest c) true) as [-> | [Hf Hr]].
        -- cbn [fst snd]. split; [reflexivity | lra].
        -- split; [exact Hf | cbn [snd] in Hr; lra].
    + destruct (Qltb r mu).
      * left. reflexivity.
      * apply IH. exact Hcs.
Qed.

Lemma topk_loop_not_added (fuel : nat) (mu : Q) (cs : list candidate) (st : gstate) :
  topk_loop fuel mu cs st false = Ok st.
Proof. destruct fuel; reflexivity. Qed.

Lemma topk_loop_terminates (mu : Q) (cs : list candidate) :
  0 < mu -> (forall c, In c cs -> mu <= min_invest c) ->
  forall fuel st added,
    snd st < inject_Z (Z.of_nat fuel) * mu ->
    exists st', topk_loop fuel mu cs st added = Ok st'.
Proof.
  intros Hmu Hge. induction fuel as [|fuel IH]; intros st added Hlt; cbn [topk_loop].
  - destruct added; cbn [andb]; [|eexists; reflexivity].
    destruct (Qgeb (snd st) mu) eqn:E; [|eexists; reflexivity].
    apply Qgeb_ge in E. change (inject_Z (Z.of_nat 0)) with 0 in Hlt. lra.
  - destruct (added && Qgeb (snd st) mu); [|eexists; reflexivity].
    destruct (topk_sweep_progress mu cs Hmu Hge st false) as [-> | [Hf Hr]].
    + rewrite topk_loop_not_added. eexists; reflexivity.
    + destruct (topk_sweep mu cs st false) as [st1 added1]. cbn [fst snd] in *.
      apply IH. rewrite Nat2Z.inj_succ in Hlt. unfold Z.succ in Hlt.
      rewrite inject_Z_plus in Hlt. change (inject_Z 1) with 1 in Hlt. lra.
Qed.

Lemma pick_affordable_ok (cs : list candidate) (r : Q) :
  (forall c, In c cs -> ~ min_invest c == 0) ->
  exists o, pick_affordable cs r = Ok o.
Proof.
  intros Hnz. unfold pick_affordable. rewrite keyed_ok.
  - cbn [rbind]. destruct (map _ _); eexists; reflexivity.
  - intros c Hc. apply filter_In in Hc. apply Hnz. apply Hc.
Qed.

Lemma drain_loop_terminates (mu : Q) (cs : list candidate) :
  0 < mu -> (forall c, In c cs -> mu <= min_invest c) ->
  forall fuel st,
    snd st < inject_Z (Z.of_nat fuel) * mu ->
    exists st', drain_loop fuel mu cs st = Ok st'.
Proof.
  intros Hmu Hge.
  assert (Hnz : forall c, In c cs -> ~ min_invest c == 0).
  { intros c Hc Heq. specialize (Hge c Hc). lra. }
  induction fuel as [|fuel IH]; intros [al r] Hlt; cbn [drain_loop fst snd] in *.
  - destruct (Qgeb r mu) eqn:E; [|eexists; reflexivity].
    apply Qgeb_ge in E. change (inject_Z (Z.of_nat 0)) with 0 in Hlt. lra.
  - destruct (Qgeb r mu) eqn:E; [|eexists; reflexivity].
    destruct (pick_affordable_ok cs r Hnz) as [[p|] Hp]; rewrite Hp; cbn [rbind].
    + apply pick_affordable_some in Hp. destruct Hp as [Hin Hle].
      apply IH. cbn [snd]. specialize (Hge p Hin).
      rewrite Nat2Z.inj_succ in Hlt. unfold Z.succ in Hlt.
      rewrite inject_Z_plus in Hlt. change (inject_Z 1) with 1 in Hlt. lra.
    + eexists; reflexivity.
Qed.

(** The sorted list and the smallest unit of a non-empty list of
    candidates with positive units. *)
Lemma greedy_setup (candidates : list candidate) :
  candidates <> [] ->
  (forall c, In c candidates -> 0 < min_invest c) ->
  exists sorted mu,
    sorted_by_density candidates = Ok sorted /\
    Permutation sorted candidates /\
    min_of (map min_invest sorted) = Ok mu /\
    0 < mu /\
    (exists c, In c candidates /\ min_invest c = mu) /\
    (forall c, In c candidates -> mu <= min_invest c).
Proof.
  intros Hne Hpos.
  destruct (sorted_by_density_perm candidates) as (sorted & Hs & Hperm).
  { intros c Hc Heq. specialize (Hpos c Hc). lra. }
  assert (Hne' : map min_invest sorted <> []).
  { destruct sorted; [|discriminate]. apply Permutation_nil in Hperm. congruence. }
  destruct (min_of_spec _ Hne') as (mu & Hmu & Hin & Hle).
  apply in_map_iff in Hin. destruct Hin as (c0 & Hc0 & Hin0).
  assert (Hc0' : In c0 candidates) by (eapply Permutation_in; eassumption).
  exists sorted, mu. repeat split; try assumption.
  - rewrite <- Hc0. apply Hpos. exact Hc0'.
  - exists c0. split; assumption.
  - intros c Hc. apply Hle. apply in_map.
    eapply Permutation_in; [symmetry; exact Hperm | exact Hc].
Qed.

(** ** The heuristic as a whole *)

Lemma firstn_incl {A : Type} (n : nat) (l : list A) : incl (firstn n l) l.
Proof.
  revert l. induction n as [|n IH]; intros l x Hx; cbn in Hx.
  - destruct Hx.
  - destruct l as [|y l]; [destruct Hx|]. destruct Hx as [<- | Hx].
    + left. reflexivity.
    + right. apply IH. exact Hx.
Qed.

(** Whatever the heuristic returns was reached by buying affordable
    lots from the empty allocation, and leaves less than any unit. *)
Lemma greedy_inversion (candidates : list candidate) (budget : Q) :
  (forall c, In c candidates -> 0 < min_invest c) ->
  forall fuel al rem,
    greedy_fill_full fuel candidates budget = Ok (al, rem) ->
    exists st,
      al = sorted_by_composite (fst st) /\ rem = snd st /\
      buys candidates ([], budget) st /\
      forall c, In c candidates -> snd st < min_invest c.
Proof.
  intros Hpos fuel al rem H.
  destruct candidates as [|c0 cs0] eqn:Ecands; [discriminate|]. rewrite <- Ecands in *.
  destruct (greedy_setup candidates) as (sorted & mu & Hs & Hperm & Hmu & Hmupos & Hmuin & Hmule).
  { rewrite Ecands. discriminate. }
  { exact Hpos. }
  assert (Hincl : incl sorted candidates).
  { intros x Hx. eapply Permutation_in; eassumption. }
  unfold greedy_fill_full in H. rewrite Hs in H. cbn [rbind] in H.
  rewrite Hmu in H. cbn [rbind] in H.
  destruct (topk_loop _ _ _ _ _) as [st1| |] eqn:E1; cbn [rbind] in H; try discriminate.
  destruct (drain_loop _ _ _ _) as [st2| |] eqn:E2; cbn [rbind] in H; try discriminate.
  injection H as <- <-.
  apply (topk_loop_buys candidates) in E1;
    [|intros x Hx; apply Hincl; eapply firstn_incl; exact Hx].
  apply (drain_loop_buys candidates) in E2; [|exact Hincl].
  destruct E2 as [Hb2 Hexit].
  exists st2. split; [reflexivity|]. split; [reflexivity|]. split.
  - eapply buys_trans; [apply seed_pass_buys; exact Hincl|].
    eapply buys_trans; eassumption.
  - intros c Hc. destruct Hexit as [Hlt | Hall].
    + specialize (Hmule c Hc). lra.
    + apply Hall. eapply Permutation_in; [symmetry; exact Hperm | exact Hc].
Qed.

Lemma enough_fuel_bound (candidates : list candidate) (budget mu : Q) (fuel : nat) :
  0 < mu ->
  (exists c, In c candidates /\ min_invest c = mu) ->
  (forall c, In c candidates -> mu <= min_invest c) ->
  (enough_fuel candidates budget <= fuel)%nat ->
  budget < inject_Z (Z.of_nat fuel) * mu.
Proof.
  intros Hmupos (c0 & Hc0 & Hc0mu) Hmule Hfuel. unfold enough_fuel in Hfuel.
  assert (Hne : map min_invest candidates <> []).
  { destruct candidates; [destruct Hc0 | discriminate]. }
  destruct (min_of_spec _ Hne) as (m0 & Hm0 & Hin & Hle).
  rewrite Hm0 in Hfuel.
  apply in_map_iff in Hin. destruct Hin as (c1 & Hc1 & Hin1).
  assert (Heq : m0 == mu).
  { apply Qle_antisym.
    - rewrite <- Hc0mu. apply Hle. apply in_map. exact Hc0.
    - rewrite <- Hc1. apply Hmule. exact Hin1. }
  pose proof (Qlt_floor (budget / m0)) as Hfl.
  set (F := Qfloor (budget / m0)) in *.
  assert (Hb : budget < inject_Z (F + 1) * mu).
  { assert (Hm0pos : 0 < m0) by lra.
    assert (Hd : budget / m0 * m0 == budget) by (field; lra).
    set (q := budget / m0) in *. nra. }
  assert (HF : (F + 1 <= Z.of_nat fuel)%Z) by lia.
  rewrite Zle_Qle in HF. nra.
Qed.

(** With enough fuel the heuristic returns. *)
Lemma greedy_returns (candidates : list candidate) (budget : Q) (fuel : nat) :
  candidates <> [] ->
  (forall c, In c candidates -> 0 < min_invest c) ->
  (enough_fuel candidates budget <= fuel)%nat ->
  exists al rem, greedy_fill_full fuel candidates budget = Ok (al, rem).
Proof.
  intros Hne Hpos Hfuel.
  destruct (greedy_setup candidates Hne Hpos)
    as (sorted & mu & Hs & Hperm & Hmu & Hmupos & Hmuin & Hmule).
  assert (Hincl : incl sorted candidates).
  { intros x Hx. eapply Permutation_in; eassumption. }
  assert (Hge : forall c, In c sorted -> mu <= min_invest c).
  { intros c Hc. apply Hmule. apply Hincl. exact Hc. }
  pose proof (enough_fuel_bound candidates budget mu fuel Hmupos Hmuin Hmule Hfuel) as Hb.
  unfold greedy_fill_full. rewrite Hs. cbn [rbind]. rewrite Hmu. cbn [rbind].
  set (top_k := firstn _ sorted).
  assert (Htop : incl top_k sorted) by apply firstn_incl.
  pose proof (buys_mono sorted mu Hmupos Hge _ _
                (seed_pass_buys sorted sorted ([], budget) (incl_refl _))) as Hseed.
  cbn [snd] in Hseed.
  destruct (topk_loop_terminates mu top_k Hmupos (fun c Hc => Hge c (Htop c Hc))
              fuel (seed_pass sorted ([], budget)) true) as [st1 E1]; [lra|].
  rewrite E1. cbn [rbind].
  pose proof (buys_mono sorted mu Hmupos Hge _ _
                (topk_loop_buys sorted mu top_k Htop _ _ _ _ E1)) as Htopk.
  destruct (drain_loop_terminates mu sorted Hmupos Hge fuel st1) as [st2 E2]; [lra|].
  rewrite E2. cbn [rbind]. eexists _, _. reflexivity.
Qed.

(** ** Lines are exact and the budget is respected *)

Lemma total_invested_perm (l l' : list alloc_line) :
  Permutation l l' -> total_invested l == total_invested l'.
Proof.
  unfold total_invested. induction 1; cbn [fold_right].
  - reflexivity.
  - rewrite IHPermutation. reflexivity.
  - ring.
  - etransitivity; eassumption.
Qed.

Lemma Forall_perm_lines (P : alloc_line -> Prop) (l l' : list alloc_line) :
  Permutation l l' -> Forall P l -> Forall P l'.
Proof.
  intros Hp Hl. apply List.Forall_forall. intros x Hx.
  rewrite List.Forall_forall in Hl. apply Hl.
  eapply Permutation_in; [symmetry; exact Hp | exact Hx].
Qed.

Lemma ginv_init (candidates : list candidate) (budget : Q) :
  ginv candidates budget ([], budget).
Proof.
  unfold ginv. cbn [fst snd].
  split; [constructor|]. split; [constructor|]. split.
  - unfold total_invested. cbn [fold_right]. ring.
  - right. reflexivity.
Qed.

Lemma greedy_lines (candidates : list candidate) (budget : Q) :
  (forall c, In c candidates -> 0 < min_invest c) ->
  NoDup (map ipo candidates) ->
  forall fuel al rem,
    greedy_fill_full fuel candidates budget = Ok (al, rem) ->
    Forall line_exact al /\
    total_invested al + rem == budget /\
    (0 <= budget -> total_invested al <= budget).
Proof.
  intros Hpos Hnd fuel al rem H.
  destruct (greedy_inversion candidates budget Hpos fuel al rem H)
    as (st & -> & -> & Hb & _).
  pose proof (ginv_buys candidates budget Hnd Hpos _ _ Hb (ginv_init candidates budget))
    as (Hex & _ & Htot & Hnn).
  pose proof (sorted_by_composite_perm (fst st)) as Hperm.
  split; [|split].
  - eapply Forall_perm_lines; [symmetry; exact Hperm | exact Hex].
  - rewrite (total_invested_perm _ _ Hperm). exact Htot.
  - intros Hbudget. rewrite (total_invested_perm _ _ Hperm).
    destruct Hnn as [Hnn | Hnil].
    + lra.
    + rewrite Hnil. unfold total_invested. cbn [fold_right]. exact Hbudget.
Qed.

Lemma py_int_le (x : Q) : 0 <= x -> inject_Z (py_int x) <= x.
Proof.
  intros Hx. unfold py_int. destruct (Qltb x 0) eqn:E.
  - apply Qltb_lt in E. lra.
  - apply Qfloor_le.
Qed.

Lemma read_solution_spec (value : string -> option Q) (cs : list candidate) :
  (forall c, In c cs -> 0 <= min_invest c /\ 0 <= value_or_0 value (ipo c)) ->
  forall al tot,
    Forall line_exact al -> tot == total_invested al ->
    Forall line_exact (fst (read_solution value cs al tot)) /\
    snd (read_solution value cs al tot)
      == total_invested (fst (read_solution value cs al tot)) /\
    snd (read_solution value cs al tot)
      <= tot + row_value value (map (fun c => (min_invest c, ipo c)) cs).
Proof.
  induction cs as [|c cs IH]; intros Hnn al tot Hex Htot; cbn [read_solution].
  - cbn [fst snd map]. unfold row_value. cbn [fold_right].
    split; [exact Hex|]. split; [exact Htot | lra].
  - destruct (Hnn c (or_introl eq_refl)) as [Hm Hv].
    assert (Hcs : forall x, In x cs -> 0 <= min_invest x /\ 0 <= value_or_0 value (ipo x))
      by (intros x Hx; apply Hnn; right; exact Hx).
    set (w := match value (ipo c) with
              | Some x => if Qeqb x 0 then 0 else x
              | None => 0
              end).
    assert (Hw : w == value_or_0 value (ipo c)).
    { unfold w, value_or_0, Qeqb. destruct (value (ipo c)) as [x|]; [|reflexivity].
      destruct (Qeq_bool x 0) eqn:E; [|reflexivity].
      apply Qeq_bool_iff in E. symmetry. exact E. }
    assert (Hint : inject_Z (py_int w) <= value_or_0 value (ipo c)).
    { rewrite <- Hw. apply py_int_le. rewrite Hw. exact Hv. }
    unfold row_value. cbn [map fold_right fst snd]. fold (row_value value).
    fold (row_value value (map (fun c => (min_invest c, ipo c)) cs)).
    destruct (0 <? py_int w)%Z eqn:E.
    + destruct (IH Hcs (al ++ [mkLine (ipo c) (py_int w) (min_invest c)
                                 (inject_Z (py_int w) * min_invest c) (composite c)])
                  (tot + inject_Z (py_int w) * min_invest c)) as (H1 & H2 & H3).
      * apply Forall_app. split; [exact Hex|]. constructor; [|constructor].
        unfold line_exact. cbn [a_invested a_lots a_min_invest]. reflexivity.
      * rewrite total_invested_app. unfold total_invested at 2.
        cbn [fold_right a_invested]. rewrite Htot. ring.
      * split; [exact H1|]. split; [exact H2|]. nra.
    + destruct (IH Hcs al tot Hex Htot) as (H1 & H2 & H3).
      split; [exact H1|]. split; [exact H2|]. nra.
Qed.

(** ** Whole amounts, lot counts and the purchases of a run *)

Lemma whole_iff (q : Q) : whole q <-> exists n, q == inject_Z n.
Proof.
  split.
  - intros H. exists (Qfloor q). exact H.
  - intros [n Hn]. unfold whole. rewrite Hn, Qfloor_Z. reflexivity.
Qed.

Lemma whole_Z (n : Z) : whole (inject_Z n).
Proof. apply whole_iff. exists n. reflexivity. Qed.

Lemma whole_plus (a b : Q) : whole a -> whole b -> whole (a + b).
Proof.
  rewrite !whole_iff. intros [n Hn] [m Hm]. exists (n + m)%Z.
  rewrite inject_Z_plus, Hn, Hm. reflexivity.
Qed.

Lemma whole_minus (a b : Q) : whole a -> whole b -> whole (a - b).
Proof.
  rewrite !whole_iff. intros [n Hn] [m Hm]. exists (n - m)%Z.
  unfold Z.sub. rewrite inject_Z_plus, inject_Z_opp, Hn, Hm. reflexivity.
Qed.

Lemma whole_mult (a b : Q) : whole a -> whole b -> whole (a * b).
Proof.
  rewrite !whole_iff. intros [n Hn] [m Hm]. exists (n * m)%Z.
  rewrite inject_Z_mult, Hn, Hm. reflexivity.
Qed.

(** A line whose invested amount is a whole number. *)
Lemma add_lot_whole (c : candidate) (al : list alloc_line) :
  whole (min_invest c) ->
  Forall (fun a => whole (a_invested a)) al ->
  Forall (fun a => whole (a_invested a)) (add_lot c al).
Proof.
  intros Hc Hal. induction al as [|a al IH]; cbn [add_lot].
  - constructor; [exact Hc | constructor].
  - inversion Hal as [|? ? Ha Hal']; subst.
    destruct (String.eqb (a_ipo a) (ipo c)).
    + constructor; [|exact Hal']. cbn [a_invested]. apply whole_plus; assumption.
    + constructor; [exact Ha | apply IH; exact Hal'].
Qed.

(** With whole units, every amount a run computes is a whole number. *)
Lemma buys_whole (candidates : list candidate) (st st' : gstate) :
  (forall c, In c candidates -> whole (min_invest c)) ->
  buys candidates st st' ->
  Forall (fun a => whole (a_invested a)) (fst st) -> whole (snd st) ->
  Forall (fun a => whole (a_invested a)) (fst st') /\ whole (snd st').
Proof.
  intros Hw Hb.
  induction Hb as [st | c al r st' Hc Hle Hb IH | c al r st' Hc Hle Hb IH];
    intros Hal Hr; cbn [fst snd] in *.
  - split; assumption.
  - apply IH.
    + apply add_lot_whole; [apply Hw; exact Hc | exact Hal].
    + apply whole_minus; [exact Hr | apply Hw; exact Hc].
  - apply IH.
    + apply Forall_app. split; [exact Hal|].
      constructor; [apply Hw; exact Hc | constructor].
    + apply whole_minus; [exact Hr | apply Hw; exact Hc].
Qed.





(** What the heuristic returns, with whole amounts: the lines and the
    leftover are whole numbers, and they add up to the budget. *)
Lemma greedy_whole (candidates : list candidate) (budget : Q) :
  (forall c, In c candidates -> 0 < min_invest c) ->
  whole_amounts candidates budget ->
  forall fuel al rem,
    greedy_fill_full fuel candidates budget = Ok (al, rem) ->
    Forall (fun a => whole (a_invested a)) al /\ whole rem /\
    0 <= rem /\ rem <= budget /\
    total_invested al + rem == budget.
Proof.
  intros Hpos (Hwb & Hb0 & _ & Hwu) fuel al rem H.
  destruct (greedy_inversion candidates budget Hpos fuel al rem H)
    as (st & -> & -> & Hb & _).
  destruct (buys_whole candidates _ _ Hwu Hb (List.Forall_nil _) Hwb) as [Hal Hr].
  pose proof (buys_total _ _ _ Hb) as Htot. cbn [fst snd] in Htot.
  pose proof (buys_le _ _ _ Hpos Hb) as Hle. cbn [snd] in Hle.
  pose proof (sorted_by_composite_perm (fst st)) as Hperm.
  split; [|split; [|split; [|split]]].
  - eapply Forall_perm_lines; [symmetry; exact Hperm | exact Hal].
  - exact Hr.
  - destruct (buys_nonneg _ _ _ Hb) as [-> | Hnn]; [exact Hb0 | exact Hnn].
  - exact Hle.
  - rewrite (total_invested_perm _ _ Hperm), Htot.
    unfold total_invested. cbn [fold_right]. ring.
Qed.








Lemma read_solution_lines (value : string -> option Q) (cs : list candidate) :
  forall (al : list alloc_line) (tot : Q),
    Forall line_exact al -> tot == total_invested al ->
    Forall line_exact (fst (read_solution value cs al tot)) /\
    snd (read_solution value cs al tot)
      == total_invested (fst (read_solution value cs al tot)).
Proof.
  induction cs as [|c cs IH]; intros al tot Hex Htot; cbn [read_solution].
  - split; assumption.
  - destruct (0 <? _)%Z; [|apply IH; assumption].
    apply IH.
    + apply Forall_app. split; [exact Hex|]. constructor; [|constructor].
      unfold line_exact. cbn [a_invested a_lots a_min_invest]. reflexivity.
    + rewrite total_invested_app. unfold total_invested at 2.
      cbn [fold_right a_invested]. rewrite Htot. ring.
Qed.

Lemma allocate_balanced_spec (solve : solver) (candidates : list candidate) (budget : Q) :
  (forall c, In c candidates -> 0 < min_invest c) ->
  NoDup (map ipo candidates) ->
  exists prob al rem,
    build_problem candidates budget = Ok prob /\
    allocate_balanced (Some solve) candidates budget = Ok (Some (al, rem)) /\
    Forall line_exact al /\
    rem == budget - total_invested al /\
    (feasible prob (solve prob) -> total_invested al <= budget).
Proof.
  intros Hpos Hnd.
  destruct (build_vars_lookup budget candidates
              (fun c Hc => Qnot_eq_sym _ _ (Qlt_not_eq _ _ (Hpos c Hc))) ∅)
    as (vm & Hvm & _ & Hin).
  specialize (Hin Hnd).
  unfold allocate_balanced, build_problem. rewrite Hvm. cbn [rbind].
  set (prob := mkProblem vm _ _ budget).
  destruct (read_solution (solve prob) candidates [] 0) as [al tot] eqn:Er.
  exists prob, al, (budget - tot).
  split; [reflexivity|]. split; [reflexivity|].
  assert (Hlines : Forall line_exact al /\ tot == total_invested al).
  { pose proof (read_solution_lines (solve prob) candidates [] 0
                  (List.Forall_nil _)) as Hgen.
    rewrite Er in Hgen. cbn [fst snd] in Hgen. apply Hgen.
    unfold total_invested. cbn [fold_right]. reflexivity. }
  destruct Hlines as [Hex Htot].
  split; [exact Hex|]. split; [rewrite Htot; reflexivity|].
  intros [Hbounds Hrow].
  assert (Hnn : forall c, In c candidates ->
                  0 <= min_invest c /\ 0 <= value_or_0 (solve prob) (ipo c)).
  { intros c Hc. split; [apply Qlt_le_weak, Hpos, Hc|].
    specialize (Hbounds (ipo c) _ (Hin c Hc)). cbn [lowBound] in Hbounds.
    change (inject_Z 0) with 0 in Hbounds. apply Hbounds. }
  destruct (read_solution_spec (solve prob) candidates Hnn [] 0 (List.Forall_nil _))
    as (_ & _ & H3).
  { unfold total_invested. cbn [fold_right]. reflexivity. }
  rewrite Er in H3. cbn [fst snd] in H3.
  cbn [budget_row budget_rhs prob] in Hrow. lra.
Qed.

(** C4, for amounts that binary64 keeps exact: when the candidates
    have distinct ids and positive whole-number units and the budget
    is a whole number between 0 and 2^53, every line returned by the
    heuristic or by the optimizer has [invested == lots * min_invest],
    and the invested amounts sum to at most the budget (for the
    optimizer, provided the solver's answer respects the bounds and
    the budget row it was given).  Every amount the heuristic leaves
    is then a whole number within the budget, so no sum or difference
    it computed was rounded.  Both strategies do return.  With a
    fractional unit the program's accumulated [invested] need not be
    [lots * min_invest], as the run on binary64 numbers shows. *)
Theorem C4_lines_exact_within_budget (candidates : list candidate) (budget : Q) :
  (forall c, In c candidates -> 0 < min_invest c) ->
  NoDup (map ipo candidates) ->
  whole_amounts candidates budget ->
  (forall fuel al rem,
     greedy_fill_full fuel candidates budget = Ok (al, rem) ->
     Forall line_exact al /\ total_invested al <= budget /\
     Forall (fun a => whole (a_invested a)) al /\
     whole rem /\ 0 <= rem /\ rem <= budget) /\
  (candidates <> [] ->
   exists al rem,
     greedy_fill_full (enough_fuel candidates budget) candidates budget = Ok (al, rem)) /\
  (forall solve : solver,
     exists prob al rem,
       build_problem candidates budget = Ok prob /\
       allocate_balanced (Some solve) candidates budget = Ok (Some (al, rem)) /\
       Forall line_exact al /\
       (feasible prob (solve prob) -> total_invested al <= budget)).
Proof.
  intros Hpos Hnd Hwhole. split; [|split].
  - intros fuel al rem H.
    destruct (greedy_lines candidates budget Hpos Hnd fuel al rem H) as (Hex & _ & Hle).
    destruct (greedy_whole candidates budget Hpos Hwhole fuel al rem H)
      as (Hwal & Hwrem & Hnn & Hrb & _).
    destruct Hwhole as (_ & Hbudget & _).
    repeat split; try assumption. apply Hle. exact Hbudget.
  - intros Hne. apply greedy_returns; [exact Hne | exact Hpos | apply Nat.le_refl].
  - intros solve.
    destruct (allocate_balanced_spec solve candidates budget Hpos Hnd)
      as (prob & al & rem & H1 & H2 & H3 & _ & H5).
    exists prob, al, rem. repeat split; assumption.
Qed.


Lemma whole_amounts_A_B (budget : Z) :
  (0 <= budget <= 9007199254740992)%Z ->
  whole_amounts [cand_A; cand_B] (inject_Z budget).
Proof.
  intros [H0 H1]. split; [apply whole_Z|]. split; [|split].
  - change 0 with (inject_Z 0). rewrite <- Zle_Qle. exact H0.
  - change MAX_EXACT with (inject_Z 9007199254740992). rewrite <- Zle_Qle. exact H1.
  - intros c [<- | [<- | []]]; reflexivity.
Qed.

Lemma C4_lines_exact_within_budget_witness :
  (forall fuel al rem,
     greedy_fill_full fuel [cand_A; cand_B] 25000 = Ok (al, rem) ->
     Forall line_exact al /\ total_invested al <= 25000 /\
     Forall (fun a => whole (a_invested a)) al /\
     whole rem /\ 0 <= rem /\ rem <= 25000) /\
  ([cand_A; cand_B] <> [] ->
   exists al rem,
     greedy_fill_full (enough_fuel [cand_A; cand_B] 25000) [cand_A; cand_B] 25000
       = Ok (al, rem)) /\
  (forall solve : solver,
     exists prob al rem,
       build_problem [cand_A; cand_B] 25000 = Ok prob /\
       allocate_balanced (Some solve) [cand_A; cand_B] 25000 = Ok (Some (al, rem)) /\
       Forall line_exact al /\
       (feasible prob (solve prob) -> total_invested al <= 25000)).
Proof.
  apply (C4_lines_exact_within_budget [cand_A; cand_B] 25000).
  - intros c [<- | [<- | []]]; reflexivity.
  - repeat constructor; rewrite list_elem_of_In; cbn; intuition discriminate.
  - apply (whole_amounts_A_B 25000). lia.
Defined.


(** The solver that gives one lot to each of A and B answers the
    program of the scenario within its bounds and its budget row. *)
Lemma one_lot_solver_feasible :
  exists prob,
    build_problem [cand_A; cand_B] 25000 = Ok prob /\
    feasible prob (one_lot_solver prob).
Proof.
  eexists. split; [reflexivity|]. split.
  - intros k var Hk. cbn [vars_map] in Hk.
    apply lookup_insert_Some in Hk.
    destruct Hk as [[_ <-] | [_ Hk]]; [split; discriminate|].
    apply lookup_insert_Some in Hk.
    destruct Hk as [[_ <-] | [_ Hk]]; [split; discriminate|].
    rewrite lookup_empty in Hk. discriminate Hk.
  - discriminate.
Qed.

(** ** The densest affordable candidate *)

Lemma max_by_density_keep (x : Q * candidate) (post : list (Q * candidate)) :
  (forall y, In y post -> fst y <= fst x) -> max_by_density x post = snd x.
Proof.
  induction post as [|z post IH]; intros Hle; cbn [max_by_density].
  - reflexivity.
  - assert (E : Qgtb (fst z) (fst x) = false)
      by (apply Qgtb_le; apply Hle; left; reflexivity).
    rewrite E. apply IH. intros y Hy. apply Hle. right. exact Hy.
Qed.

(** [max] returns the first element of largest key: every element
    before it has a smaller key, no element after it has a larger one. *)
Lemma max_by_density_unique (l : list (Q * candidate)) :
  forall best pre x post,
    best :: l = pre ++ x :: post ->
    (forall y, In y pre -> fst y < fst x) ->
    (forall y, In y post -> fst y <= fst x) ->
    max_by_density best l = snd x.
Proof.
  induction l as [|z l IH]; intros best pre x post Heq Hpre Hpost.
  - destruct pre as [|b pre].
    + cbn in Heq. injection Heq as -> <-. reflexivity.
    + cbn in Heq. injection Heq as _ Heq. destruct pre; discriminate Heq.
  - destruct pre as [|b pre].
    + cbn in Heq. injection Heq as -> <-. apply max_by_density_keep. exact Hpost.
    + cbn in Heq. injection Heq as -> Heq. cbn [max_by_density].
      destruct pre as [|y pre].
      * cbn in Heq. injection Heq as -> ->.
        assert (E : Qgtb (fst x) (fst b) = true)
          by (apply Qgtb_gt; apply Hpre; left; reflexivity).
        rewrite E. apply max_by_density_keep. exact Hpost.
      * cbn in Heq. injection Heq as -> ->.
        apply (IH _ ((if Qgtb (fst y) (fst b) then y else b) :: pre) x post).
        -- reflexivity.
        -- intros w [<- | Hw].
           ++ destruct (Qgtb (fst y) (fst b)); apply Hpre; cbn; tauto.
           ++ apply Hpre. right. right. exact Hw.
        -- exact Hpost.
Qed.

Lemma max_by_density_split (l : list (Q * candidate)) :
  forall best, exists pre x post,
    best :: l = pre ++ x :: post /\
    (forall y, In y pre -> fst y < fst x) /\
    (forall y, In y post -> fst y <= fst x) /\
    max_by_density best l = snd x.
Proof.
  induction l as [|z l IH]; intros best.
  - exists [], best, []. repeat split; intros y [].
  - cbn [max_by_density].
    destruct (Qgtb (fst z) (fst best)) eqn:E.
    + apply Qgtb_gt in E.
      destruct (IH z) as (pre & x & post & Heq & Hpre & Hpost & Hmax).
      exists (best :: pre), x, post. split; [cbn; rewrite Heq; reflexivity|].
      split; [|split; assumption].
      intros y [<- | Hy]; [|apply Hpre; exact Hy].
      destruct pre as [|p pre].
      * cbn in Heq. injection Heq as Hz _. subst x. exact E.
      * cbn in Heq. injection Heq as Hz _. subst p.
        specialize (Hpre z (or_introl eq_refl)). lra.
    + apply Qgtb_le in E.
      destruct (IH best) as (pre & x & post & Heq & Hpre & Hpost & Hmax).
      destruct pre as [|p pre].
      * cbn in Heq. injection Heq as Hb Hl. subst best post.
        exists [], x, (z :: l). split; [reflexivity|].
        split; [intros y []|]. split; [|exact Hmax].
        intros y [<- | Hy]; [exact E | apply Hpost; exact Hy].
      * cbn in Heq. injection Heq as Hb Hl. subst p l.
        exists (best :: z :: pre), x, post. split; [reflexivity|].
        split; [|split; assumption].
        intros y [<- | [<- | Hy]].
        -- apply Hpre. left. reflexivity.
        -- specialize (Hpre best (or_introl eq_refl)). lra.
        -- apply Hpre. right. exact Hy.
Qed.

(** Dropping elements other than the chosen one does not change the
    choice. *)
Lemma max_by_density_filter (p : Q * candidate -> bool)
    (best : Q * candidate) (l : list (Q * candidate)) :
  (forall x, In x (best :: l) -> snd x = max_by_density best l -> p x = true) ->
  exists best' l',
    List.filter p (best :: l) = best' :: l' /\
    max_by_density best' l' = max_by_density best l.
Proof.
  intros Hp.
  destruct (max_by_density_split l best) as (pre & x & post & Heq & Hpre & Hpost & Hmax).
  assert (Hpx : p x = true).
  { apply Hp; [rewrite Heq; apply in_elt | symmetry; exact Hmax]. }
  rewrite Heq, List.filter_app. cbn [List.filter]. rewrite Hpx.
  destruct (List.filter p pre ++ x :: List.filter p post) as [|best' l'] eqn:Ef.
  { destruct (List.filter p pre); discriminate Ef. }
  exists best', l'. split; [reflexivity|]. rewrite Hmax.
  apply (max_by_density_unique l' best' (List.filter p pre) x (List.filter p post)).
  - symmetry. exact Ef.
  - intros y Hy. apply filter_In in Hy. apply Hpre. apply Hy.
  - intros y Hy. apply filter_In in Hy. apply Hpost. apply Hy.
Qed.

Lemma keyed_filter_narrow (kf : candidate -> Q * candidate) (a1 a2 : candidate -> bool)
    (cs : list candidate) :
  (forall c, snd (kf c) = c) ->
  (forall c, a1 c = true -> a2 c = true) ->
  map kf (List.filter a1 cs)
    = List.filter (fun x => a1 (snd x)) (map kf (List.filter a2 cs)).
Proof.
  intros Hkf Hsub. induction cs as [|c cs IH]; cbn [List.filter map].
  - reflexivity.
  - destruct (a1 c) eqn:E1.
    + rewrite (Hsub c E1). cbn [map List.filter]. rewrite Hkf, E1, IH. reflexivity.
    + destruct (a2 c); [|exact IH].
      cbn [map List.filter]. rewrite Hkf, E1. exact IH.
Qed.

(** With more money the choice is the same, unless the richer run
    picks a candidate the poorer one cannot afford. *)
Lemma pick_affordable_mono (cs : list candidate) (r1 r2 : Q) :
  (forall c, In c cs -> ~ min_invest c == 0) ->
  r1 <= r2 ->
  forall o1 o2,
    pick_affordable cs r1 = Ok o1 -> pick_affordable cs r2 = Ok o2 ->
    (o1 = None /\ o2 = None) \/
    (exists c, o1 = Some c /\ o2 = Some c) \/
    (exists c2, o2 = Some c2 /\ In c2 cs /\ min_invest c2 <= r2 /\ r1 < min_invest c2).
Proof.
  intros Hnz Hle o1 o2 H1 H2.
  pose proof H2 as H2'.
  unfold pick_affordable in H1, H2.
  rewrite keyed_ok in H1 by (intros c Hc; apply filter_In in Hc; apply Hnz, Hc).
  rewrite keyed_ok in H2 by (intros c Hc; apply filter_In in Hc; apply Hnz, Hc).
  cbn [rbind] in H1, H2.
  rewrite (keyed_filter_narrow _ _ (fun c => Qle_bool (min_invest c) r2)) in H1.
  2: { intros c. reflexivity. }
  2: { intros c Hc. apply Qle_bool_iff in Hc. apply Qle_bool_iff. lra. }
  destruct (map _ (List.filter (fun c => Qle_bool (min_invest c) r2) cs))
    as [|best l] eqn:Ek.
  - cbn in H1. injection H1 as <-. injection H2 as <-. left. split; reflexivity.
  - injection H2 as <-. right.
    destruct (Qle_bool (min_invest (max_by_density best l)) r1) eqn:Ea.
    + left.
      destruct (max_by_density_filter (fun x => Qle_bool (min_invest (snd x)) r1) best l)
        as (best' & l' & Hf & Hmax).
      { intros x _ ->. exact Ea. }
      rewrite Hf in H1. injection H1 as <-.
      exists (max_by_density best l). split; [rewrite Hmax|]; reflexivity.
    + right. exists (max_by_density best l).
      apply pick_affordable_some in H2'. destruct H2' as [Hin Hle2].
      split; [reflexivity|]. split; [exact Hin|]. split; [exact Hle2|].
      apply Qnot_le_lt. intros Hc. apply Qle_bool_iff in Hc. congruence.
Qed.

(** ** A larger budget never invests less *)

Section Monotone.

Variable cs : list candidate.
Variables mu b1 b2 : Q.
Hypothesis Hmu : 0 < mu.
Hypothesis Hge : forall c, In c cs -> mu <= min_invest c.
Hypothesis Hb : b1 <= b2.

Lemma ahead_buys (st st' : gstate) :
  ahead b1 b2 st -> buys cs st st' -> ahead b1 b2 st'.
Proof.
  intros [H1 H2] Hbuys.
  pose proof (buys_mono cs mu Hmu Hge st st' Hbuys) as Hm.
  unfold ahead. lra.
Qed.

Lemma ahead_after (st1 st2 : gstate) (al : list alloc_line) (m r : Q) :
  lockstep b1 b2 st1 st2 -> snd st1 < m -> 0 < m -> r <= snd st2 - m ->
  ahead b1 b2 (al, r).
Proof.
  intros (_ & Hr & Hs) Hlt Hm Hle. unfold ahead. cbn [snd]. lra.
Qed.

Lemma lockstep_buy (al : list alloc_line) (r1 r2 : Q) (c : candidate)
    (al' : list alloc_line) :
  lockstep b1 b2 (al, r1) (al, r2) -> In c cs ->
  lockstep b1 b2 (al', r1 - min_invest c) (al', r2 - min_invest c).
Proof.
  intros (_ & Hr & Hs) Hc. specialize (Hge c Hc).
  unfold lockstep. cbn [fst snd] in *. repeat split; lra.
Qed.

Lemma seed_pass_sim (l : list candidate) :
  incl l cs ->
  forall st1 st2,
    lockstep b1 b2 st1 st2 ->
    lockstep b1 b2 (seed_pass l st1) (seed_pass l st2) \/
    ahead b1 b2 (seed_pass l st2).
Proof.
  induction l as [|c l IH]; intros Hincl [al1 r1] [al2 r2] HL.
  - left. exact HL.
  - assert (Hl : incl l cs) by (intros x Hx; apply Hincl; right; exact Hx).
    assert (Hc : In c cs) by (apply Hincl; left; reflexivity).
    pose proof HL as (Hal & Hr & Hs). cbn [fst snd] in Hal, Hr, Hs. subst al2.
    cbn [seed_pass].
    destruct (Qgeb r1 (min_invest c)) eqn:E1, (Qgeb r2 (min_invest c)) eqn:E2.
    + apply IH; [exact Hl|]. apply (lockstep_buy al1 r1 r2 c _ HL Hc).
    + apply Qgeb_ge in E1. apply Qgeb_lt in E2. lra.
    + right. apply Qgeb_lt in E1. apply Qgeb_ge in E2.
      apply (ahead_buys (al1 ++ [new_line c], r2 - min_invest c)).
      * apply (ahead_after (al1, r1) (al1, r2) _ (min_invest c));
          [exact HL | exact E1 | specialize (Hge c Hc); lra | cbn [snd]; lra].
      * apply seed_pass_buys. exact Hl.
    + apply IH; [exact Hl | exact HL].
Qed.

Lemma topk_sweep_sim (l : list candidate) :
  incl l cs ->
  forall st1 st2 added,
    lockstep b1 b2 st1 st2 ->
    (lockstep b1 b2 (fst (topk_sweep mu l st1 added)) (fst (topk_sweep mu l st2 added)) /\
     snd (topk_sweep mu l st1 added) = snd (topk_sweep mu l st2 added)) \/
    ahead b1 b2 (fst (topk_sweep mu l st2 added)).
Proof.
  induction l as [|c l IH]; intros Hincl [al1 r1] [al2 r2] added HL.
  - left. split; [exact HL | reflexivity].
  - assert (Hl : incl l cs) by (intros x Hx; apply Hincl; right; exact Hx).
    assert (Hgel : forall x, In x l -> mu <= min_invest x)
      by (intros x Hx; apply Hge, Hl, Hx).
    assert (Hc : In c cs) by (apply Hincl; left; reflexivity).
    pose proof HL as (Hal & Hr & Hs). cbn [fst snd] in Hal, Hr, Hs. subst al2.
    (* what the richer run does from a lockstep state once the poorer
       one has left the sweep with less than [mu] *)
    assert (Hrest : forall al r1' r2' f,
               lockstep b1 b2 (al, r1') (al, r2') -> r1' < mu ->
               (lockstep b1 b2 (al, r1') (fst (topk_sweep mu l (al, r2') f)) /\
                f = snd (topk_sweep mu l (al, r2') f)) \/
               ahead b1 b2 (fst (topk_sweep mu l (al, r2') f))).
    { intros al r1' r2' f HL' Hlt.
      destruct (topk_sweep_progress mu l Hmu Hgel (al, r2') f) as [-> | [_ Hdec]].
      - left. split; [exact HL' | reflexivity].
      - right. destruct (topk_sweep mu l (al, r2') f) as [[al' r'] f'].
        cbn [fst snd] in *.
        apply (ahead_after (al, r1') (al, r2') al' mu r'); [exact HL' | | |]; cbn [snd]; lra. }
    cbn [topk_sweep].
    destruct (Qgeb r1 (min_invest c)) eqn:E1, (Qgeb r2 (min_invest c)) eqn:E2;
      cbn [snd].
    + pose proof (lockstep_buy al1 r1 r2 c (add_lot c al1) HL Hc) as HL'.
      destruct (Qltb (r1 - min_invest c) mu) eqn:B1,
               (Qltb (r2 - min_invest c) mu) eqn:B2.
      * left. split; [exact HL' | reflexivity].
      * apply Qltb_lt in B1. apply (Hrest _ _ _ true HL' B1).
      * apply Qltb_ge in B1. apply Qltb_lt in B2. lra.
      * apply IH; assumption.
    + apply Qgeb_ge in E1. apply Qgeb_lt in E2. lra.
    + right. apply Qgeb_lt in E1. apply Qgeb_ge in E2.
      assert (Ha : ahead b1 b2 (add_lot c al1, r2 - min_invest c)).
      { apply (ahead_after (al1, r1) (al1, r2) _ (min_invest c));
          [exact HL | exact E1 | specialize (Hge c Hc); lra | cbn [snd]; lra]. }
      destruct (Qltb (r2 - min_invest c) mu); [exact Ha|].
      destruct (Qltb r1 mu);
        (eapply ahead_buys; [exact Ha | apply (topk_sweep_buys cs mu l Hl)]).
    + destruct (Qltb r1 mu) eqn:B1, (Qltb r2 mu) eqn:B2.
      * left. split; [exact HL | reflexivity].
      * apply Qltb_lt in B1. apply (Hrest _ _ _ added HL B1).
      * apply Qltb_ge in B1. apply Qltb_lt in B2. lra.
      * apply IH; assumption.
Qed.

Lemma topk_loop_sim (l : list candidate) :
  incl l cs ->
  forall fuel1 fuel2 st1 st2 added s1 s2,
    lockstep b1 b2 st1 st2 ->
    topk_loop fuel1 mu l st1 added = Ok s1 ->
    topk_loop fuel2 mu l st2 added = Ok s2 ->
    lockstep b1 b2 s1 s2 \/ ahead b1 b2 s2.
Proof.
  intros Hincl.
  induction fuel1 as [|fuel1 IH]; intros fuel2 st1 st2 added s1 s2 HL H1 H2.
  - (* the poorer run stops here *)
    cbn [topk_loop] in H1.
    destruct (added && Qgeb (snd st1) mu) eqn:C1; [discriminate|].
    injection H1 as <-.
    pose proof (topk_loop_buys cs mu l Hincl _ _ _ _ H2) as Hbuys.
    destruct (buys_remaining cs mu Hmu Hge _ _ Hbuys) as [-> | Hdec];
      [left; exact HL|].
    destruct added; cbn [andb] in C1.
    + right. apply Qgeb_lt in C1. destruct s2 as [al r].
      apply (ahead_after st1 st2 al mu r); [exact HL | exact C1 | exact Hmu | exact Hdec].
    + rewrite topk_loop_not_added in H2. injection H2 as <-. left. exact HL.
  - cbn [topk_loop] in H1.
    destruct (added && Qgeb (snd st1) mu) eqn:C1.
    + apply andb_true_iff in C1. destruct C1 as [-> C1]. apply Qgeb_ge in C1.
      pose proof HL as (_ & Hr & _).
      assert (C2 : Qgeb (snd st2) mu = true) by (apply Qgeb_ge; lra).
      destruct fuel2 as [|fuel2]; cbn [topk_loop andb] in H2; rewrite C2 in H2;
        [discriminate|].
      destruct (topk_sweep_sim l Hincl st1 st2 false HL) as [[HL' Hf] | Ha].
      * destruct (topk_sweep mu l st1 false) as [st1' f1].
        destruct (topk_sweep mu l st2 false) as [st2' f2].
        cbn [fst snd] in *. subst f2. eapply IH; eassumption.
      * right. destruct (topk_sweep mu l st2 false) as [st2' f2]. cbn [fst] in Ha.
        eapply ahead_buys; [exact Ha | eapply topk_loop_buys; eassumption].
    + injection H1 as <-.
      pose proof (topk_loop_buys cs mu l Hincl _ _ _ _ H2) as Hbuys.
      destruct (buys_remaining cs mu Hmu Hge _ _ Hbuys) as [-> | Hdec];
        [left; exact HL|].
      destruct added; cbn [andb] in C1.
      * right. apply Qgeb_lt in C1. destruct s2 as [al r].
        apply (ahead_after st1 st2 al mu r); [exact HL | exact C1 | exact Hmu | exact Hdec].
      * rewrite topk_loop_not_added in H2. injection H2 as <-. left. exact HL.
Qed.

Lemma drain_loop_sim :
  forall fuel1 fuel2 st1 st2 s1 s2,
    lockstep b1 b2 st1 st2 ->
    drain_loop fuel1 mu cs st1 = Ok s1 ->
    drain_loop fuel2 mu cs st2 = Ok s2 ->
    lockstep b1 b2 s1 s2 \/ ahead b1 b2 s2.
Proof.
  assert (Hnz : forall c, In c cs -> ~ min_invest c == 0).
  { intros c Hc Heq. specialize (Hge c Hc). lra. }
  assert (Hstop : forall fuel2 st1 st2 s2,
             lockstep b1 b2 st1 st2 -> snd st1 < mu ->
             drain_loop fuel2 mu cs st2 = Ok s2 ->
             lockstep b1 b2 st1 s2 \/ ahead b1 b2 s2).
  { intros fuel2 st1 st2 s2 HL Hlt H2.
    pose proof (proj1 (drain_loop_buys cs mu cs (incl_refl _) _ _ _ H2)) as Hbuys.
    destruct (buys_remaining cs mu Hmu Hge _ _ Hbuys) as [-> | Hdec];
      [left; exact HL|].
    right. destruct s2 as [al r].
    apply (ahead_after st1 st2 al mu r); [exact HL | exact Hlt | exact Hmu | exact Hdec]. }
  induction fuel1 as [|fuel1 IH]; intros fuel2 [al1 r1] [al2 r2] s1 s2 HL H1 H2.
  - cbn [drain_loop fst snd] in H1.
    destruct (Qgeb r1 mu) eqn:C1; [discriminate|]. injection H1 as <-.
    apply Qgeb_lt in C1. eapply Hstop; [exact HL | exact C1 | exact H2].
  - cbn [drain_loop fst snd] in H1.
    destruct (Qgeb r1 mu) eqn:C1.
    2: { injection H1 as <-. apply Qgeb_lt in C1.
         eapply Hstop; [exact HL | exact C1 | exact H2]. }
    apply Qgeb_ge in C1.
    pose proof HL as (Hal & Hr & Hs). cbn [fst snd] in Hal, Hr, Hs. subst al2.
    assert (C2 : Qgeb r2 mu = true) by (apply Qgeb_ge; lra).
    destruct fuel2 as [|fuel2]; cbn [drain_loop fst snd] in H2; rewrite C2 in H2;
      [discriminate|].
    destruct (pick_affordable cs r1) as [o1| |] eqn:P1; cbn [rbind] in H1;
      try discriminate.
    destruct (pick_affordable cs r2) as [o2| |] eqn:P2; cbn [rbind] in H2;
      try discriminate.
    destruct (pick_affordable_mono cs r1 r2 Hnz ltac:(lra) o1 o2 P1 P2)
      as [[-> ->] | [(c & -> & ->) | (c2 & -> & Hin2 & Hle2 & Hlt2)]].
    + injection H1 as <-. injection H2 as <-. left. exact HL.
    + apply pick_affordable_some in P1. destruct P1 as [Hc _].
      eapply IH; [|exact H1 | exact H2].
      apply (lockstep_buy al1 r1 r2 c _ HL Hc).
    + right.
      apply (ahead_buys (add_lot c2 al1, r2 - min_invest c2)).
      * apply (ahead_after (al1, r1) (al1, r2) _ (min_invest c2));
          [exact HL | exact Hlt2 | specialize (Hge c2 Hin2); lra | cbn [snd]; lra].
      * apply (drain_loop_buys cs mu cs (incl_refl _) _ _ _ H2).
Qed.

End Monotone.

(** Whatever two runs with budgets [b1 <= b2] return, the richer one
    has invested at least as much. *)
Lemma greedy_monotone (candidates : list candidate) (b1 b2 : Q) :
  (forall c, In c candidates -> 0 < min_invest c) ->
  b1 <= b2 ->
  forall fuel1 fuel2 al1 rem1 al2 rem2,
    greedy_fill_full fuel1 candidates b1 = Ok (al1, rem1) ->
    greedy_fill_full fuel2 candidates b2 = Ok (al2, rem2) ->
    b1 - rem1 <= b2 - rem2.
Proof.
  intros Hpos Hb fuel1 fuel2 al1 rem1 al2 rem2 H1 H2.
  destruct candidates as [|c0 cs0] eqn:Ecands; [discriminate|]. rewrite <- Ecands in *.
  destruct (greedy_setup candidates) as (sorted & mu & Hs & Hperm & Hmin & Hmu & _ & Hmule).
  { rewrite Ecands. discriminate. }
  { exact Hpos. }
  assert (Hge : forall c, In c sorted -> mu <= min_invest c).
  { intros c Hc. apply Hmule. eapply Permutation_in; eassumption. }
  unfold greedy_fill_full in H1, H2. rewrite Hs in H1, H2. cbn [rbind] in H1, H2.
  rewrite Hmin in H1, H2. cbn [rbind] in H1, H2.
  set (top_k := firstn _ sorted) in *.
  assert (Htop : incl top_k sorted) by apply firstn_incl.
  destruct (topk_loop fuel1 _ _ _ _) as [t1| |] eqn:T1; cbn [rbind] in H1; try discriminate.
  destruct (drain_loop fuel1 _ _ _) as [d1| |] eqn:D1; cbn [rbind] in H1; try discriminate.
  destruct (topk_loop fuel2 _ _ _ _) as [t2| |] eqn:T2; cbn [rbind] in H2; try discriminate.
  destruct (drain_loop fuel2 _ _ _) as [d2| |] eqn:D2; cbn [rbind] in H2; try discriminate.
  injection H1 as _ <-. injection H2 as _ <-.
  (* the poorer run never overspends *)
  assert (Hrun1 : buys sorted ([], b1) d1).
  { eapply buys_trans; [apply seed_pass_buys, incl_refl|].
    eapply buys_trans; [eapply topk_loop_buys; [exact Htop | exact T1]|].
    apply (drain_loop_buys sorted mu sorted (incl_refl _) _ _ _ D1). }
  assert (Hfin : forall s2, ahead b1 b2 s2 -> b1 - snd d1 <= b2 - snd s2).
  { intros s2 [Ha1 Ha2]. destruct (buys_nonneg _ _ _ Hrun1) as [-> | Hnn]; cbn [snd]; lra. }
  assert (Hbuys_t2 : buys sorted (seed_pass sorted ([], b2)) t2)
    by (eapply topk_loop_buys; [exact Htop | exact T2]).
  assert (Hbuys_d2 : buys sorted t2 d2)
    by (apply (drain_loop_buys sorted mu sorted (incl_refl _) _ _ _ D2)).
  assert (HL0 : lockstep b1 b2 ([], b1) ([], b2)).
  { unfold lockstep. cbn [fst snd]. repeat split; lra. }
  destruct (seed_pass_sim sorted mu b1 b2 Hmu Hge Hb sorted (incl_refl _) _ _ HL0)
    as [HL1 | Ha].
  2: { apply Hfin. eapply ahead_buys; [exact Hmu | exact Hge | | exact Hbuys_d2].
       eapply ahead_buys; [exact Hmu | exact Hge | exact Ha | exact Hbuys_t2]. }
  destruct (topk_loop_sim sorted mu b1 b2 Hmu Hge Hb top_k Htop _ _ _ _ _ _ _ HL1 T1 T2)
    as [HL2 | Ha].
  2: { apply Hfin. eapply ahead_buys; [exact Hmu | exact Hge | exact Ha | exact Hbuys_d2]. }
  destruct (drain_loop_sim sorted mu b1 b2 Hmu Hge Hb _ _ _ _ _ _ HL2 D1 D2)
    as [(_ & Hr & _) | Ha].
  - lra.
  - apply Hfin. exact Ha.
Qed.

(** C6, for amounts that binary64 keeps exact: for a non-empty list
    of candidates with positive whole-number units and whole-number
    budgets [0 <= b1 <= b2 <= 2^53], the heuristic returns on both
    and the amount invested at [b2], as budget minus leftover and as
    the sum over the lines, is at least the one at [b1].  With a
    fractional unit the program's [budget - leftover] can go down by
    a rounding error when the budget goes up, as the run on binary64
    numbers shows. *)
Theorem C6_budget_monotone (candidates : list candidate) (b1 b2 : Q)
    (fuel1 fuel2 : nat) :
  candidates <> [] ->
  (forall c, In c candidates -> 0 < min_invest c) ->
  b1 <= b2 ->
  whole_amounts candidates b1 ->
  whole_amounts candidates b2 ->
  (enough_fuel candidates b1 <= fuel1)%nat ->
  (enough_fuel candidates b2 <= fuel2)%nat ->
  exists al1 rem1 al2 rem2,
    greedy_fill_full fuel1 candidates b1 = Ok (al1, rem1) /\
    greedy_fill_full fuel2 candidates b2 = Ok (al2, rem2) /\
    b1 - rem1 <= b2 - rem2 /\
    total_invested al1 <= total_invested al2.
Proof.
  intros Hne Hpos Hb Hw1 Hw2 Hf1 Hf2.
  destruct (greedy_returns candidates b1 fuel1 Hne Hpos Hf1) as (al1 & rem1 & H1).
  destruct (greedy_returns candidates b2 fuel2 Hne Hpos Hf2) as (al2 & rem2 & H2).
  exists al1, rem1, al2, rem2. split; [exact H1|]. split; [exact H2|].
  pose proof (greedy_monotone candidates b1 b2 Hpos Hb _ _ _ _ _ _ H1 H2) as Hmono.
  destruct (greedy_whole candidates b1 Hpos Hw1 fuel1 al1 rem1 H1) as (_ & _ & _ & _ & Ht1).
  destruct (greedy_whole candidates b2 Hpos Hw2 fuel2 al2 rem2 H2) as (_ & _ & _ & _ & Ht2).
  split; [exact Hmono | lra].
Qed.

Lemma C6_budget_monotone_witness :
  exists al1 rem1 al2 rem2,
    greedy_fill_full 5 [cand_A; cand_B] 24000 = Ok (al1, rem1) /\
    greedy_fill_full 5 [cand_A; cand_B] 31000 = Ok (al2, rem2) /\
    24000 - rem1 <= 31000 - rem2 /\
    total_invested al1 <= total_invested al2.
Proof.
  apply (C6_budget_monotone [cand_A; cand_B] 24000 31000 5 5).
  - discriminate.
  - intros c [<- | [<- | []]]; reflexivity.
  - discriminate.
  - apply (whole_amounts_A_B 24000). lia.
  - apply (whole_amounts_A_B 31000). lia.
  - vm_compute. lia.
  - vm_compute. lia.
Defined.

(** ** Scoring *)

Lemma Qeqb_true (a b : Q) : Qeqb a b = true <-> a == b.
Proof. unfold Qeqb. apply Qeq_bool_iff. Qed.

Lemma Qeqb_false (a b : Q) : Qeqb a b = false <-> ~ a == b.
Proof.
  unfold Qeqb. split.
  - intros H Heq. apply Qeq_bool_iff in Heq. congruence.
  - intros H. apply not_true_is_false. intros Heq. apply H, Qeq_bool_iff, Heq.
Qed.

Lemma gmp_strength_nonzero (g i : Q) :
  ~ g == 0 -> ~ i == 0 ->
  gmp_strength_of (float_or_0 (Some g)) (Some i) = g / i * 100.
Proof.
  intros Hg Hi. unfold gmp_strength_of, float_or_0, opt_truthy.
  apply Qeqb_false in Hg. apply Qeqb_false in Hi. rewrite Hg, Hg, Hi. reflexivity.
Qed.

Lemma gmp_strength_zero (gmp issue : option Q) :
  gmp = None \/ (exists g, gmp = Some g /\ g == 0) \/
  issue = None \/ (exists i, issue = Some i /\ i == 0) ->
  gmp_strength_of (float_or_0 gmp) issue = 0.
Proof.
  intros H. unfold gmp_strength_of.
  destruct issue as [i|]; [|reflexivity].
  destruct H as [-> | [(g & -> & Hg) | [Hi | (i' & Hi & Hz)]]].
  - reflexivity.
  - unfold float_or_0. apply Qeqb_true in Hg. rewrite Hg. reflexivity.
  - discriminate Hi.
  - injection Hi as <-. unfold opt_truthy. apply Qeqb_true in Hz. rewrite Hz.
    rewrite andb_false_r. reflexivity.
Qed.

Lemma compute_gmp_strength (lib : PyLib) (d : ipo_doc) (a : analysis_doc)
    (comp : Q) (bd : breakdown) :
  compute_composite_and_breakdown lib d a = Ok (comp, bd) ->
  exists issue,
    parse_issue_mid lib d = Ok issue /\
    gmp_strength_pct bd
      = round3 (gmp_strength_of
                  (float_or_0 (safe_float lib (doc_gmp_investorgain d))) issue).
Proof.
  unfold compute_composite_and_breakdown. intros H.
  destruct (parse_issue_mid lib d) as [issue| |]; cbn [rbind] in H; try discriminate.
  destruct (extract_retail_quota lib _) as [r|]; cbn [rbind] in H; try discriminate.
  destruct (as_number _) as [b| |]; cbn [rbind] in H; try discriminate.
  injection H as _ <-. exists issue. split; reflexivity.
Qed.

(** C2, as the code has it: the strength is [gmp / issue * 100] when
    both operands are available and non-zero, and 0 when either is
    unavailable or zero; the breakdown holds it rounded to three
    decimals.  The sign of the premium is not tested. *)
Theorem C2_gmp_strength (lib : PyLib) (d : ipo_doc) (a : analysis_doc) :
  (forall g i, ~ g == 0 -> ~ i == 0 ->
     gmp_strength_of (float_or_0 (Some g)) (Some i) = g / i * 100) /\
  (forall gmp issue,
     gmp = None \/ (exists g, gmp = Some g /\ g == 0) \/
     issue = None \/ (exists i, issue = Some i /\ i == 0) ->
     gmp_strength_of (float_or_0 gmp) issue = 0) /\
  (forall comp bd,
     compute_composite_and_breakdown lib d a = Ok (comp, bd) ->
     exists issue,
       parse_issue_mid lib d = Ok issue /\
       gmp_strength_pct bd
         = round3 (gmp_strength_of
                     (float_or_0 (safe_float lib (doc_gmp_investorgain d))) issue)).
Proof.
  split; [|split].
  - apply gmp_strength_nonzero.
  - apply gmp_strength_zero.
  - apply compute_gmp_strength.
Qed.

Lemma C2_gmp_strength_witness :
  gmp_strength_of (float_or_0 (Some 12)) (Some 100) = 12 / 100 * 100 /\
  gmp_strength_of (float_or_0 (Some 12)) None = 0 /\
  exists issue,
    parse_issue_mid demo_lib doc_plain = Ok issue /\
    gmp_strength_pct
      (mkBreakdown (PNum 7) 35 (round3 10) (round3 5) (round3 5) (round3 (12 / 100 * 100))
         default_weights)
      = round3 (gmp_strength_of
                  (float_or_0 (safe_float demo_lib (doc_gmp_investorgain doc_plain))) issue).
Proof.
  split; [|split].
  - apply (proj1 (C2_gmp_strength demo_lib doc_plain analysis_seven)); discriminate.
  - apply (proj1 (proj2 (C2_gmp_strength demo_lib doc_plain analysis_seven))).
    right. right. left. reflexivity.
  - apply (proj2 (proj2 (C2_gmp_strength demo_lib doc_plain analysis_seven))
             (round3 (Qmin ((30 # 100) * 7 + (25 # 100) * (Qmin (35 / 10) 1 * 10)
                            + (20 # 100) * 5 + (15 # 100) * (12 / 100 * 100 / 10)
                            + (10 # 100) * 5) 10))).
    reflexivity.
Defined.

(** C2 as stated fails: a premium of -10 on a mid-price of 100 gives
    the strength -10, not 0. *)
Lemma C2_counterexample :
  safe_float demo_lib (doc_gmp_investorgain doc_negative_gmp) = Some (-10) /\
  parse_issue_mid demo_lib doc_negative_gmp = Ok (Some 100) /\
  ~ (forall comp bd,
       compute_composite_and_breakdown demo_lib doc_negative_gmp analysis_seven
         = Ok (comp, bd) ->
       gmp_strength_pct bd == 0).
Proof.
  split; [reflexivity|]. split; [reflexivity|].
  intros H.
  specialize (H _ _ eq_refl). vm_compute in H. discriminate H.
Qed.

(** C9 fails on an offering whose [extracted_fields] is null: the
    scorer tolerates it when it reads the text fields, but the lookup
    of the price band goes through [None] and raises. *)
Theorem C9_null_fields_raise (lib : PyLib) (a : analysis_doc) :
  compute_composite_and_breakdown lib doc_null_fields a = Raise AttributeError.
Proof. reflexivity. Qed.

(** With nothing to read the documented defaults are used. *)
Lemma scoring_defaults (lib : PyLib) :
  compute_composite_and_breakdown lib doc_bare analysis_empty
    = Ok (round3 (Qmin ((30 # 100) * 5 + (25 # 100) * (Qmin (10 / 10) 1 * 10)
                        + (20 # 100) * 5 + (15 # 100) * (0 / 10) + (10 # 100) * 5) 10),
          mkBreakdown (PNum 5) 10 (round3 (Qmin (10 / 10) 1 * 10)) (round3 5) (round3 5)
            (round3 0) default_weights).
Proof. reflexivity. Qed.

(** Away from that case the scorer returns: when [extracted_fields]
    is a dict or missing (or a price is given), the score is a number
    or missing, and [float] reads what the quota pattern captures. *)
Lemma scoring_total (lib : PyLib) (d : ipo_doc) (a : analysis_doc) :
  (forall s m, re_search lib RETAIL_RE true s = Some m ->
     exists q, safe_float lib (PStr (group 1 m)) = Some q) ->
  doc_extracted_fields d <> EfNone \/ obj_truthy (doc_issue_price d) = true ->
  an_score a = None \/ (exists q, an_score a = Some (PNum q)) ->
  exists comp bd, compute_composite_and_breakdown lib d a = Ok (comp, bd).
Proof.
  intros Hretail Hfields Hscore. unfold compute_composite_and_breakdown.
  assert (Hissue : exists issue, parse_issue_mid lib d = Ok issue).
  { unfold parse_issue_mid.
    destruct (obj_truthy (doc_issue_price d)) eqn:Et.
    - cbn [rbind]. destruct (doc_issue_price d) as [v|dd]; [|eexists; reflexivity].
      destruct (negb (truthy v)); eexists; reflexivity.
    - destruct Hfields as [Hf | Hf]; [|discriminate].
      destruct (doc_extracted_fields d) as [| |dd]; [|congruence|]; cbn [rbind].
      + eexists; reflexivity.
      + destruct (negb (truthy _)); eexists; reflexivity. }
  destruct Hissue as [issue ->]. cbn [rbind].
  assert (Hr : exists r, extract_retail_quota lib
                           (dict_get (fields_of d) "Investor Quota Split") = Some r).
  { unfold extract_retail_quota.
    destruct (negb (truthy _)); [eexists; reflexivity|].
    destruct (re_search lib RETAIL_RE true _) as [m|] eqn:Em; [|eexists; reflexivity].
    apply (Hretail _ _ Em). }
  destruct Hr as [r ->]. cbn [rbind].
  destruct Hscore as [-> | [q ->]]; cbn [as_number rbind]; eexists _, _; reflexivity.
Qed.

(** ** Candidates *)

Lemma round_half_even_le (y : Q) (n : Z) :
  y <= inject_Z n -> (round_half_even y <= n)%Z.
Proof.
  intros Hy. unfold round_half_even.
  pose proof (Qfloor_le y) as Hfl.
  assert (Hfn : (Qfloor y <= n)%Z).
  { rewrite <- (Qfloor_Z n). apply Qfloor_resp_le. exact Hy. }
  destruct (Qltb (y - inject_Z (Qfloor y)) (1 # 2)) eqn:E1; [exact Hfn|].
  apply Qltb_ge in E1.
  assert (Hlt : (Qfloor y < n)%Z).
  { destruct (Z.eq_dec (Qfloor y) n) as [Heq | Hne]; [|lia].
    rewrite Heq in E1. lra. }
  destruct (Qltb (1 # 2) (y - inject_Z (Qfloor y))); [lia|].
  destruct (Z.even (Qfloor y)); lia.
Qed.

Lemma round3_le_10 (x : Q) : x <= 10 -> round3 x <= 10.
Proof.
  intros Hx. unfold round3.
  assert (H : (round_half_even (x * 1000) <= 10000)%Z).
  { apply round_half_even_le. change (inject_Z 10000) with 10000. lra. }
  rewrite Zle_Qle in H. change (inject_Z 10000) with 10000 in H.
  apply Qle_shift_div_r; lra.
Qed.

Lemma Qmin_le_r (a b : Q) : Qmin a b <= b.
Proof.
  unfold Qmin. destruct (Qltb b a) eqn:E; [lra|]. apply Qltb_ge in E. exact E.
Qed.

Lemma compute_composite_le_10 (lib : PyLib) (d : ipo_doc) (a : analysis_doc)
    (comp : Q) (bd : breakdown) :
  compute_composite_and_breakdown lib d a = Ok (comp, bd) -> comp <= 10.
Proof.
  unfold compute_composite_and_breakdown. intros H.
  destruct (parse_issue_mid lib d) as [issue| |]; cbn [rbind] in H; try discriminate.
  destruct (extract_retail_quota lib _) as [r|]; cbn [rbind] in H; try discriminate.
  destruct (as_number _) as [b| |]; cbn [rbind] in H; try discriminate.
  injection H as <- _. apply round3_le_10, Qmin_le_r.
Qed.

Lemma opt_truthy_some (x : option Q) :
  opt_truthy x = true -> exists q, x = Some q /\ ~ q == 0.
Proof.
  destruct x as [q|]; [|discriminate]. cbn. intros H.
  exists q. split; [reflexivity|]. apply Qeqb_false, negb_true_iff, H.
Qed.

Lemma py_int_nonneg (x : Q) : 0 <= x -> (0 <= py_int x)%Z.
Proof.
  intros Hx. unfold py_int. destruct (Qltb x 0) eqn:E.
  - apply Qltb_lt in E. lra.
  - change 0%Z with (Qfloor 0). apply Qfloor_resp_le. exact Hx.
Qed.

Section Candidates.

Variable lib : PyLib.

(** What [float] reads from the digits the two amount patterns
    capture is never negative. *)
Hypothesis lot_groups_nonneg :
  forall s m q,
    re_search lib LOT_RE true s = Some m ->
    safe_float lib (PStr (group 1 m)) = Some q \/
    safe_float lib (PStr (group 2 m)) = Some q ->
    0 <= q.
Hypothesis rupee_group_nonneg :
  forall s m q,
    re_search lib RUPEE_RE false s = Some m ->
    safe_float lib (PStr (group 1 m)) = Some q ->
    0 <= q.

Lemma parse_lot_nonneg (text : pyval) (lot : option Z) (min_inv : option Q) :
  parse_lot_and_min_invest lib text = Ok (lot, min_inv) ->
  (forall l, lot = Some l -> (0 <= l)%Z) /\
  (forall m, min_inv = Some m -> 0 <= m).
Proof.
  unfold parse_lot_and_min_invest. intros H.
  destruct (negb (truthy text)).
  { injection H as <- <-. split; intros ? Hx; discriminate Hx. }
  destruct (re_search lib LOT_RE true _) as [m|] eqn:Em.
  - injection H as <- <-. split.
    + intros l Hl.
      destruct (py_float lib _) as [q|] eqn:Eq; [|discriminate Hl].
      destruct (opt_truthy (Some q)); [|discriminate Hl].
      injection Hl as <-. apply py_int_nonneg.
      apply (lot_groups_nonneg _ m q Em). left. exact Eq.
    + intros x Hx.
      destruct (opt_truthy _); [|discriminate Hx].
      apply (lot_groups_nonneg _ m x Em). right. exact Hx.
  - destruct (re_search lib RUPEE_RE false _) as [m2|] eqn:Em2.
    + destruct (safe_float lib (PStr (group 1 m2))) as [q|] eqn:Eq; [|discriminate H].
      injection H as <- <-. split; [intros ? Hx; discriminate Hx|].
      intros x Hx. injection Hx as <-. apply (rupee_group_nonneg _ m2 q Em2 Eq).
    + injection H as <- <-. split; intros ? Hx; discriminate Hx.
Qed.

Lemma build_candidate_invariants (scored : gmap string analysis_doc) (hold_date : date)
    (name : string) (d : ipo_doc) (c : candidate) :
  build_candidate lib scored hold_date name d = Ok (Some c) ->
  5 <= composite c /\ composite c <= 10 /\
  ~ min_invest c == 0 /\
  (0 < issue_mid c -> 0 < min_invest c).
Proof.
  unfold build_candidate. intros H.
  destruct (scored !! name) as [a|]; [|discriminate].
  destruct (negb _ && negb _); [discriminate|].
  destruct (try_parse_date lib _) as [cd|]; [|discriminate].
  destruct (date_gtb cd hold_date); [discriminate|].
  destruct (parse_issue_mid lib d) as [[mid|]| |] eqn:Ei; cbn [rbind] in H;
    try discriminate.
  destruct (negb (opt_truthy (Some mid))) eqn:Emid; [discriminate|].
  apply negb_false_iff in Emid. apply opt_truthy_some in Emid.
  destruct Emid as (mid' & Hmid' & Hmid). injection Hmid' as Hmid'. subst mid'.
  destruct (parse_lot_and_min_invest lib _) as [[lot0 mi0]| |] eqn:El;
    cbn [rbind] in H; try discriminate.
  apply parse_lot_nonneg in El. destruct El as [Hlot Hmi].
  destruct (compute_composite_and_breakdown lib d a) as [[comp bd]| |] eqn:Ec;
    cbn [rbind] in H; try discriminate.
  destruct (Qltb comp 5) eqn:E5; [discriminate|].
  apply Qltb_ge in E5. apply compute_composite_le_10 in Ec.
  injection H as <-. cbn [composite min_invest issue_mid].
  split; [exact E5|]. split; [exact Ec|].
  destruct (opt_truthy mi0) eqn:Et.
  - apply opt_truthy_some in Et. destruct Et as (m & -> & Hm).
    specialize (Hmi m eq_refl). split; [exact Hm | intros _; lra].
  - assert (Hcase : forall l, lot0 = Some l -> (l =? 0)%Z = false ->
                ~ inject_Z l * mid == 0 /\ (0 < mid -> 0 < inject_Z l * mid)).
    { intros l Hl Hnz. apply Z.eqb_neq in Hnz. specialize (Hlot l Hl).
      assert (Hl1 : 1 <= inject_Z l).
      { change 1 with (inject_Z 1). rewrite <- Zle_Qle. lia. }
      split; [|intros Hpos; nra].
      intros Hz. apply Qmult_integral in Hz. destruct Hz as [Hz | Hz]; [lra | tauto]. }
    destruct lot0 as [l|].
    + destruct (l =? 0)%Z eqn:Ez.
      * split; [discriminate | reflexivity].
      * apply (Hcase l eq_refl Ez).
    + split; [discriminate | reflexivity].
Qed.

(** C5, as the code has it, for offerings and analyses whose numbers
    are finite numbers: every candidate has a composite between 5 and
    10, hence between 1 and 10, and a non-zero minimum investment,
    which is positive whenever the issue mid-price is.  The numbers
    of the model are the finite ones.  A composite that is not a
    number (NaN, as a premium or a base score that is NaN gives) is
    outside the first part of the statement: the test
    [composite < 5] is false of it, which is the second part, so the
    program keeps such a candidate. *)
Theorem C5_candidate_invariants (ipos_by_name : list (string * ipo_doc))
    (scored : gmap string analysis_doc) (hold_date : date) (cands : list candidate) :
  build_candidates lib ipos_by_name scored hold_date = Ok cands ->
  (forall c, In c cands ->
     1 <= composite c /\ 5 <= composite c /\ composite c <= 10 /\
     ~ min_invest c == 0 /\
     (0 < issue_mid c -> 0 < min_invest c)) /\
  Binary64.below_floor PrimFloat.nan = false.
Proof.
  intros H. split; [|reflexivity]. revert cands H.
  induction ipos_by_name as [|[name d] rest IH]; intros cands H c Hc;
    cbn [build_candidates] in H.
  - injection H as <-. destruct Hc.
  - destruct (build_candidate lib scored hold_date name d) as [o| |] eqn:Eb;
      cbn [rbind] in H; try discriminate.
    destruct (build_candidates lib rest scored hold_date) as [cs| |];
      cbn [rbind] in H; try discriminate.
    injection H as <-.
    assert (Hone : forall x, o = Some x ->
              5 <= composite x /\ composite x <= 10 /\
              ~ min_invest x == 0 /\ (0 < issue_mid x -> 0 < min_invest x)).
    { intros x ->. eapply build_candidate_invariants. exact Eb. }
    destruct o as [x|].
    + destruct Hc as [<- | Hc].
      * destruct (Hone x eq_refl) as (H5 & H10 & Hnz & Hpos).
        repeat split; try assumption. lra.
      * apply (IH cs eq_refl c Hc).
    + apply (IH cs eq_refl c Hc).
Qed.

End Candidates.

Lemma demo_lot_groups_nonneg (s : string) (m : list string) (q : Q) :
  re_search demo_lib LOT_RE true s = Some m ->
  safe_float demo_lib (PStr (group 1 m)) = Some q \/
  safe_float demo_lib (PStr (group 2 m)) = Some q ->
  0 <= q.
Proof.
  cbn [re_search demo_lib]. unfold demo_search.
  change (String.eqb LOT_RE LOT_RE) with true.
  change (String.eqb LOT_RE RETAIL_RE) with false. cbn [andb].
  destruct (String.eqb s "10 shares ₹0"); [|discriminate].
  intros Hm. injection Hm as <-.
  intros [H | H]; vm_compute in H; injection H as <-; discriminate.
Qed.

Lemma demo_rupee_group_nonneg (s : string) (m : list string) (q : Q) :
  re_search demo_lib RUPEE_RE false s = Some m ->
  safe_float demo_lib (PStr (group 1 m)) = Some q ->
  0 <= q.
Proof.
  cbn [re_search demo_lib]. unfold demo_search.
  change (String.eqb RUPEE_RE LOT_RE) with false.
  change (String.eqb RUPEE_RE RETAIL_RE) with false. cbn [andb].
  discriminate.
Qed.

Lemma C5_candidate_invariants_witness :
  build_candidates demo_lib [("P", doc_plain)] {[ "P" := analysis_seven ]} hold_may
    = Ok [cand_P] /\
  1 <= composite cand_P /\ 5 <= composite cand_P /\ composite cand_P <= 10 /\
  ~ min_invest cand_P == 0 /\
  (0 < issue_mid cand_P -> 0 < min_invest cand_P).
Proof.
  split; [reflexivity|].
  destruct (C5_candidate_invariants demo_lib demo_lot_groups_nonneg
              demo_rupee_group_nonneg
              [("P", doc_plain)] {[ "P" := analysis_seven ]} hold_may [cand_P])
    as [Hall _].
  - reflexivity.
  - apply Hall. left. reflexivity.
Defined.

(** C5 as stated fails: a structured price of -5 with a lot of
    10 shares and an amount of 0 gives a candidate whose minimum
    investment is -50. *)
Lemma C5_counterexample :
  ~ (forall cands,
       build_candidates demo_lib [("X", doc_negative_price)]
         {[ "X" := analysis_ten ]} hold_may = Ok cands ->
       forall c, In c cands ->
         1 <= composite c /\ composite c <= 10 /\ 0 < min_invest c).
Proof.
  intros H.
  destruct (build_candidates demo_lib [("X", doc_negative_price)]
              {[ "X" := analysis_ten ]} hold_may) as [cands| |] eqn:E;
    vm_compute in E; try discriminate E.
  injection E as <-.
  destruct (H _ eq_refl _ (or_introl eq_refl)) as (_ & _ & Hpos).
  vm_compute in Hpos. discriminate Hpos.
Qed.

(** * Further properties *)

(** ** The heuristic: accounting, order, affordability *)

(** X1: the leftover the heuristic returns is at most the budget,
    and not negative when the budget is not; for amounts that
    binary64 keeps exact (whole-number units, a whole-number budget
    between 0 and 2^53) the invested amounts and the leftover add up
    to the budget, and both are whole numbers. *)
Theorem X1_greedy_accounting (candidates : list candidate) (budget : Q)
    (fuel : nat) (al : list alloc_line) (rem : Q) :
  (forall c, In c candidates -> 0 < min_invest c) ->
  greedy_fill_full fuel candidates budget = Ok (al, rem) ->
  rem <= budget /\
  (0 <= budget -> 0 <= rem) /\
  (whole_amounts candidates budget ->
   total_invested al + rem == budget /\ whole rem /\ whole (total_invested al)).
Proof.
  intros Hpos H.
  destruct (greedy_inversion candidates budget Hpos fuel al rem H)
    as (st & Hal & Hrem & Hb & _).
  pose proof (buys_le _ _ _ Hpos Hb) as Hle. cbn [snd] in Hle.
  split; [|split].
  - rewrite Hrem. exact Hle.
  - intros Hbudget. rewrite Hrem.
    destruct (buys_nonneg _ _ _ Hb) as [-> | Hnn]; [exact Hbudget | exact Hnn].
  - intros Hwhole.
    destruct (greedy_whole candidates budget Hpos Hwhole fuel al rem H)
      as (_ & Hwrem & _ & _ & Htot).
    split; [exact Htot|]. split; [exact Hwrem|].
    destruct Hwhole as (Hwb & _).
    apply whole_iff in Hwb. destruct Hwb as [nb Hnb].
    apply whole_iff in Hwrem. destruct Hwrem as [nr Hnr].
    apply whole_iff. exists (nb - nr)%Z.
    unfold Z.sub. rewrite inject_Z_plus, inject_Z_opp. lra.
Qed.

Lemma X1_greedy_accounting_witness :
  0 <= 25000 /\
  (0 <= 25000 -> 0 <= 0) /\
  (whole_amounts [cand_A; cand_B] 25000 ->
   total_invested [mkLine "A" 1 15000 15000 8; mkLine "B" 1 10000 10000 6] + 0 == 25000 /\
   whole 0 /\
   whole (total_invested [mkLine "A" 1 15000 15000 8; mkLine "B" 1 10000 10000 6])).
Proof.
  apply (X1_greedy_accounting [cand_A; cand_B] 25000 5).
  - intros c [<- | [<- | []]]; reflexivity.
  - reflexivity.
Defined.

Lemma insert_desc_sorted {A : Type} (x : Q * A) (l : list (Q * A)) :
  StronglySorted (fun a b => fst b <= fst a) l ->
  StronglySorted (fun a b => fst b <= fst a) (insert_desc x l).
Proof.
  induction l as [|y l IH]; intros Hs; cbn [insert_desc].
  - repeat constructor.
  - inversion Hs as [|? ? Hs' Hall]; subst.
    destruct (Qgtb (fst y) (fst x)) eqn:E.
    + apply Qgtb_gt in E. constructor; [apply IH; exact Hs'|].
      apply List.Forall_forall. intros z Hz.
      apply (Permutation_in _ (insert_desc_perm x l)) in Hz.
      destruct Hz as [<- | Hz]; [lra|].
      rewrite List.Forall_forall in Hall. apply Hall. exact Hz.
    + apply Qgtb_le in E. constructor; [exact Hs|].
      constructor; [exact E|].
      rewrite List.Forall_forall in Hall. apply List.Forall_forall.
      intros z Hz. specialize (Hall z Hz). lra.
Qed.

Lemma sort_desc_sorted {A : Type} (l : list (Q * A)) :
  StronglySorted (fun a b => fst b <= fst a) (sort_desc l).
Proof.
  induction l as [|x l IH]; cbn [sort_desc fold_right].
  - constructor.
  - apply insert_desc_sorted. exact IH.
Qed.

Lemma sort_desc_keys (l : list alloc_line) :
  Forall (fun p => fst p = a_composite (snd p))
    (sort_desc (map (fun a => (a_composite a, a)) l)).
Proof.
  apply List.Forall_forall. intros p Hp.
  apply (Permutation_in _ (sort_desc_perm _)) in Hp.
  apply in_map_iff in Hp. destruct Hp as (a & <- & _). reflexivity.
Qed.

Lemma sorted_by_composite_sorted (l : list alloc_line) :
  by_score_desc (sorted_by_composite l).
Proof.
  unfold by_score_desc, sorted_by_composite.
  pose proof (sort_desc_sorted (map (fun a => (a_composite a, a)) l)) as Hs.
  pose proof (sort_desc_keys l) as Hk.
  induction Hs as [|p ps Hs IH Hall]; cbn [map].
  - constructor.
  - inversion Hk as [|? ? Hp Hk']; subst.
    constructor; [apply IH; exact Hk'|].
    rewrite List.Forall_forall in Hall, Hk'. apply List.Forall_forall.
    intros a Ha. apply in_map_iff in Ha. destruct Ha as (q & <- & Hq).
    rewrite <- Hp, <- (Hk' q Hq). apply Hall. exact Hq.
Qed.

Lemma greedy_shape (fuel : nat) (candidates : list candidate) (budget : Q)
    (al : list alloc_line) (rem : Q) :
  greedy_fill_full fuel candidates budget = Ok (al, rem) ->
  exists st, al = sorted_by_composite (fst st) /\ rem = snd st.
Proof.
  unfold greedy_fill_full. intros H.
  destruct (sorted_by_density candidates) as [sorted| |]; cbn [rbind] in H; try discriminate.
  destruct (min_of _) as [mu| |]; cbn [rbind] in H; try discriminate.
  destruct (topk_loop _ _ _ _ _) as [st1| |]; cbn [rbind] in H; try discriminate.
  destruct (drain_loop _ _ _ _) as [st2| |]; cbn [rbind] in H; try discriminate.
  injection H as <- <-. exists st2. split; reflexivity.
Qed.

(** X2: the lines the heuristic returns are in non-increasing order
    of composite score. *)
Theorem X2_greedy_sorted_by_score (fuel : nat) (candidates : list candidate)
    (budget : Q) (al : list alloc_line) (rem : Q) :
  greedy_fill_full fuel candidates budget = Ok (al, rem) ->
  by_score_desc al.
Proof.
  intros H. destruct (greedy_shape _ _ _ _ _ H) as (st & -> & _).
  apply sorted_by_composite_sorted.
Qed.

Lemma X2_greedy_sorted_by_score_witness :
  by_score_desc [mkLine "A" 1 15000 15000 8; mkLine "B" 1 10000 10000 6].
Proof.
  apply (X2_greedy_sorted_by_score 5 [cand_B; cand_A] 25000 _ 0). reflexivity.
Defined.

Lemma seed_pass_unaffordable (cs : list candidate) (al : list alloc_line) (r : Q) :
  (forall c, In c cs -> r < min_invest c) -> seed_pass cs (al, r) = (al, r).
Proof.
  induction cs as [|c cs IH]; intros Hlt; cbn [seed_pass].
  - reflexivity.
  - assert (E : Qgeb r (min_invest c) = false)
      by (apply Qgeb_lt, Hlt; left; reflexivity).
    rewrite E. apply IH. intros x Hx. apply Hlt. right. exact Hx.
Qed.

(** X3: when the budget is below the unit of every candidate the
    heuristic returns no line and the whole budget, whatever the
    fuel. *)
Theorem X3_greedy_nothing_affordable (candidates : list candidate) (budget : Q)
    (fuel : nat) :
  candidates <> [] ->
  (forall c, In c candidates -> 0 < min_invest c) ->
  (forall c, In c candidates -> budget < min_invest c) ->
  greedy_fill_full fuel candidates budget = Ok ([], budget).
Proof.
  intros Hne Hpos Hlt.
  destruct (greedy_setup candidates Hne Hpos)
    as (sorted & mu & Hs & Hperm & Hmu & _ & (c0 & Hc0 & Hc0mu) & _).
  unfold greedy_fill_full. rewrite Hs. cbn [rbind]. rewrite Hmu. cbn [rbind].
  rewrite seed_pass_unaffordable.
  2: { intros c Hc. apply Hlt. eapply Permutation_in; eassumption. }
  assert (E : Qgeb budget mu = false).
  { apply Qgeb_lt. rewrite <- Hc0mu. apply Hlt. exact Hc0. }
  assert (E1 : forall l, topk_loop fuel mu l ([], budget) true = Ok ([], budget)).
  { intros l. destruct fuel; cbn [topk_loop snd andb]; rewrite E; reflexivity. }
  rewrite E1. cbn [rbind].
  assert (E2 : drain_loop fuel mu sorted ([], budget) = Ok ([], budget)).
  { destruct fuel; cbn [drain_loop snd]; rewrite E; reflexivity. }
  rewrite E2. reflexivity.
Qed.

Lemma X3_greedy_nothing_affordable_witness :
  greedy_fill_full 0 [cand_A; cand_B] 5000 = Ok ([], 5000).
Proof.
  apply (X3_greedy_nothing_affordable [cand_A; cand_B] 5000 0).
  - discriminate.
  - intros c [<- | [<- | []]]; reflexivity.
  - intros c [<- | [<- | []]]; reflexivity.
Defined.

Lemma add_lot_ids (c : candidate) (al : list alloc_line) (k : string) :
  In k (map a_ipo al) -> In k (map a_ipo (add_lot c al)).
Proof.
  induction al as [|a al IH]; cbn [add_lot map In]; [tauto|].
  destruct (String.eqb (a_ipo a) (ipo c)); cbn [map In a_ipo]; tauto.
Qed.

Lemma add_lot_lots (c : candidate) (al : list alloc_line) :
  Forall (fun a => (1 <= a_lots a)%Z) al ->
  Forall (fun a => (1 <= a_lots a)%Z) (add_lot c al).
Proof.
  induction 1 as [|a al Ha Hal IH]; cbn [add_lot].
  - constructor; [cbn; lia | constructor].
  - destruct (String.eqb (a_ipo a) (ipo c)).
    + constructor; [cbn [a_lots]; lia | exact Hal].
    + constructor; assumption.
Qed.

Lemma buys_keeps_lines (candidates : list candidate) (st st' : gstate) :
  buys candidates st st' ->
  Forall (fun a => (1 <= a_lots a)%Z) (fst st) ->
  Forall (fun a => (1 <= a_lots a)%Z) (fst st') /\
  forall k, In k (map a_ipo (fst st)) -> In k (map a_ipo (fst st')).
Proof.
  induction 1 as [st | c al r st' Hc Hle Hb IH | c al r st' Hc Hle Hb IH];
    intros Hlots; cbn [fst] in *.
  - split; [exact Hlots | tauto].
  - destruct (IH (add_lot_lots c al Hlots)) as [H1 H2]. split; [exact H1|].
    intros k Hk. apply H2. apply add_lot_ids. exact Hk.
  - destruct IH as [H1 H2].
    { apply Forall_app. split; [exact Hlots|]. constructor; [cbn; lia | constructor]. }
    split; [exact H1|]. intros k Hk. apply H2.
    rewrite map_app. apply in_or_app. left. exact Hk.
Qed.

Lemma total_units_perm (l l' : list candidate) :
  Permutation l l' -> total_units l == total_units l'.
Proof.
  unfold total_units. induction 1; cbn [fold_right].
  - reflexivity.
  - rewrite IHPermutation. reflexivity.
  - ring.
  - etransitivity; eassumption.
Qed.

Lemma total_units_nonneg (l : list candidate) :
  (forall c, In c l -> 0 < min_invest c) -> 0 <= total_units l.
Proof.
  unfold total_units. induction l as [|c l IH]; intros Hpos; cbn [fold_right].
  - lra.
  - specialize (Hpos c (or_introl eq_refl)) as Hc.
    assert (0 <= fold_right (fun c acc => min_invest c + acc) 0 l)
      by (apply IH; intros x Hx; apply Hpos; right; exact Hx).
    lra.
Qed.

Lemma seed_pass_all (candidates cs : list candidate) :
  incl cs candidates ->
  (forall c, In c cs -> 0 < min_invest c) ->
  forall al r,
    total_units cs <= r ->
    forall c, In c cs -> In (ipo c) (map a_ipo (fst (seed_pass cs (al, r)))).
Proof.
  induction cs as [|x cs IH]; intros Hincl Hpos al r Hsum c Hc; [destruct Hc|].
  assert (Hcs : incl cs candidates) by (intros y Hy; apply Hincl; right; exact Hy).
  assert (Hposcs : forall y, In y cs -> 0 < min_invest y)
    by (intros y Hy; apply Hpos; right; exact Hy).
  pose proof (total_units_nonneg cs Hposcs) as Hnn.
  unfold total_units in Hsum, Hnn. cbn [fold_right] in Hsum.
  cbn [seed_pass].
  assert (E : Qgeb r (min_invest x) = true) by (apply Qgeb_ge; lra).
  rewrite E. destruct Hc as [<- | Hc].
  - pose proof (seed_pass_buys candidates cs
                  (al ++ [new_line x], r - min_invest x) Hcs) as Hb.
    assert (Hkeep : forall (st st' : gstate) k, buys candidates st st' ->
              In k (map a_ipo (fst st)) -> In k (map a_ipo (fst st'))).
    { intros st st' k Hbuys. clear - Hbuys.
      induction Hbuys as [st | c al r st' Hc Hle Hb IH | c al r st' Hc Hle Hb IH];
        cbn [fst] in *; intros Hk.
      - exact Hk.
      - apply IH, add_lot_ids, Hk.
      - apply IH. rewrite map_app. apply in_or_app. left. exact Hk. }
    apply (Hkeep _ _ _ Hb). cbn [fst]. rewrite map_app. apply in_or_app.
    right. left. reflexivity.
  - apply IH; try assumption. unfold total_units. lra.
Qed.

(** X4: when the units are whole numbers and the whole-number budget
    (at most 2^53) covers one lot of every candidate, the heuristic
    returns and every candidate has a line, with at least one lot, in
    what it returns. *)
Theorem X4_greedy_every_candidate_served (candidates : list candidate) (budget : Q)
    (fuel : nat) :
  candidates <> [] ->
  (forall c, In c candidates -> 0 < min_invest c) ->
  whole_amounts candidates budget ->
  total_units candidates <= budget ->
  (enough_fuel candidates budget <= fuel)%nat ->
  exists al rem,
    greedy_fill_full fuel candidates budget = Ok (al, rem) /\
    forall c, In c candidates ->
      exists a, In a al /\ a_ipo a = ipo c /\ (1 <= a_lots a)%Z.
Proof.
  intros Hne Hpos _ Hsum Hfuel.
  destruct (greedy_returns candidates budget fuel Hne Hpos Hfuel) as (al & rem & H).
  exists al, rem. split; [exact H|]. intros c Hc.
  destruct (greedy_setup candidates Hne Hpos) as (sorted & mu & Hs & Hperm & Hmu & _ & _ & _).
  assert (Hincl : incl sorted candidates).
  { intros x Hx. eapply Permutation_in; eassumption. }
  unfold greedy_fill_full in H. rewrite Hs in H. cbn [rbind] in H.
  rewrite Hmu in H. cbn [rbind] in H.
  destruct (topk_loop _ _ _ _ _) as [st1| |] eqn:E1; cbn [rbind] in H; try discriminate.
  destruct (drain_loop _ _ _ _) as [st2| |] eqn:E2; cbn [rbind] in H; try discriminate.
  injection H as <- <-.
  assert (Hseed : In (ipo c) (map a_ipo (fst (seed_pass sorted ([], budget))))).
  { apply (seed_pass_all candidates sorted Hincl).
    - intros x Hx. apply Hpos, Hincl, Hx.
    - rewrite (total_units_perm _ _ Hperm). exact Hsum.
    - eapply Permutation_in; [symmetry; exact Hperm | exact Hc]. }
  assert (Hb : buys candidates (seed_pass sorted ([], budget)) st2).
  { eapply buys_trans.
    - eapply topk_loop_buys; [|exact E1].
      intros x Hx. apply Hincl. eapply firstn_incl. exact Hx.
    - apply (drain_loop_buys candidates _ sorted Hincl _ _ _ E2). }
  assert (Hb0 : buys candidates ([], budget) (seed_pass sorted ([], budget)))
    by (apply seed_pass_buys; exact Hincl).
  destruct (buys_keeps_lines _ _ _ Hb0 (List.Forall_nil _)) as [Hlots0 _].
  destruct (buys_keeps_lines _ _ _ Hb Hlots0) as [Hlots Hids].
  specialize (Hids _ Hseed). apply in_map_iff in Hids.
  destruct Hids as (a & Ha & Hin).
  exists a. split; [|split].
  - eapply Permutation_in; [symmetry; apply sorted_by_composite_perm | exact Hin].
  - exact Ha.
  - rewrite List.Forall_forall in Hlots. apply Hlots. exact Hin.
Qed.

Lemma X4_greedy_every_candidate_served_witness :
  exists al rem,
    greedy_fill_full 5 [cand_A; cand_B] 25000 = Ok (al, rem) /\
    forall c, In c [cand_A; cand_B] ->
      exists a, In a al /\ a_ipo a = ipo c /\ (1 <= a_lots a)%Z.
Proof.
  apply (X4_greedy_every_candidate_served [cand_A; cand_B] 25000 5).
  - discriminate.
  - intros c [<- | [<- | []]]; reflexivity.
  - apply (whole_amounts_A_B 25000). lia.
  - discriminate.
  - vm_compute. lia.
Defined.

(** ** The heuristic: one sound line per candidate *)

Lemma adds_trans (candidates : list candidate) (s1 s2 s3 : gstate) :
  adds candidates s1 s2 -> adds candidates s2 s3 -> adds candidates s1 s3.
Proof.
  intros H12 H23. induction H12; [exact H23|]. eapply adds_step; eauto.
Qed.

Lemma add_lot_fresh (c : candidate) (al : list alloc_line) :
  ~ In (ipo c) (map a_ipo al) -> add_lot c al = al ++ [new_line c].
Proof.
  induction al as [|a al IH]; intros Hnot; cbn [add_lot app].
  - reflexivity.
  - destruct (String.eqb (a_ipo a) (ipo c)) eqn:E.
    + apply String.eqb_eq in E. exfalso. apply Hnot. left. exact E.
    + rewrite IH; [reflexivity|]. intros Hin. apply Hnot. right. exact Hin.
Qed.

Lemma add_lot_known (c : candidate) (al : list alloc_line) :
  In (ipo c) (map a_ipo al) -> map a_ipo (add_lot c al) = map a_ipo al.
Proof.
  induction al as [|a al IH]; intros Hin; cbn [add_lot map]; [destruct Hin|].
  destruct (String.eqb (a_ipo a) (ipo c)) eqn:E; cbn [map a_ipo]; [reflexivity|].
  f_equal. apply IH. destruct Hin as [Hin | Hin]; [|exact Hin].
  apply String.eqb_neq in E. contradiction.
Qed.

Lemma seed_pass_adds (candidates cs : list candidate) :
  incl cs candidates ->
  NoDup (map ipo cs) ->
  forall al r,
    (forall c, In c cs -> ~ In (ipo c) (map a_ipo al)) ->
    adds candidates (al, r) (seed_pass cs (al, r)).
Proof.
  induction cs as [|c cs IH]; intros Hincl Hnd al r Hfresh; cbn [seed_pass].
  - apply adds_refl.
  - assert (Hcs : incl cs candidates) by (intros x Hx; apply Hincl; right; exact Hx).
    inversion Hnd as [|? ? Hnotin Hnd']; subst.
    rewrite list_elem_of_In in Hnotin.
    destruct (Qgeb r (min_invest c)) eqn:E.
    + apply Qgeb_ge in E.
      eapply adds_step; [apply Hincl; left; reflexivity | exact E |].
      rewrite add_lot_fresh by (apply Hfresh; left; reflexivity).
      apply IH; [exact Hcs | exact Hnd'|].
      intros x Hx Hin. rewrite map_app in Hin. apply in_app_or in Hin.
      destruct Hin as [Hin | [Hin | []]].
      * apply (Hfresh x (or_intror Hx)). exact Hin.
      * cbn in Hin. apply Hnotin. rewrite Hin. apply in_map. exact Hx.
    + apply IH; [exact Hcs | exact Hnd'|].
      intros x Hx. apply Hfresh. right. exact Hx.
Qed.

Lemma topk_sweep_adds (candidates : list candidate) (mu : Q) (cs : list candidate) :
  incl cs candidates ->
  forall st added, adds candidates st (fst (topk_sweep mu cs st added)).
Proof.
  induction cs as [|c cs IH]; intros Hincl [al r] added; cbn [topk_sweep].
  - apply adds_refl.
  - assert (Hcs : incl cs candidates) by (intros x Hx; apply Hincl; right; exact Hx).
    destruct (Qgeb r (min_invest c)) eqn:E; cbn [snd].
    + apply Qgeb_ge in E.
      eapply adds_step; [apply Hincl; left; reflexivity | exact E |].
      destruct (Qltb (r - min_invest c) mu); [apply adds_refl | apply IH; exact Hcs].
    + destruct (Qltb r mu); [apply adds_refl | apply IH; exact Hcs].
Qed.

Lemma topk_loop_adds (candidates : list candidate) (mu : Q) (cs : list candidate) :
  incl cs candidates ->
  forall fuel st added st',
    topk_loop fuel mu cs st added = Ok st' -> adds candidates st st'.
Proof.
  intros Hincl. induction fuel as [|fuel IH]; intros st added st' H; cbn [topk_loop] in H.
  - destruct (added && Qgeb (snd st) mu); [discriminate|].
    injection H as <-. apply adds_refl.
  - destruct (added && Qgeb (snd st) mu).
    + destruct (topk_sweep mu cs st false) as [st1 added1] eqn:Es.
      pose proof (topk_sweep_adds candidates mu cs Hincl st false) as Hb.
      rewrite Es in Hb. cbn [fst] in Hb.
      eapply adds_trans; [exact Hb | eapply IH; exact H].
    + injection H as <-. apply adds_refl.
Qed.

Lemma drain_loop_adds (candidates : list candidate) (mu : Q) (cs : list candidate) :
  incl cs candidates ->
  forall fuel st st',
    drain_loop fuel mu cs st = Ok st' -> adds candidates st st'.
Proof.
  intros Hincl. induction fuel as [|fuel IH]; intros [al r] st' H;
    cbn [drain_loop fst snd] in H.
  - destruct (Qgeb r mu); [discriminate|]. injection H as <-. apply adds_refl.
  - destruct (Qgeb r mu).
    + destruct (pick_affordable cs r) as [[p|]| |] eqn:Ep; cbn [rbind] in H; try discriminate.
      * apply pick_affordable_some in Ep. destruct Ep as [Hp Hle].
        eapply adds_step; [apply Hincl; exact Hp | exact Hle | apply (IH _ _ H)].
      * injection H as <-. apply adds_refl.
    + injection H as <-. apply adds_refl.
Qed.

Lemma adds_sound (candidates : list candidate) (budget : Q) :
  (forall c, In c candidates -> 0 < min_invest c) ->
  forall st st', adds candidates st st' ->
    snd st <= budget -> NoDup (map a_ipo (fst st)) ->
    Forall (line_sound candidates budget) (fst st) ->
    NoDup (map a_ipo (fst st')) /\ Forall (line_sound candidates budget) (fst st').
Proof.
  intros Hpos st st' H.
  induction H as [st | c al r st' Hc Hle Hadds IH]; intros Hr Hnd Hall; cbn [fst snd] in *.
  - split; assumption.
  - specialize (Hpos c Hc) as Hcpos. apply IH; [lra | |].
    + destruct (in_dec string_dec (ipo c) (map a_ipo al)) as [Hin | Hnot].
      * rewrite add_lot_known by exact Hin. exact Hnd.
      * rewrite add_lot_fresh by exact Hnot. rewrite map_app. cbn [map new_line a_ipo].
        apply NoDup_app. split; [exact Hnd|]. split.
        -- intros x Hx Hx'. apply list_elem_of_In in Hx.
           apply list_elem_of_In in Hx'. destruct Hx' as [<- | []]. contradiction.
        -- apply NoDup_singleton.
    + clear IH Hnd Hadds. induction Hall as [|a al Ha Hal IHal]; cbn [add_lot].
      * constructor; [|constructor]. split; [cbn; lia|].
        exists c. cbn. repeat split; try assumption; lra.
      * destruct (String.eqb (a_ipo a) (ipo c)).
        -- constructor; [|exact Hal].
           destruct Ha as (Hl & c' & H1 & H2 & H3 & H4 & H5).
           split; [cbn [a_lots]; lia|]. exists c'. cbn. repeat split; assumption.
        -- constructor; [exact Ha | exact IHal].
Qed.

Lemma greedy_sound (candidates : list candidate) (budget : Q)
    (fuel : nat) (al : list alloc_line) (rem : Q) :
  (forall c, In c candidates -> 0 < min_invest c) ->
  NoDup (map ipo candidates) ->
  greedy_fill_full fuel candidates budget = Ok (al, rem) ->
  NoDup (map a_ipo al) /\ Forall (line_sound candidates budget) al.
Proof.
  intros Hpos Hnd H.
  destruct candidates as [|c0 cs0] eqn:Ecands; [discriminate|]. rewrite <- Ecands in *.
  destruct (greedy_setup candidates) as (sorted & mu & Hs & Hperm & Hmu & _ & _ & _).
  { rewrite Ecands. discriminate. }
  { exact Hpos. }
  assert (Hincl : incl sorted candidates).
  { intros x Hx. eapply Permutation_in; eassumption. }
  unfold greedy_fill_full in H. rewrite Hs in H. cbn [rbind] in H.
  rewrite Hmu in H. cbn [rbind] in H.
  destruct (topk_loop _ _ _ _ _) as [st1| |] eqn:E1; cbn [rbind] in H; try discriminate.
  destruct (drain_loop _ _ _ _) as [st2| |] eqn:E2; cbn [rbind] in H; try discriminate.
  injection H as <- <-.
  assert (Hadds : adds candidates ([], budget) st2).
  { eapply adds_trans.
    - apply (seed_pass_adds candidates sorted Hincl).
      + rewrite Hperm. exact Hnd.
      + intros c _ [].
    - eapply adds_trans.
      + eapply topk_loop_adds; [|exact E1].
        intros x Hx. apply Hincl. eapply firstn_incl. exact Hx.
      + apply (drain_loop_adds candidates _ sorted Hincl _ _ _ E2). }
  destruct (adds_sound candidates budget Hpos _ _ Hadds) as [Hnd2 Hall2];
    cbn [fst snd]; [lra | constructor | constructor |].
  pose proof (sorted_by_composite_perm (fst st2)) as Hp.
  split.
  - rewrite Hp. exact Hnd2.
  - eapply Forall_perm_lines; [symmetry; exact Hp | exact Hall2].
Qed.

(** X5: with distinct candidate ids the heuristic returns at most one
    line per candidate; every line names a candidate of the list,
    carries its unit and score, has at least one lot, and its unit is
    within the budget. *)
Theorem X5_greedy_lines_sound (candidates : list candidate) (budget : Q)
    (fuel : nat) (al : list alloc_line) (rem : Q) :
  (forall c, In c candidates -> 0 < min_invest c) ->
  NoDup (map ipo candidates) ->
  greedy_fill_full fuel candidates budget = Ok (al, rem) ->
  NoDup (map a_ipo al) /\ Forall (line_sound candidates budget) al.
Proof.
  apply greedy_sound.
Qed.

Lemma X5_greedy_lines_sound_witness :
  NoDup (map a_ipo [mkLine "A" 1 15000 15000 8; mkLine "B" 1 10000 10000 6]) /\
  Forall (line_sound [cand_A; cand_B] 25000)
    [mkLine "A" 1 15000 15000 8; mkLine "B" 1 10000 10000 6].
Proof.
  apply (X5_greedy_lines_sound [cand_A; cand_B] 25000 5 _ 0).
  - intros c [<- | [<- | []]]; reflexivity.
  - repeat constructor; rewrite list_elem_of_In; cbn; intuition discriminate.
  - reflexivity.
Defined.

(** ** The optimizer's allocation and the selection *)

Lemma read_solution_lines_of (value : string -> option Q) (cs : list candidate) :
  forall al tot,
    exists lines,
      fst (read_solution value cs al tot) = al ++ lines /\
      sublist (map a_ipo lines) (map ipo cs) /\
      Forall (line_read value cs) lines.
Proof.
  induction cs as [|c cs IH]; intros al tot; cbn [read_solution].
  - exists []. rewrite app_nil_r. repeat split; constructor.
  - fold (value_read value c).
    assert (Hweak : forall lines, Forall (line_read value cs) lines ->
                      Forall (line_read value (c :: cs)) lines).
    { intros lines H. eapply Forall_impl; [exact H|].
      intros a (x & Hx & Hrest). exists x. split; [right; exact Hx | exact Hrest]. }
    destruct (0 <? py_int (value_read value c))%Z eqn:E.
    + apply Z.ltb_lt in E.
      destruct (IH (al ++ [mkLine (ipo c) (py_int (value_read value c)) (min_invest c)
                             (inject_Z (py_int (value_read value c)) * min_invest c)
                             (composite c)])
                   (tot + inject_Z (py_int (value_read value c)) * min_invest c))
        as (lines & Heq & Hsub & Hall).
      eexists (_ :: lines). split; [rewrite Heq, <- app_assoc; reflexivity|]. split.
      * cbn [map a_ipo]. apply sublist_skip. exact Hsub.
      * constructor; [|apply Hweak; exact Hall].
        exists c. cbn. repeat split; [left; reflexivity | lia].
    + destruct (IH al tot) as (lines & Heq & Hsub & Hall).
      exists lines. split; [exact Heq|]. split.
      * cbn [map]. apply sublist_cons. exact Hsub.
      * apply Hweak. exact Hall.
Qed.

Lemma value_read_eq (value : string -> option Q) (c : candidate) :
  value_read value c == value_or_0 value (ipo c).
Proof.
  unfold value_read, value_or_0, Qeqb. destruct (value (ipo c)) as [x|]; [|reflexivity].
  destruct (Qeq_bool x 0) eqn:E; [|reflexivity].
  apply Qeq_bool_iff in E. symmetry. exact E.
Qed.

Lemma py_int_le_bound (w : Q) (n : Z) :
  0 <= w -> w <= inject_Z n -> (py_int w <= n)%Z.
Proof.
  intros H0 Hn. unfold py_int. destruct (Qltb w 0) eqn:E.
  - apply Qltb_lt in E. lra.
  - rewrite <- (Qfloor_Z n). apply Qfloor_resp_le. exact Hn.
Qed.

Lemma row_value_term (value : string -> option Q) (cs : list candidate) (c : candidate) :
  (forall x, In x cs -> 0 <= min_invest x /\ 0 <= value_or_0 value (ipo x)) ->
  In c cs ->
  min_invest c * value_or_0 value (ipo c)
    <= row_value value (map (fun c => (min_invest c, ipo c)) cs).
Proof.
  unfold row_value. induction cs as [|x cs IH]; intros Hnn Hc; [destruct Hc|].
  cbn [map fold_right fst snd].
  assert (Hcs : forall y, In y cs -> 0 <= min_invest y /\ 0 <= value_or_0 value (ipo y))
    by (intros y Hy; apply Hnn; right; exact Hy).
  assert (Hrest : 0 <= fold_right (fun t acc => fst t * value_or_0 value (snd t) + acc) 0
                         (map (fun c => (min_invest c, ipo c)) cs)).
  { clear - Hcs. induction cs as [|y cs IH]; cbn [map fold_right fst snd]; [lra|].
    destruct (Hcs y (or_introl eq_refl)) as [H1 H2].
    assert (0 <= fold_right (fun t acc => fst t * value_or_0 value (snd t) + acc) 0
                   (map (fun c => (min_invest c, ipo c)) cs))
      by (apply IH; intros z Hz; apply Hcs; right; exact Hz).
    nra. }
  destruct (Hnn x (or_introl eq_refl)) as [H1 H2].
  destruct Hc as [<- | Hc].
  - lra.
  - specialize (IH Hcs Hc). nra.
Qed.

(** X6: what the optimizer returns adds up to the budget with its
    leftover; its lines follow the order of the candidates, at most
    one per candidate, each with at least one lot; and when the
    solver's answer respects the bounds and the budget row, no line
    has more than three lots or a unit above the budget. *)
Theorem X6_optimizer_lines (solve : solver) (candidates : list candidate) (budget : Q)
    (prob : lp_problem) (al : list alloc_line) (rem : Q) :
  (forall c, In c candidates -> 0 < min_invest c) ->
  NoDup (map ipo candidates) ->
  build_problem candidates budget = Ok prob ->
  allocate_balanced (Some solve) candidates budget = Ok (Some (al, rem)) ->
  rem == budget - total_invested al /\
  sublist (map a_ipo al) (map ipo candidates) /\
  Forall (fun a => (1 <= a_lots a)%Z) al /\
  (feasible prob (solve prob) ->
   Forall (fun a => (a_lots a <= DEFAULT_MAX_LOTS_PER_IPO)%Z /\ a_min_invest a <= budget) al).
Proof.
  intros Hpos Hnd Hprob H.
  destruct (allocate_balanced_spec solve candidates budget Hpos Hnd)
    as (prob' & al' & rem' & Hprob' & H' & _ & Hrem & _).
  rewrite Hprob in Hprob'. injection Hprob' as <-.
  rewrite H in H'. injection H' as <- <-.
  split; [exact Hrem|].
  unfold allocate_balanced in H. rewrite Hprob in H. cbn [rbind] in H.
  destruct (read_solution_lines_of (solve prob) candidates [] 0) as (lines & Heq & Hsub & Hall).
  destruct (read_solution (solve prob) candidates [] 0) as [al0 tot0].
  injection H as <- _. cbn [fst app] in Heq. subst al0.
  split; [exact Hsub|]. split.
  - eapply Forall_impl; [exact Hall|]. intros a (c & _ & _ & _ & _ & Hl). exact Hl.
  - intros [Hbounds Hrow].
    destruct (build_vars_lookup budget candidates
                (fun c Hc => Qnot_eq_sym _ _ (Qlt_not_eq _ _ (Hpos c Hc))) ∅)
      as (vm & Hvm & _ & Hin).
    specialize (Hin Hnd).
    unfold build_problem in Hprob. rewrite Hvm in Hprob. cbn [rbind] in Hprob.
    injection Hprob as <-. cbn [vars_map budget_row budget_rhs] in *.
    assert (Hnn : forall c, In c candidates ->
                    0 <= min_invest c /\ 0 <= value_or_0 (solve (mkProblem vm
                           (build_objective candidates)
                           (map (fun c => (min_invest c, ipo c)) candidates) budget)) (ipo c)).
    { intros c Hc. split; [apply Qlt_le_weak, Hpos, Hc|].
      specialize (Hbounds (ipo c) _ (Hin c Hc)). cbn [lowBound] in Hbounds.
      change (inject_Z 0) with 0 in Hbounds. apply Hbounds. }
    set (value := solve (mkProblem vm (build_objective candidates)
                  (map (fun c => (min_invest c, ipo c)) candidates) budget)) in *.
    eapply Forall_impl; [exact Hall|].
    intros a (c & Hc & _ & Hm & Hlots & Hl).
    destruct (Hnn c Hc) as [Hm0 Hv0].
    pose proof (Hbounds (ipo c) _ (Hin c Hc)) as [_ Hup]. cbn [upBound] in Hup.
    pose proof (value_read_eq value c) as Hw.
    assert (Hr0 : 0 <= value_read value c) by (rewrite Hw; exact Hv0).
    split.
    + rewrite Hlots. apply Z.le_trans with (cap_of c budget).
      * apply py_int_le_bound; [exact Hr0 | rewrite Hw; exact Hup].
      * unfold cap_of. apply Z.le_min_l.
    + rewrite Hm.
      pose proof (row_value_term value candidates c Hnn Hc) as Hterm.
      pose proof (py_int_le _ Hr0) as Hfl.
      assert (H1 : 1 <= inject_Z (py_int (value_read value c))).
      { rewrite Hlots in Hl. change 1 with (inject_Z 1). rewrite <- Zle_Qle. exact Hl. }
      assert (Hone : 1 <= value_or_0 value (ipo c)) by lra.
      nra.
Qed.

Lemma X6_optimizer_lines_witness :
  25000 - (0 + 15000 + 10000)
    == 25000 - total_invested [mkLine "A" 1 15000 15000 8; mkLine "B" 1 10000 10000 6] /\
  sublist (map a_ipo [mkLine "A" 1 15000 15000 8; mkLine "B" 1 10000 10000 6])
    (map ipo [cand_A; cand_B]) /\
  Forall (fun a => (1 <= a_lots a)%Z)
    [mkLine "A" 1 15000 15000 8; mkLine "B" 1 10000 10000 6] /\
  (feasible scenario_problem (one_lot_solver scenario_problem) ->
   Forall (fun a => (a_lots a <= DEFAULT_MAX_LOTS_PER_IPO)%Z /\ a_min_invest a <= 25000)
     [mkLine "A" 1 15000 15000 8; mkLine "B" 1 10000 10000 6]).
Proof.
  apply (X6_optimizer_lines one_lot_solver [cand_A; cand_B] 25000 scenario_problem).
  - intros c [<- | [<- | []]]; reflexivity.
  - repeat constructor; rewrite list_elem_of_In; cbn; intuition discriminate.
  - reflexivity.
  - reflexivity.
Defined.

(** X7: when the optimizer returns, the selection returns either the
    optimizer's result or the heuristic's, and never a larger
    leftover than the optimizer's. *)
Theorem X7_selection_at_least_optimizer (pulp : option solver) (fuel : nat)
    (candidates : list candidate) (budget : Q)
    (al : list alloc_line) (rem : Q) (al' : list alloc_line) (rem' : Q) :
  allocate_balanced pulp candidates budget = Ok (Some (al, rem)) ->
  select_allocation pulp fuel candidates budget = Ok (al', rem') ->
  rem' <= rem /\
  ((al', rem') = (al, rem) \/ greedy_fill_full fuel candidates budget = Ok (al', rem')).
Proof.
  unfold select_allocation. intros -> H. cbn [rbind] in H.
  destruct (Qgtb rem ((1 # 100) * budget)).
  - destruct (greedy_fill_full fuel candidates budget) as [[g_alloc g_rem]| |];
      cbn [rbind] in H; try discriminate.
    destruct (Qgtb (budget - g_rem) (budget - rem)) eqn:E; injection H as <- <-.
    + apply Qgtb_gt in E. split; [lra | right; reflexivity].
    + split; [lra | left; reflexivity].
  - injection H as <- <-. split; [lra | left; reflexivity].
Qed.

Lemma X7_selection_at_least_optimizer_witness :
  0 <= 25000 - 0 /\
  (([mkLine "A" 1 15000 15000 8; mkLine "B" 1 10000 10000 6], 0)
     = (([] : list alloc_line), 25000 - 0) \/
   greedy_fill_full 5 [cand_A; cand_B] 25000
     = Ok ([mkLine "A" 1 15000 15000 8; mkLine "B" 1 10000 10000 6], 0)).
Proof.
  apply (X7_selection_at_least_optimizer (Some idle_solver) 5 [cand_A; cand_B] 25000).
  - reflexivity.
  - reflexivity.
Defined.

(** ** The candidate builder: which offerings get through *)

Lemma build_candidate_fields (lib : PyLib) (scored : gmap string analysis_doc)
    (hold_date : date) (name : string) (d : ipo_doc) (c : candidate) :
  build_candidate lib scored hold_date name d = Ok (Some c) ->
  ipo c = name /\
  scored !! name = Some (cand_analysis c) /\
  (an_status (cand_analysis c) = PStr "scored" \/ an_score (cand_analysis c) <> None) /\
  date_gtb (close_date c) hold_date = false /\
  parse_issue_mid lib d = Ok (Some (issue_mid c)) /\
  ~ issue_mid c == 0 /\
  5 <= composite c.
Proof.
  unfold build_candidate. intros H.
  destruct (scored !! name) as [a|]; [|discriminate].
  destruct (negb _ && negb _) eqn:Eel; [discriminate|].
  destruct (try_parse_date lib _) as [cd|]; [|discriminate].
  destruct (date_gtb cd hold_date) eqn:Ed; [discriminate|].
  destruct (parse_issue_mid lib d) as [[mid|]| |] eqn:Ei; cbn [rbind] in H;
    try discriminate.
  destruct (negb (opt_truthy (Some mid))) eqn:Emid; [discriminate|].
  apply negb_false_iff in Emid. apply opt_truthy_some in Emid.
  destruct Emid as (mid' & Hmid' & Hmid). injection Hmid' as Hmid'. subst mid'.
  destruct (parse_lot_and_min_invest lib _) as [[lot0 mi0]| |];
    cbn [rbind] in H; try discriminate.
  destruct (compute_composite_and_breakdown lib d a) as [[comp bd]| |];
    cbn [rbind] in H; try discriminate.
  destruct (Qltb comp 5) eqn:E5; [discriminate|].
  apply Qltb_ge in E5. injection H as <-.
  cbn [ipo cand_analysis close_date issue_mid composite].
  repeat split; try assumption; try reflexivity.
  apply andb_false_iff in Eel. destruct Eel as [Eel | Eel]; apply negb_false_iff in Eel.
  - left. destruct (an_status a) as [| |s]; try discriminate.
    apply String.eqb_eq in Eel. rewrite Eel. reflexivity.
  - right. destruct (an_score a); [discriminate | discriminate].
Qed.

Lemma build_candidates_in (lib : PyLib) (scored : gmap string analysis_doc)
    (hold_date : date) (ipos : list (string * ipo_doc)) :
  forall cands,
    build_candidates lib ipos scored hold_date = Ok cands ->
    sublist (map ipo cands) (map fst ipos) /\
    forall c, In c cands ->
      exists d, In (ipo c, d) ipos /\
                build_candidate lib scored hold_date (ipo c) d = Ok (Some c).
Proof.
  induction ipos as [|[name d] rest IH]; intros cands H; cbn [build_candidates] in H.
  - injection H as <-. split; [constructor | intros c []].
  - destruct (build_candidate lib scored hold_date name d) as [o| |] eqn:Eb;
      cbn [rbind] in H; try discriminate.
    destruct (build_candidates lib rest scored hold_date) as [cs| |];
      cbn [rbind] in H; try discriminate.
    injection H as <-. destruct (IH cs eq_refl) as [Hsub Hin].
    assert (Hrest : forall c, In c cs ->
              exists d0, In (ipo c, d0) ((name, d) :: rest) /\
                         build_candidate lib scored hold_date (ipo c) d0 = Ok (Some c)).
    { intros c Hc. destruct (Hin c Hc) as (d0 & H1 & H2).
      exists d0. split; [right; exact H1 | exact H2]. }
    destruct o as [x|].
    + pose proof (build_candidate_fields _ _ _ _ _ _ Eb) as (Hname & _).
      split.
      * cbn [map fst]. rewrite Hname. apply sublist_skip. exact Hsub.
      * intros c [<- | Hc]; [|apply Hrest; exact Hc].
        exists d. rewrite Hname. split; [left; reflexivity | exact Eb].
    + split; [cbn [map]; apply sublist_cons; exact Hsub | exact Hrest].
Qed.

(** X8: the candidates come out in the order of the offerings, at
    most one per offering, named after it; so distinct offering names
    give distinct candidate ids. *)
Theorem X8_candidate_ids (lib : PyLib) (ipos : list (string * ipo_doc))
    (scored : gmap string analysis_doc) (hold_date : date) (cands : list candidate) :
  build_candidates lib ipos scored hold_date = Ok cands ->
  sublist (map ipo cands) (map fst ipos) /\
  (NoDup (map fst ipos) -> NoDup (map ipo cands)).
Proof.
  intros H. destruct (build_candidates_in _ _ _ _ _ H) as [Hsub _].
  split; [exact Hsub|]. intros Hnd. eapply sublist_NoDup; eassumption.
Qed.

Lemma X8_candidate_ids_witness :
  sublist (map ipo [cand_P]) (map fst [("X", doc_null_fields); ("P", doc_plain)]) /\
  (NoDup (map fst [("X", doc_null_fields); ("P", doc_plain)]) -> NoDup (map ipo [cand_P])).
Proof.
  apply (X8_candidate_ids demo_lib [("X", doc_null_fields); ("P", doc_plain)]
           {[ "P" := analysis_seven ]} hold_may).
  reflexivity.
Defined.

(** X9: every candidate comes from an offering that has an analysis
    under its name, marked scored or carrying a score, that closes no
    later than the hold date, and whose mid-price resolved to a
    non-zero number; the candidate keeps that analysis and price. *)
Theorem X9_candidate_eligibility (lib : PyLib) (ipos : list (string * ipo_doc))
    (scored : gmap string analysis_doc) (hold_date : date) (cands : list candidate)
    (c : candidate) :
  build_candidates lib ipos scored hold_date = Ok cands ->
  In c cands ->
  exists d,
    In (ipo c, d) ipos /\
    scored !! ipo c = Some (cand_analysis c) /\
    (an_status (cand_analysis c) = PStr "scored" \/ an_score (cand_analysis c) <> None) /\
    date_gtb (close_date c) hold_date = false /\
    parse_issue_mid lib d = Ok (Some (issue_mid c)) /\
    ~ issue_mid c == 0.
Proof.
  intros H Hc. destruct (build_candidates_in _ _ _ _ _ H) as [_ Hin].
  destruct (Hin c Hc) as (d & Hd & Hb). exists d.
  destruct (build_candidate_fields _ _ _ _ _ _ Hb) as (_ & H2 & H3 & H4 & H5 & H6 & _).
  repeat split; assumption.
Qed.

Lemma X9_candidate_eligibility_witness :
  exists d,
    In (ipo cand_P, d) [("P", doc_plain)] /\
    ({[ "P" := analysis_seven ]} : gmap string analysis_doc) !! ipo cand_P
      = Some (cand_analysis cand_P) /\
    (an_status (cand_analysis cand_P) = PStr "scored"
     \/ an_score (cand_analysis cand_P) <> None) /\
    date_gtb (close_date cand_P) hold_may = false /\
    parse_issue_mid demo_lib d = Ok (Some (issue_mid cand_P)) /\
    ~ issue_mid cand_P == 0.
Proof.
  apply (X9_candidate_eligibility demo_lib [("P", doc_plain)]
           {[ "P" := analysis_seven ]} hold_may [cand_P]).
  - reflexivity.
  - left. reflexivity.
Defined.

Lemma build_candidate_no_price (lib : PyLib) (scored : gmap string analysis_doc)
    (hold_date : date) (name : string) (d : ipo_doc) :
  parse_issue_mid lib d = Ok None \/
  (exists q, parse_issue_mid lib d = Ok (Some q) /\ q == 0) ->
  build_candidate lib scored hold_date name d = Ok None.
Proof.
  intros Hp. unfold build_candidate.
  destruct (scored !! name) as [a|]; [|reflexivity].
  destruct (negb _ && negb _); [reflexivity|].
  destruct (try_parse_date lib _) as [cd|]; [|reflexivity].
  destruct (date_gtb cd hold_date); [reflexivity|].
  destruct Hp as [-> | (q & -> & Hq)]; cbn [rbind]; [reflexivity|].
  apply Qeqb_true in Hq. cbn [opt_truthy]. rewrite Hq. reflexivity.
Qed.

(** X10: an offering whose mid-price does not resolve, or resolves to
    zero, never becomes a candidate, whatever its analysis says. *)
Theorem X10_no_price_no_candidate (lib : PyLib) (ipos : list (string * ipo_doc))
    (scored : gmap string analysis_doc) (hold_date : date) (cands : list candidate)
    (name : string) (d : ipo_doc) :
  build_candidates lib ipos scored hold_date = Ok cands ->
  NoDup (map fst ipos) ->
  In (name, d) ipos ->
  parse_issue_mid lib d = Ok None \/
  (exists q, parse_issue_mid lib d = Ok (Some q) /\ q == 0) ->
  ~ In name (map ipo cands).
Proof.
  intros H Hnd Hin Hp Hname.
  apply in_map_iff in Hname. destruct Hname as (c & Hc & Hcin).
  destruct (build_candidates_in _ _ _ _ _ H) as [_ Hall].
  destruct (Hall c Hcin) as (d' & Hd' & Hb). rewrite Hc in Hd', Hb.
  assert (d' = d).
  { clear - Hnd Hin Hd'. induction ipos as [|[n0 d0] rest IH]; [destruct Hin|].
    cbn [map fst] in Hnd. inversion Hnd as [|? ? Hnot Hnd']; subst.
    rewrite list_elem_of_In in Hnot.
    destruct Hin as [Hin | Hin], Hd' as [Hd' | Hd'].
    - congruence.
    - exfalso. apply Hnot. injection Hin as -> _.
      change name with (fst (name, d')). apply in_map. exact Hd'.
    - exfalso. apply Hnot. injection Hd' as -> _.
      change name with (fst (name, d)). apply in_map. exact Hin.
    - apply IH; assumption. }
  subst d'. rewrite (build_candidate_no_price _ _ _ _ _ Hp) in Hb. discriminate Hb.
Qed.

Lemma X10_no_price_no_candidate_witness :
  ~ In "N" (map ipo [cand_P]).
Proof.
  apply (X10_no_price_no_candidate demo_lib [("N", doc_no_price); ("P", doc_plain)]
           {[ "N" := analysis_ten; "P" := analysis_seven ]} hold_may [cand_P]
           "N" doc_no_price).
  - reflexivity.
  - repeat constructor; rewrite list_elem_of_In; cbn; intuition discriminate.
  - left. reflexivity.
  - left. reflexivity.
Defined.

Lemma build_candidates_ok_all (lib : PyLib) (scored : gmap string analysis_doc)
    (hold_date : date) (ipos : list (string * ipo_doc)) :
  (exists cands, build_candidates lib ipos scored hold_date = Ok cands) <->
  (forall name d, In (name, d) ipos ->
     exists o, build_candidate lib scored hold_date name d = Ok o).
Proof.
  induction ipos as [|[n0 d0] rest IH]; cbn [build_candidates].
  - split; [intros _ ? ? [] | intros _; eexists; reflexivity].
  - split.
    + intros [cands H].
      destruct (build_candidate lib scored hold_date n0 d0) as [o| |] eqn:Eb;
        cbn [rbind] in H; try discriminate.
      destruct (build_candidates lib rest scored hold_date) as [cs| |] eqn:Er;
        cbn [rbind] in H; try discriminate.
      intros name d [Heq | Hin].
      * injection Heq as <- <-. exists o. exact Eb.
      * apply (proj1 IH); [eexists; reflexivity | exact Hin].
    + intros Hall.
      destruct (Hall n0 d0 (or_introl eq_refl)) as [o ->]. cbn [rbind].
      destruct (proj2 IH) as [cs ->].
      { intros name d Hin. apply Hall. right. exact Hin. }
      cbn [rbind]. eexists; reflexivity.
Qed.

Lemma build_candidate_bad_lot (lib : PyLib) (scored : gmap string analysis_doc)
    (hold_date : date) (name : string) (d : ipo_doc)
    (a : analysis_doc) (cd : date) (mid : Q) (m : list string) :
  scored !! name = Some a ->
  an_score a <> None ->
  try_parse_date lib
    (PStr (py_str lib (py_or (doc_close_date d)
                         (py_or (dict_get (fields_of d) "IPO Dates")
                                (dict_get (fields_of d) "Close Date"))))) = Some cd ->
  date_gtb cd hold_date = false ->
  parse_issue_mid lib d = Ok (Some mid) -> ~ mid == 0 ->
  truthy (dict_get (fields_of d) "Market Lot & Amounts") = true ->
  re_search lib LOT_RE true (py_str lib (dict_get (fields_of d) "Market Lot & Amounts"))
    = None ->
  re_search lib RUPEE_RE false (py_str lib (dict_get (fields_of d) "Market Lot & Amounts"))
    = Some m ->
  safe_float lib (PStr (group 1 m)) = None ->
  build_candidate lib scored hold_date name d = Raise TypeError.
Proof.
  intros Hs Hscore Hdate Hgt Hmid Hnz Htext Hlot Hrupee Hfloat.
  unfold build_candidate. rewrite Hs.
  destruct (an_score a) as [v|] eqn:Ev; [|congruence].
  rewrite andb_false_r. rewrite Hdate, Hgt, Hmid. cbn [rbind].
  apply Qeqb_false in Hnz. cbn [opt_truthy]. rewrite Hnz. cbn [negb].
  unfold parse_lot_and_min_invest. rewrite Htext. cbn [negb].
  rewrite Hlot, Hrupee, Hfloat. reflexivity.
Qed.

(** X11: the build returns a list exactly when the processing of
    every offering returns; a single offering that raises makes the
    whole build raise.  An eligible offering whose lot text matches
    only the amount pattern, with an amount [float] cannot read, is
    such an offering. *)
Theorem X11_one_bad_offering_aborts (lib : PyLib) (ipos : list (string * ipo_doc))
    (scored : gmap string analysis_doc) (hold_date : date) :
  ((exists cands, build_candidates lib ipos scored hold_date = Ok cands) <->
   (forall name d, In (name, d) ipos ->
      exists o, build_candidate lib scored hold_date name d = Ok o)) /\
  (forall name d a cd mid m,
     In (name, d) ipos ->
     scored !! name = Some a -> an_score a <> None ->
     try_parse_date lib
       (PStr (py_str lib (py_or (doc_close_date d)
                            (py_or (dict_get (fields_of d) "IPO Dates")
                                   (dict_get (fields_of d) "Close Date"))))) = Some cd ->
     date_gtb cd hold_date = false ->
     parse_issue_mid lib d = Ok (Some mid) -> ~ mid == 0 ->
     truthy (dict_get (fields_of d) "Market Lot & Amounts") = true ->
     re_search lib LOT_RE true (py_str lib (dict_get (fields_of d) "Market Lot & Amounts"))
       = None ->
     re_search lib RUPEE_RE false (py_str lib (dict_get (fields_of d) "Market Lot & Amounts"))
       = Some m ->
     safe_float lib (PStr (group 1 m)) = None ->
     forall cands, build_candidates lib ipos scored hold_date <> Ok cands).
Proof.
  split; [apply build_candidates_ok_all|].
  intros name d a cd mid m Hin Hs Hscore Hdate Hgt Hmid Hnz Htext Hlot Hrupee Hfloat cands H.
  destruct (proj1 (build_candidates_ok_all lib scored hold_date ipos)
              (ex_intro _ cands H) name d Hin) as [o Ho].
  rewrite (build_candidate_bad_lot lib scored hold_date name d a cd mid m) in Ho;
    try assumption.
  discriminate Ho.
Qed.

Lemma X11_one_bad_offering_aborts_witness :
  ~ (exists cands,
       build_candidates demo_lib_rupee [("P", doc_plain); ("L", doc_bad_lot)]
         {[ "P" := analysis_seven; "L" := analysis_ten ]} hold_may = Ok cands).
Proof.
  intros [cands H]. revert cands H.
  apply (proj2 (X11_one_bad_offering_aborts demo_lib_rupee
                  [("P", doc_plain); ("L", doc_bad_lot)]
                  {[ "P" := analysis_seven; "L" := analysis_ten ]} hold_may)
           "L" doc_bad_lot analysis_ten (mkDate 2025 5 5) 100 [","]).
  - right. left. reflexivity.
  - reflexivity.
  - discriminate.
  - reflexivity.
  - reflexivity.
  - reflexivity.
  - discriminate.
  - reflexivity.
  - reflexivity.
  - reflexivity.
  - reflexivity.
Defined.

(** ** The scorer: ranges, caps and monotonicity *)

Lemma clamp_within (lo hi x : Q) :
  1 <= lo -> hi <= 10 -> lo <= x <= hi -> lo <= clamp_1_10 x <= hi.
Proof.
  intros Hlo Hhi [H1 H2]. unfold clamp_1_10, Qmax, Qmin.
  destruct (Qltb 10 x) eqn:E1.
  - apply Qltb_lt in E1. lra.
  - destruct (Qltb 1 x) eqn:E2; [lra|]. apply Qltb_ge in E2. lra.
Qed.

Lemma fold_up_bounds (t : string) (l : list string) (sc : Q) :
  sc <= fold_left (fun sc w => if contains w t then sc + (1 # 2) else sc) l sc
     <= sc + (1 # 2) * inject_Z (Z.of_nat (length l)).
Proof.
  revert sc. induction l as [|w l IH]; intros sc; cbn [fold_left length].
  - change (inject_Z (Z.of_nat 0)) with 0. lra.
  - rewrite Nat2Z.inj_succ. unfold Z.succ. rewrite inject_Z_plus.
    change (inject_Z 1) with 1.
    destruct (contains w t).
    + specialize (IH (sc + (1 # 2))). lra.
    + specialize (IH sc). lra.
Qed.

Lemma fold_down_bounds (t : string) (l : list string) (sc : Q) :
  sc - (1 # 2) * inject_Z (Z.of_nat (length l))
    <= fold_left (fun sc w => if contains w t then sc - (1 # 2) else sc) l sc
    <= sc.
Proof.
  revert sc. induction l as [|w l IH]; intros sc; cbn [fold_left length].
  - change (inject_Z (Z.of_nat 0)) with 0. lra.
  - rewrite Nat2Z.inj_succ. unfold Z.succ. rewrite inject_Z_plus.
    change (inject_Z 1) with 1.
    destruct (contains w t).
    + specialize (IH (sc - (1 # 2))). lra.
    + specialize (IH sc). lra.
Qed.

Lemma extract_sentiment_range (lib : PyLib) (text : pyval) :
  2 <= extract_sentiment lib text <= 17 # 2.
Proof.
  unfold extract_sentiment. destruct (negb (truthy text)); [lra|].
  apply clamp_within; [lra | lra |].
  set (t := str_lower (py_str lib text)).
  pose proof (fold_up_bounds t GOOD_WORDS 5) as Hup.
  set (up := fold_left _ GOOD_WORDS 5) in *.
  pose proof (fold_down_bounds t BAD_WORDS up) as Hdown.
  change (inject_Z (Z.of_nat (length GOOD_WORDS))) with 7 in Hup.
  change (inject_Z (Z.of_nat (length BAD_WORDS))) with 6 in Hdown.
  lra.
Qed.

Lemma extract_fundamental_score_range (lib : PyLib) (text : pyval) :
  1 <= extract_fundamental_score lib text <= 19 # 2.
Proof.
  unfold extract_fundamental_score. destruct (negb (truthy text)); [lra|].
  apply clamp_within; [lra | lra |].
  destruct (contains "profit" _ || contains "positive" _ || contains "growth" _);
    destruct (contains "loss" _ || contains "negative" _);
    destruct (re_search lib ROE_RE false _) as [m1|];
    try destruct (above (safe_float lib (PStr (group 1 m1))) 10);
    destruct (re_search lib DE_RE false _) as [m2|];
    try destruct (above (safe_float lib (PStr (group 1 m2))) 1);
    destruct (re_search lib EPS_RE false _) as [m3|];
    try destruct (above (safe_float lib (PStr (group 1 m3))) 0);
    lra.
Qed.

(** X12: the sentiment score always lies between 2 and 8.5 and the
    fundamental score between 1 and 9.5: neither reaches the upper
    clamp of 10. *)
Theorem X12_subscore_ranges (lib : PyLib) (text : pyval) :
  2 <= extract_sentiment lib text <= 17 # 2 /\
  1 <= extract_fundamental_score lib text <= 19 # 2.
Proof.
  split; [apply extract_sentiment_range | apply extract_fundamental_score_range].
Qed.

Lemma round_half_even_ge_floor (x : Q) : (Qfloor x <= round_half_even x)%Z.
Proof.
  unfold round_half_even.
  destruct (Qltb _ _); [lia|]. destruct (Qltb _ _); [lia|].
  destruct (Z.even _); lia.
Qed.

Lemma round_half_even_le_succ (x : Q) : (round_half_even x <= Qfloor x + 1)%Z.
Proof.
  unfold round_half_even.
  destruct (Qltb _ _); [lia|]. destruct (Qltb _ _); [lia|].
  destruct (Z.even _); lia.
Qed.

Lemma round_half_even_mono (x y : Q) :
  x <= y -> (round_half_even x <= round_half_even y)%Z.
Proof.
  intros Hxy.
  pose proof (Qfloor_resp_le x y Hxy) as Hfl.
  destruct (Z.eq_dec (Qfloor x) (Qfloor y)) as [Heq | Hne].
  - unfold round_half_even. rewrite Heq.
    destruct (Qltb (x - inject_Z (Qfloor y)) (1 # 2)) eqn:X1;
      destruct (Qltb (y - inject_Z (Qfloor y)) (1 # 2)) eqn:Y1;
      destruct (Qltb (1 # 2) (x - inject_Z (Qfloor y))) eqn:X2;
      destruct (Qltb (1 # 2) (y - inject_Z (Qfloor y))) eqn:Y2;
      destruct (Z.even (Qfloor y)); try lia;
      repeat match goal with
             | H : Qltb _ _ = true |- _ => apply Qltb_lt in H
             | H : Qltb _ _ = false |- _ => apply Qltb_ge in H
             end; lra.
  - pose proof (round_half_even_le_succ x). pose proof (round_half_even_ge_floor y). lia.
Qed.

Lemma round3_mono (x y : Q) : x <= y -> round3 x <= round3 y.
Proof.
  intros Hxy. unfold round3.
  assert (H : (round_half_even (x * 1000) <= round_half_even (y * 1000))%Z)
    by (apply round_half_even_mono; lra).
  rewrite Zle_Qle in H.
  apply Qmult_le_compat_r; [exact H | discriminate].
Qed.

Lemma Qmin_mono_l (a b c : Q) : a <= b -> Qmin a c <= Qmin b c.
Proof.
  intros Hab. unfold Qmin.
  destruct (Qltb c a) eqn:E1, (Qltb c b) eqn:E2;
    repeat match goal with
           | H : Qltb _ _ = true |- _ => apply Qltb_lt in H
           | H : Qltb _ _ = false |- _ => apply Qltb_ge in H
           end; lra.
Qed.

(** X13: for one offering, a higher base score never gives a lower
    composite: the weighted sum, the cap at 10 and the rounding are
    all monotone. *)
Theorem X13_composite_monotone_in_base (lib : PyLib) (d : ipo_doc)
    (b b' : Q) (status status' : pyval) (comp comp' : Q) (bd bd' : breakdown) :
  b <= b' ->
  compute_composite_and_breakdown lib d (mkAnalysis (Some (PNum b)) status)
    = Ok (comp, bd) ->
  compute_composite_and_breakdown lib d (mkAnalysis (Some (PNum b')) status')
    = Ok (comp', bd') ->
  comp <= comp'.
Proof.
  unfold compute_composite_and_breakdown. cbn [an_score]. intros Hb H H'.
  destruct (parse_issue_mid lib d) as [issue| |]; cbn [rbind] in H, H'; try discriminate.
  destruct (extract_retail_quota lib _) as [r|]; cbn [rbind as_number] in H, H';
    try discriminate.
  injection H as <- _. injection H' as <- _.
  apply round3_mono, Qmin_mono_l. cbn [w_base w_retail w_fund w_gmp w_sentiment]. lra.
Qed.

Lemma X13_composite_monotone_in_base_witness :
  round3 (Qmin ((30 # 100) * 7 + (25 # 100) * (Qmin (35 / 10) 1 * 10)
                + (20 # 100) * 5 + (15 # 100) * (12 / 100 * 100 / 10)
                + (10 # 100) * 5) 10)
  <= round3 (Qmin ((30 # 100) * 10 + (25 # 100) * (Qmin (35 / 10) 1 * 10)
                   + (20 # 100) * 5 + (15 # 100) * (12 / 100 * 100 / 10)
                   + (10 # 100) * 5) 10).
Proof.
  apply (X13_composite_monotone_in_base demo_lib doc_plain 7 10
           (PStr "scored") (PStr "scored") _ _
           (mkBreakdown (PNum 7) 35 (round3 (Qmin (35 / 10) 1 * 10)) (round3 5) (round3 5)
              (round3 (12 / 100 * 100)) default_weights)
           (mkBreakdown (PNum 10) 35 (round3 (Qmin (35 / 10) 1 * 10)) (round3 5) (round3 5)
              (round3 (12 / 100 * 100)) default_weights)).
  - discriminate.
  - reflexivity.
  - reflexivity.
Defined.

Lemma round_half_even_comp (x y : Q) : x == y -> round_half_even x = round_half_even y.
Proof.
  intros Hxy. apply Z.le_antisymm; apply round_half_even_mono; lra.
Qed.

Lemma round3_comp (x y : Q) : x == y -> round3 x = round3 y.
Proof.
  intros Hxy. unfold round3. rewrite (round_half_even_comp (x * 1000) (y * 1000)).
  - reflexivity.
  - rewrite Hxy. reflexivity.
Qed.

(** Rounding to the nearest integer moves a number by a half at most. *)
Lemma round_half_even_near (y : Q) :
  y - (1 # 2) <= inject_Z (round_half_even y) <= y + (1 # 2).
Proof.
  pose proof (Qfloor_le y) as Hlo. pose proof (Qlt_floor y) as Hhi.
  rewrite inject_Z_plus in Hhi. change (inject_Z 1) with 1 in Hhi.
  unfold round_half_even.
  destruct (Qltb (y - inject_Z (Qfloor y)) (1 # 2)) eqn:E1.
  { apply Qltb_lt in E1. lra. }
  apply Qltb_ge in E1.
  assert (Hup : y - (1 # 2) <= inject_Z (Qfloor y + 1) <= y + (1 # 2)).
  { rewrite inject_Z_plus. change (inject_Z 1) with 1. lra. }
  destruct (Qltb (1 # 2) (y - inject_Z (Qfloor y))) eqn:E2; [exact Hup|].
  apply Qltb_ge in E2.
  destruct (Z.even (Qfloor y)); [lra | exact Hup].
Qed.

Lemma round3_near (x : Q) : x - (1 # 2000) <= round3 x <= x + (1 # 2000).
Proof.
  unfold round3. pose proof (round_half_even_near (x * 1000)) as [H1 H2].
  set (n := inject_Z (round_half_even (x * 1000))) in *.
  assert (Hn : n / 1000 * 1000 == n) by (field).
  lra.
Qed.

(** X14: the retail-quota score of the breakdown is capped: it is 10
    for every quota of 10% or more and never above 10; for a quota
    between 0 and 10% it is the quota up to the rounding to three
    decimals, within a thousandth of it. *)
Theorem X14_retail_score_capped (lib : PyLib) (d : ipo_doc) (a : analysis_doc)
    (comp : Q) (bd : breakdown) :
  compute_composite_and_breakdown lib d a = Ok (comp, bd) ->
  rq_score bd <= 10 /\
  (10 <= retail_quota_pct bd -> rq_score bd == 10) /\
  (0 <= retail_quota_pct bd -> retail_quota_pct bd <= 10 ->
   retail_quota_pct bd - (1 # 1000) <= rq_score bd /\
   rq_score bd <= retail_quota_pct bd + (1 # 1000)).
Proof.
  unfold compute_composite_and_breakdown. intros H.
  destruct (parse_issue_mid lib d) as [issue| |]; cbn [rbind] in H; try discriminate.
  destruct (extract_retail_quota lib _) as [r|]; cbn [rbind] in H; try discriminate.
  destruct (as_number _) as [b| |]; cbn [rbind] in H; try discriminate.
  injection H as _ <-. cbn [rq_score retail_quota_pct].
  assert (Hmin : Qmin (r / 10) 1 * 10 <= 10).
  { pose proof (Qmin_le_r (r / 10) 1). lra. }
  assert (Hhi : 10 <= r -> Qmin (r / 10) 1 * 10 == 10).
  { intros Hr. unfold Qmin. destruct (Qltb 1 (r / 10)) eqn:E; [reflexivity|].
    apply Qltb_ge in E. assert (r / 10 * 10 == r) by (field). lra. }
  assert (Hlo : r <= 10 -> Qmin (r / 10) 1 * 10 == r).
  { intros Hr. unfold Qmin. destruct (Qltb 1 (r / 10)) eqn:E.
    - apply Qltb_lt in E. assert (r / 10 * 10 == r) by (field). lra.
    - field. }
  split; [|split].
  - apply Qle_trans with (round3 10); [apply round3_mono; exact Hmin | discriminate].
  - intros Hr. rewrite (round3_comp _ 10 (Hhi Hr)). reflexivity.
  - intros _ Hr. rewrite (round3_comp _ r (Hlo Hr)).
    pose proof (round3_near r) as [H1 H2]. split; lra.
Qed.

Lemma X14_retail_score_capped_witness :
  round3 (Qmin (35 / 10) 1 * 10) <= 10 /\
  (10 <= 35 -> round3 (Qmin (35 / 10) 1 * 10) == 10) /\
  (0 <= 35 -> 35 <= 10 ->
   35 - (1 # 1000) <= round3 (Qmin (35 / 10) 1 * 10) /\
   round3 (Qmin (35 / 10) 1 * 10) <= 35 + (1 # 1000)).
Proof.
  apply (X14_retail_score_capped demo_lib doc_plain analysis_seven
           (composite cand_P) (cand_breakdown cand_P)).
  reflexivity.
Defined.

(** X15: a candidate whose composite is a number is never classed
    [score-low]; it is classed [score-high] exactly when its composite
    is at least 7.  A composite that is not a number is another
    matter: NaN is not below 5, so the eligibility test lets it
    through, and it is not at least 5 either, so it is classed
    [score-low]. *)
Theorem X15_candidates_never_low (lib : PyLib) (ipos : list (string * ipo_doc))
    (scored : gmap string analysis_doc) (hold_date : date) (cands : list candidate)
    (c : candidate) :
  build_candidates lib ipos scored hold_date = Ok cands ->
  In c cands ->
  get_score_class (composite c) <> "score-low" /\
  (get_score_class (composite c) = "score-high" <-> 7 <= composite c) /\
  Binary64.below_floor PrimFloat.nan = false /\
  Binary64.get_score_class PrimFloat.nan = "score-low".
Proof.
  intros H Hc. destruct (build_candidates_in _ _ _ _ _ H) as [_ Hin].
  destruct (Hin c Hc) as (d & _ & Hb).
  destruct (build_candidate_fields _ _ _ _ _ _ Hb) as (_ & _ & _ & _ & _ & _ & H5).
  assert (Hnan : Binary64.below_floor PrimFloat.nan = false /\
                 Binary64.get_score_class PrimFloat.nan = "score-low")
    by (split; vm_compute; reflexivity).
  unfold get_score_class.
  destruct (Qgeb (composite c) 7) eqn:E7.
  - apply Qgeb_ge in E7. split; [discriminate|]. split; [|exact Hnan].
    split; [intros _; exact E7 | reflexivity].
  - apply Qgeb_lt in E7.
    assert (E5 : Qgeb (composite c) 5 = true) by (apply Qgeb_ge; exact H5).
    rewrite E5. split; [discriminate|]. split; [|exact Hnan].
    split; [discriminate | intros H7; lra].
Qed.

Lemma X15_candidates_never_low_witness :
  get_score_class (composite cand_P) <> "score-low" /\
  (get_score_class (composite cand_P) = "score-high" <-> 7 <= composite cand_P) /\
  Binary64.below_floor PrimFloat.nan = false /\
  Binary64.get_score_class PrimFloat.nan = "score-low".
Proof.
  apply (X15_candidates_never_low demo_lib [("P", doc_plain)]
           {[ "P" := analysis_seven ]} hold_may [cand_P]).
  - reflexivity.
  - left. reflexivity.
Defined.

Lemma fold_plus_bounds (lo hi : Q) (l : list Q) :
  (forall x, In x l -> lo <= x <= hi) ->
  forall acc,
    acc + inject_Z (Z.of_nat (length l)) * lo
      <= fold_left Qplus l acc
      <= acc + inject_Z (Z.of_nat (length l)) * hi.
Proof.
  induction l as [|x l IH]; intros Hall acc; cbn [fold_left length].
  - change (inject_Z (Z.of_nat 0)) with 0. lra.
  - rewrite Nat2Z.inj_succ. unfold Z.succ. rewrite inject_Z_plus.
    change (inject_Z 1) with 1.
    destruct (Hall x (or_introl eq_refl)) as [H1 H2].
    specialize (IH (fun y Hy => Hall y (or_intror Hy)) (acc + x)).
    set (n := inject_Z (Z.of_nat (length l))) in *. nra.
Qed.

Lemma mean_bounds (lo hi : Q) (nums : list Q) (q : Q) :
  mean nums = Some q ->
  (forall x, In x nums -> lo <= x <= hi) ->
  lo <= q <= hi.
Proof.
  intros Hm Hall. destruct nums as [|x l]; [discriminate|].
  unfold mean in Hm. injection Hm as <-.
  pose proof (fold_plus_bounds lo hi (x :: l) Hall 0) as [H1 H2].
  assert (Hn : 0 < inject_Z (Z.of_nat (length (x :: l)))).
  { change 0 with (inject_Z 0). rewrite <- Zlt_Qlt. cbn [length]. lia. }
  change (lo <= fold_left Qplus (x :: l) 0 / inject_Z (Z.of_nat (length (x :: l))) <= hi).
  remember (inject_Z (Z.of_nat (length (x :: l)))) as n eqn:En.
  remember (fold_left Qplus (x :: l) 0) as s eqn:Es.
  split.
  - apply Qle_shift_div_l; [exact Hn | nra].
  - apply Qle_shift_div_r; [exact Hn | nra].
Qed.

(** X16: a mid-price read from a price text that holds one or two
    numbers, as a price or a price band does, is their mean, so it
    lies between the smaller and the larger of them.  (The sum of two
    binary64 numbers lies between twice the smaller and twice the
    larger, and halving is exact; the mean of three numbers or more
    can round to below the smallest.) *)
Theorem X16_text_price_within_band (lib : PyLib) (d : ipo_doc) (v : pyval)
    (q lo hi : Q) :
  doc_issue_price d = PScalar v ->
  truthy v = true ->
  (length (re_findall lib PRICE_RE (py_str lib v)) <= 2)%nat ->
  parse_issue_mid lib d = Ok (Some q) ->
  (forall t x, In t (re_findall lib PRICE_RE (py_str lib v)) ->
     safe_float lib (PStr t) = Some x -> lo <= x <= hi) ->
  lo <= q <= hi.
Proof.
  intros Hv Ht _ H Hall. unfold parse_issue_mid in H. rewrite Hv in H.
  cbn [obj_truthy] in H. rewrite Ht in H. cbn [rbind] in H.
  rewrite Ht in H. cbn [negb] in H. injection H as H. apply (mean_bounds lo hi _ q H).
  intros x Hx. apply list_elem_of_In in Hx. apply list_elem_of_omap in Hx.
  destruct Hx as (t & Ht' & Hf). apply list_elem_of_In in Ht'.
  apply (Hall t x Ht' Hf).
Qed.

Lemma X16_text_price_within_band_witness :
  parse_issue_mid demo_lib_band doc_band = Ok (Some ((0 + 95 + 100) / 2)) /\
  95 <= (0 + 95 + 100) / 2 <= 100.
Proof.
  split; [reflexivity|].
  apply (X16_text_price_within_band demo_lib_band doc_band (PStr "₹95 to ₹100")).
  - reflexivity.
  - reflexivity.
  - cbn. lia.
  - reflexivity.
  - intros t x [<- | [<- | []]] Hx; vm_compute in Hx; injection Hx as <-;
      split; discriminate.
Defined.

Lemma prefix_split (p t : string) :
  String.prefix p t = true -> exists rest, t = (p ++ rest)%string.
Proof.
  revert t. induction p as [|a p IH]; intros t H.
  - exists t. reflexivity.
  - destruct t as [|b t]; [discriminate|]. cbn [String.prefix] in H.
    destruct (ascii_dec a b) as [<- | Hne]; [|discriminate].
    destruct (IH t H) as [rest ->]. exists rest. reflexivity.
Qed.

Lemma prefix_app (p t r : string) :
  String.prefix p t = true -> String.prefix p (t ++ r)%string = true.
Proof.
  revert t. induction p as [|a p IH]; intros t H;
    [destruct (t ++ r)%string; reflexivity|].
  destruct t as [|b t]; [discriminate|].
  change (String b t ++ r)%string with (String b (t ++ r)%string).
  cbn [String.prefix] in *.
  destruct (ascii_dec a b); [apply IH; exact H | discriminate].
Qed.

Lemma contains_app_r (a b r : string) :
  contains a b = true -> contains a (b ++ r)%string = true.
Proof.
  induction b as [|c b IH]; intros H.
  - cbn [contains] in H. rewrite orb_false_r in H.
    destruct a as [|x a]; [|discriminate H].
    destruct r; reflexivity.
  - change (String c b ++ r)%string with (String c (b ++ r)%string).
    cbn [contains] in *. apply orb_true_iff in H.
    apply orb_true_iff. destruct H as [H | H].
    + left. change (String c (b ++ r)%string) with (String c b ++ r)%string.
      apply (prefix_app a (String c b) r H).
    + right. apply IH. exact H.
Qed.

Lemma contains_trans (a b t : string) :
  contains a b = true -> contains b t = true -> contains a t = true.
Proof.
  intros Hab. induction t as [|c t IH]; intros Hbt.
  - cbn [contains] in Hbt. rewrite orb_false_r in Hbt.
    apply prefix_split in Hbt. destruct Hbt as [rest Hrest].
    rewrite Hrest. apply contains_app_r. exact Hab.
  - cbn [contains] in Hbt. apply orb_true_iff in Hbt. destruct Hbt as [Hp | Hin].
    + apply prefix_split in Hp. destruct Hp as [rest ->].
      apply contains_app_r. exact Hab.
    + cbn [contains]. apply orb_true_iff. right. apply IH. exact Hin.
Qed.

(** X17: the word tests overlap.  A text in which the negative word
    [unprofitable] is found also has the positive word [profitable],
    so the two sentiment adjustments cancel; and it has [profit],
    which the fundamental score counts as positive language. *)
Theorem X17_word_tests_overlap (t : string) :
  (contains "unprofitable" t = true -> contains "profitable" t = true) /\
  (contains "profitable" t = true -> contains "profit" t = true).
Proof.
  split; apply contains_trans; reflexivity.
Qed.

Lemma X17_word_tests_overlap_witness :
  contains "profitable" "an unprofitable year" = true /\
  contains "profit" "an unprofitable year" = true.
Proof.
  split.
  - apply (proj1 (X17_word_tests_overlap "an unprofitable year")). reflexivity.
  - apply (proj2 (X17_word_tests_overlap "an unprofitable year")). reflexivity.
Defined.

(** ** Explanations *)

Lemma explain_loop_spec (lib : PyLib) (cdict : gmap string candidate)
    (al : list alloc_line) :
  forall (acc ex : gmap string explanation),
    explain_loop lib cdict al acc = Ok ex ->
    (forall a, In a al -> is_Some (cdict !! a_ipo a)) /\
    (forall k, is_Some (ex !! k) <-> In k (map a_ipo al) \/ is_Some (acc !! k)) /\
    (forall k e, ex !! k = Some e ->
       acc !! k = Some e \/ exists c, cdict !! k = Some c /\ e = explain_one lib c).
Proof.
  induction al as [|a al IH]; intros acc ex H; cbn [explain_loop] in H.
  - injection H as <-. split; [intros a []|]. split.
    + intros k. cbn [map In]. tauto.
    + intros k e He. left. exact He.
  - destruct (cdict !! a_ipo a) as [c|] eqn:Ec; [|discriminate].
    destruct (IH _ _ H) as (H1 & H2 & H3). split; [|split].
    + intros x [<- | Hx]; [rewrite Ec; eexists; reflexivity | apply H1; exact Hx].
    + intros k. rewrite H2. cbn [map In].
      destruct (decide (a_ipo a = k)) as [<- | Hne].
      * rewrite lookup_insert_eq. split; [intros _; left; left; reflexivity|].
        intros _. right. eexists; reflexivity.
      * rewrite lookup_insert_ne by exact Hne. tauto.
    + intros k e He. destruct (H3 k e He) as [Hacc | Hc]; [|right; exact Hc].
      destruct (decide (a_ipo a = k)) as [<- | Hne].
      * rewrite lookup_insert_eq in Hacc. injection Hacc as <-.
        right. exists c. split; [exact Ec | reflexivity].
      * rewrite lookup_insert_ne in Hacc by exact Hne. left. exact Hacc.
Qed.

Lemma explain_loop_returns (lib : PyLib) (cdict : gmap string candidate)
    (al : list alloc_line) :
  (forall a, In a al -> is_Some (cdict !! a_ipo a)) ->
  forall acc, exists ex, explain_loop lib cdict al acc = Ok ex.
Proof.
  induction al as [|a al IH]; intros Hall acc; cbn [explain_loop].
  - eexists; reflexivity.
  - destruct (Hall a (or_introl eq_refl)) as [c ->].
    apply IH. intros x Hx. apply Hall. right. exact Hx.
Qed.

(** X18: [explain_allocation] returns exactly when every line's id has
    a candidate in the dictionary, and raises otherwise; what it
    returns has an entry for the ids of the lines and for nothing
    else, each entry being the explanation of the candidate of that
    id. *)
Theorem X18_explanations_cover_allocation (lib : PyLib) (al : list alloc_line)
    (cdict : gmap string candidate) :
  ((exists ex, explain_allocation lib al cdict = Ok ex) <->
   (forall a, In a al -> is_Some (cdict !! a_ipo a))) /\
  (forall ex,
     explain_allocation lib al cdict = Ok ex ->
     (forall k, is_Some (ex !! k) <-> In k (map a_ipo al)) /\
     (forall k e, ex !! k = Some e ->
        exists c, cdict !! k = Some c /\ e = explain_one lib c)).
Proof.
  unfold explain_allocation. split.
  - split.
    + intros [ex H]. apply (explain_loop_spec lib cdict al ∅ ex H).
    + intros Hall. apply explain_loop_returns. exact Hall.
  - intros ex H. destruct (explain_loop_spec lib cdict al ∅ ex H) as (_ & H2 & H3).
    split.
    + intros k. rewrite H2. rewrite lookup_empty. split; [|tauto].
      intros [Hk | [x Hx]]; [exact Hk | discriminate Hx].
    + intros k e He. destruct (H3 k e He) as [Hacc | Hc]; [|exact Hc].
      rewrite lookup_empty in Hacc. discriminate Hacc.
Qed.

Lemma candidates_dict_lookup (cands : list candidate) :
  forall (m : gmap string candidate) (k : string),
    In k (map ipo cands) \/ is_Some (m !! k) ->
    is_Some (fold_left (fun m c => <[ipo c := c]> m) cands m !! k).
Proof.
  induction cands as [|c cs IH]; intros m k H; cbn [fold_left].
  - destruct H as [[] | H]. exact H.
  - apply IH. cbn [map In] in H.
    destruct (decide (ipo c = k)) as [<- | Hne].
    + right. rewrite lookup_insert_eq. eexists; reflexivity.
    + rewrite lookup_insert_ne by exact Hne. tauto.
Qed.

(** X19: in [main] the explanation step cannot raise after the
    heuristic: every line it returns has a candidate in the dictionary
    built from the candidates, so every allocated offering gets an
    explanation. *)
Theorem X19_greedy_allocation_explained (lib : PyLib) (candidates : list candidate)
    (budget : Q) (fuel : nat) (al : list alloc_line) (rem : Q) :
  (forall c, In c candidates -> 0 < min_invest c) ->
  NoDup (map ipo candidates) ->
  greedy_fill_full fuel candidates budget = Ok (al, rem) ->
  exists ex,
    explain_allocation lib al (candidates_dict_of candidates) = Ok ex /\
    forall a, In a al -> is_Some (ex !! a_ipo a).
Proof.
  intros Hpos Hnd H.
  destruct (greedy_sound candidates budget fuel al rem Hpos Hnd H) as [_ Hsound].
  assert (Hknown : forall a, In a al -> is_Some (candidates_dict_of candidates !! a_ipo a)).
  { intros a Ha. rewrite List.Forall_forall in Hsound.
    destruct (Hsound a Ha) as (_ & c & Hc & Hid & _).
    apply candidates_dict_lookup. left. rewrite <- Hid. apply in_map. exact Hc. }
  destruct (explain_loop_returns lib _ al Hknown ∅) as [ex Hex].
  exists ex. split; [exact Hex|].
  intros a Ha. destruct (explain_loop_spec lib _ al ∅ ex Hex) as (_ & H2 & _).
  apply H2. left. apply in_map. exact Ha.
Qed.

Lemma X19_greedy_allocation_explained_witness :
  exists ex,
    explain_allocation demo_lib [mkLine "A" 1 15000 15000 8; mkLine "B" 1 10000 10000 6]
      (candidates_dict_of [cand_A; cand_B]) = Ok ex /\
    forall a, In a [mkLine "A" 1 15000 15000 8; mkLine "B" 1 10000 10000 6] ->
      is_Some (ex !! a_ipo a).
Proof.
  apply (X19_greedy_allocation_explained demo_lib [cand_A; cand_B] 25000 5 _ 0).
  - intros c [<- | [<- | []]]; reflexivity.
  - repeat constructor; rewrite list_elem_of_In; cbn; intuition discriminate.
  - reflexivity.
Defined.

Lemma X18_explanations_cover_allocation_witness :
  (exists ex,
     explain_allocation demo_lib [mkLine "A" 1 15000 15000 8]
       (candidates_dict_of [cand_A; cand_B]) = Ok ex) /\
  ~ (exists ex,
       explain_allocation demo_lib [mkLine "Z" 1 15000 15000 8]
         (candidates_dict_of [cand_A; cand_B]) = Ok ex).
Proof.
  split.
  - apply (proj2 (proj1 (X18_explanations_cover_allocation demo_lib
                    [mkLine "A" 1 15000 15000 8] (candidates_dict_of [cand_A; cand_B])))).
    intros a [<- | []]. eexists. reflexivity.
  - intros Hex.
    pose proof (proj1 (proj1 (X18_explanations_cover_allocation demo_lib
                    [mkLine "Z" 1 15000 15000 8] (candidates_dict_of [cand_A; cand_B])))
                  Hex) as Hall.
    destruct (Hall _ (or_introl eq_refl)) as [c Hc]. discriminate Hc.
Defined.

(** X20: an explanation carries the candidate's breakdown; its
    positive reasons start with the summary and number one to four,
    its caution reasons at most three, three to five reasons in all;
    and there is no caution reason exactly when the retail quota is at
    least 30, the fundamental score at least 6 and the category has no
    SME marker. *)
Theorem X20_explanation_shape (lib : PyLib) (c : candidate) :
  ex_breakdown (explain_one lib c) = cand_breakdown c /\
  hd_error (reasons_more (explain_one lib c)) = Some (summary_reason lib c) /\
  (1 <= length (reasons_more (explain_one lib c)) <= 4)%nat /\
  (length (reasons_less (explain_one lib c)) <= 3)%nat /\
  (3 <= length (reasons_more (explain_one lib c))
        + length (reasons_less (explain_one lib c)) <= 5)%nat /\
  (reasons_less (explain_one lib c) = [] <->
   30 <= retail_quota_pct (cand_breakdown c) /\
   6 <= fund_score (cand_breakdown c) /\
   contains "sme" (str_lower (py_str lib (category c))) = false).
Proof.
  unfold explain_one.
  destruct (Qgtb (gmp_strength_pct (cand_breakdown c)) 10);
    destruct (Qgeb (retail_quota_pct (cand_breakdown c)) 30) eqn:Er;
    destruct (Qgeb (fund_score (cand_breakdown c)) 6) eqn:Ef;
    destruct (contains "sme" (str_lower (py_str lib (category c)))) eqn:Es;
    cbn [ex_breakdown reasons_more reasons_less app hd_error length];
    (split; [reflexivity|]); (split; [reflexivity|]);
    (split; [lia|]); (split; [lia|]); (split; [lia|]);
    try apply Qgeb_ge in Er; try apply Qgeb_lt in Er;
    try apply Qgeb_ge in Ef; try apply Qgeb_lt in Ef;
    (split; [intros H; try discriminate H; repeat split; assumption
            | intros (H1 & H2 & H3); try discriminate H3; try reflexivity; lra]).
Qed.

Lemma X20_explanation_shape_witness :
  reasons_less (explain_one demo_lib cand_G) = [] /\
  reasons_less (explain_one demo_lib cand_S) <> [].
Proof.
  split.
  - apply (proj2 (proj2 (proj2 (proj2 (proj2 (proj2
             (X20_explanation_shape demo_lib cand_G))))))).
    repeat split; discriminate.
  - intros H.
    pose proof (proj1 (proj2 (proj2 (proj2 (proj2 (proj2
                  (X20_explanation_shape demo_lib cand_S)))))) H) as (_ & _ & Hs).
    discriminate Hs.
Defined.

(** ** Sanitizing a document *)

Lemma sanitize_date_free (obj : mongo) :
  tuple_free obj = true -> date_free (sanitize_for_mongo obj) = true.
Proof.
  induction obj as [items IH | elems IH | elems IH | d | d h m s | v]
    using mongo_induction;
    cbn [sanitize_for_mongo date_free tuple_free isinstance_date];
    intros H; try discriminate H; try reflexivity.
  - induction IH as [|[k v] l Hkv Hl IHl]; cbn [map forallb]; [reflexivity|].
    cbn [forallb] in H. apply andb_true_iff in H. destruct H as [H1 H2].
    cbn [snd] in Hkv. rewrite (Hkv H1). exact (IHl H2).
  - induction IH as [|x l Hx Hl IHl]; cbn [map forallb]; [reflexivity|].
    cbn [forallb] in H. apply andb_true_iff in H. destruct H as [H1 H2].
    rewrite (Hx H1). exact (IHl H2).
Qed.

Lemma sanitize_fixes_date_free (obj : mongo) :
  date_free obj = true -> sanitize_for_mongo obj = obj.
Proof.
  induction obj as [items IH | elems IH | elems IH | d | d h m s | v]
    using mongo_induction;
    cbn [sanitize_for_mongo date_free isinstance_date isinstance_datetime];
    intros H; try discriminate H; try reflexivity.
  - f_equal. induction IH as [|[k v] l Hkv Hl IHl]; cbn [map]; [reflexivity|].
    cbn [forallb] in H. apply andb_true_iff in H. destruct H as [H1 H2].
    cbn [snd] in Hkv. rewrite (Hkv H1), (IHl H2). reflexivity.
  - f_equal. induction IH as [|x l Hx Hl IHl]; cbn [map]; [reflexivity|].
    cbn [forallb] in H. apply andb_true_iff in H. destruct H as [H1 H2].
    rewrite (Hx H1), (IHl H2). reflexivity.
Qed.

Lemma sanitize_idempotent (obj : mongo) :
  sanitize_for_mongo (sanitize_for_mongo obj) = sanitize_for_mongo obj.
Proof.
  induction obj as [items IH | elems IH | elems IH | d | d h m s | v]
    using mongo_induction;
    cbn [sanitize_for_mongo isinstance_date isinstance_datetime]; try reflexivity.
  - f_equal. rewrite map_map.
    induction IH as [|[k v] l Hkv Hl IHl]; cbn [map]; [reflexivity|].
    cbn [snd] in Hkv. rewrite Hkv, IHl. reflexivity.
  - f_equal. rewrite map_map.
    induction IH as [|x l Hx Hl IHl]; cbn [map]; [reflexivity|].
    rewrite Hx, IHl. reflexivity.
Qed.

Lemma sanitize_drop_times (obj : mongo) :
  sanitize_for_mongo (drop_times obj) = sanitize_for_mongo obj.
Proof.
  induction obj as [items IH | elems IH | elems IH | d | d h m s | v]
    using mongo_induction;
    cbn [drop_times sanitize_for_mongo]; try reflexivity.
  - f_equal. rewrite map_map.
    induction IH as [|[k v] l Hkv Hl IHl]; cbn [map]; [reflexivity|].
    cbn [snd] in Hkv. rewrite Hkv, IHl. reflexivity.
  - f_equal. rewrite map_map.
    induction IH as [|x l Hx Hl IHl]; cbn [map]; [reflexivity|].
    rewrite Hx, IHl. reflexivity.
Qed.

(** X21: only dicts and lists are descended into.  A document without
    tuples comes out with no date and no datetime; a tuple, and every
    other container that is neither a dict nor a list, is returned as
    it is, with the dates it holds.  Sanitizing is the identity on a
    document without dates, and sanitizing twice is sanitizing once.
    The time of day of a datetime is lost: a datetime is a date, and
    is written as the midnight of its day. *)
Theorem X21_sanitize (obj : mongo) :
  (tuple_free obj = true -> date_free (sanitize_for_mongo obj) = true) /\
  (forall elems, sanitize_for_mongo (MTuple elems) = MTuple elems) /\
  (date_free obj = true -> sanitize_for_mongo obj = obj) /\
  sanitize_for_mongo (sanitize_for_mongo obj) = sanitize_for_mongo obj /\
  sanitize_for_mongo (drop_times obj) = sanitize_for_mongo obj /\
  (forall d h m s,
     sanitize_for_mongo (MDateTime d h m s) = MAtom (PStr (isoformat d 0 0 0))).
Proof.
  split; [apply sanitize_date_free|]. split; [reflexivity|].
  split; [apply sanitize_fixes_date_free|].
  split; [apply sanitize_idempotent|].
  split; [apply sanitize_drop_times | reflexivity].
Qed.

Lemma X21_sanitize_witness :
  date_free (sanitize_for_mongo
               (MDict [("budget", MAtom (PNum 25000));
                       ("hold_until", MDate (mkDate 2025 5 30))])) = true /\
  sanitize_for_mongo (MDict [("budget", MAtom (PNum 25000)); ("tags", MList [])])
    = MDict [("budget", MAtom (PNum 25000)); ("tags", MList [])] /\
  sanitize_for_mongo (MTuple [MDate (mkDate 2025 5 30)])
    = MTuple [MDate (mkDate 2025 5 30)].
Proof.
  split; [|split].
  - apply (proj1 (X21_sanitize
             (MDict [("budget", MAtom (PNum 25000));
                     ("hold_until", MDate (mkDate 2025 5 30))]))).
    reflexivity.
  - apply (proj1 (proj2 (proj2 (X21_sanitize
             (MDict [("budget", MAtom (PNum 25000)); ("tags", MList [])]))))).
    reflexivity.
  - apply (proj1 (proj2 (X21_sanitize (MAtom PNone)))).
Defined.

Lemma forallb_map_true {A B : Type} (f : A -> B) (p : B -> bool) (l : list A) :
  (forall x, p (f x) = true) -> forallb p (map f l) = true.
Proof.
  intros H. induction l as [|x l IH]; cbn [map forallb]; [reflexivity|].
  rewrite H, IH. reflexivity.
Qed.

Lemma explanation_doc_date_free (e : explanation) : date_free (explanation_doc e) = true.
Proof.
  unfold explanation_doc. cbn [date_free forallb breakdown_doc].
  rewrite !(forallb_map_true text date_free) by reflexivity. reflexivity.
Qed.

Lemma recommendation_date_free (created_at : string) (budget : Q) (hold_until : string)
    (allocation : list alloc_line) (explain : list (string * explanation))
    (total leftover : Q) :
  date_free (recommendation_doc created_at budget hold_until allocation explain
               total leftover) = true.
Proof.
  unfold recommendation_doc. cbn [date_free forallb text num].
  rewrite (forallb_map_true line_doc date_free) by reflexivity.
  rewrite (forallb_map_true (fun kv => (fst kv, explanation_doc (snd kv)))
             (fun kv : string * mongo => let '(_, v) := kv in date_free v)).
  - reflexivity.
  - intros [k e]. apply explanation_doc_date_free.
Qed.

(** X22: the record [main] hands to [sanitize_for_mongo] holds no
    date, its two dates being written as text beforehand, so
    sanitizing returns it unchanged. *)
Theorem X22_recommendation_unchanged (created_at : string) (budget : Q)
    (hold_until : string) (allocation : list alloc_line)
    (explain : list (string * explanation)) (total leftover : Q) :
  sanitize_for_mongo
    (recommendation_doc created_at budget hold_until allocation explain total leftover)
  = recommendation_doc created_at budget hold_until allocation explain total leftover.
Proof.
  apply sanitize_fixes_date_free, recommendation_date_free.
Qed.

(** ** A single candidate, and the allocation step as a whole *)

Lemma Qfloor_unique (x : Q) (n : Z) :
  inject_Z n <= x -> x < inject_Z n + 1 -> Qfloor x = n.
Proof.
  intros H1 H2. apply Z.le_antisymm.
  - assert (H : (Qfloor x < n + 1)%Z).
    { rewrite Zlt_Qlt, inject_Z_plus. change (inject_Z 1) with 1.
      pose proof (Qfloor_le x). lra. }
    lia.
  - rewrite <- (Qfloor_Z n). apply Qfloor_resp_le. exact H1.
Qed.

(** X23: on a single candidate with a whole-number unit and a
    whole-number budget between 0 and 2^53 (amounts that binary64
    keeps exact) the heuristic buys as many lots as the budget pays
    for, [floor(budget / min_invest)] of them, whatever that number:
    the cap of three lots per offering binds the optimizer only. *)
Theorem X23_greedy_single_candidate (c : candidate) (budget : Q) (fuel : nat) :
  0 < min_invest c ->
  whole_amounts [c] budget ->
  (enough_fuel [c] budget <= fuel)%nat ->
  exists al rem,
    greedy_fill_full fuel [c] budget = Ok (al, rem) /\
    rem == budget - inject_Z (Qfloor (budget / min_invest c)) * min_invest c /\
    (budget < min_invest c -> al = []) /\
    (min_invest c <= budget ->
     exists a, al = [a] /\ a_ipo a = ipo c /\
               a_lots a = Qfloor (budget / min_invest c)).
Proof.
  intros Hm (_ & Hbudget & _) Hfuel.
  assert (Hpos : forall x, In x [c] -> 0 < min_invest x) by (intros x [<- | []]; exact Hm).
  assert (Hnd : NoDup (map ipo [c])) by (repeat constructor; intros H; inversion H).
  destruct (greedy_returns [c] budget fuel ltac:(discriminate) Hpos Hfuel)
    as (al & rem & H).
  exists al, rem. split; [exact H|].
  destruct (greedy_lines [c] budget Hpos Hnd fuel al rem H) as (Hexact & Htot & _).
  destruct (greedy_sound [c] budget fuel al rem Hpos Hnd H) as [Hids Hsound].
  destruct (greedy_inversion [c] budget Hpos fuel al rem H) as (st & _ & Hrem & Hbuys & Hlt).
  specialize (Hlt c (or_introl eq_refl)). rewrite <- Hrem in Hlt.
  assert (Hnn : 0 <= rem).
  { rewrite Hrem. destruct (buys_nonneg _ _ _ Hbuys) as [-> | Hn]; [exact Hbudget | exact Hn]. }
  assert (Hdiv : budget / min_invest c * min_invest c == budget) by (field; lra).
  (* at most one line, of [c] *)
  assert (Hshape : al = [] \/ exists a, al = [a] /\ a_ipo a = ipo c /\
                                       a_min_invest a = min_invest c /\ (1 <= a_lots a)%Z).
  { assert (Hof : forall a, In a al -> a_ipo a = ipo c /\
                            a_min_invest a = min_invest c /\ (1 <= a_lots a)%Z).
    { intros a Ha. rewrite List.Forall_forall in Hsound.
      destruct (Hsound a Ha) as (Hl & x & [<- | []] & Hid & Hmin & _).
      repeat split; auto. }
    destruct al as [|a [|b al']]; [left; reflexivity | right | exfalso].
    - exists a. split; [reflexivity|]. apply Hof. left. reflexivity.
    - cbn [map] in Hids. inversion Hids as [|? ? Hnot _]; subst.
      apply Hnot. rewrite list_elem_of_In. left.
      destruct (Hof a (or_introl eq_refl)) as [-> _].
      destruct (Hof b (or_intror (or_introl eq_refl))) as [-> _]. reflexivity. }
  destruct Hshape as [-> | (a & -> & Hid & Hmin & Hl)].
  - unfold total_invested in Htot. cbn [fold_right] in Htot.
    assert (Hfl : Qfloor (budget / min_invest c) = 0%Z).
    { apply Qfloor_unique; change (inject_Z 0) with 0.
      - apply Qle_shift_div_l; lra.
      - apply Qlt_shift_div_r; lra. }
    rewrite Hfl. change (inject_Z 0) with 0. split; [lra|]. split; [reflexivity|].
    intros Hge. lra.
  - inversion Hexact as [|? ? Hea _]; subst. unfold line_exact in Hea.
    unfold total_invested in Htot. cbn [fold_right] in Htot. rewrite Hmin in Hea.
    assert (Hfl : Qfloor (budget / min_invest c) = a_lots a).
    { apply Qfloor_unique.
      - apply Qle_shift_div_l; [exact Hm | lra].
      - apply Qlt_shift_div_r; [exact Hm | lra]. }
    rewrite Hfl. split; [lra|]. split.
    + intros Hlt'. exfalso.
      assert (1 <= inject_Z (a_lots a))
        by (change 1 with (inject_Z 1); rewrite <- Zle_Qle; exact Hl).
      nra.
    + intros _. exists a. repeat split; assumption.
Qed.

Lemma X23_greedy_single_candidate_witness :
  exists al rem,
    greedy_fill_full 7 [cand_A] 70000 = Ok (al, rem) /\
    rem == 70000 - inject_Z (Qfloor (70000 / min_invest cand_A)) * min_invest cand_A /\
    (70000 < min_invest cand_A -> al = []) /\
    (min_invest cand_A <= 70000 ->
     exists a, al = [a] /\ a_ipo a = ipo cand_A /\
               a_lots a = Qfloor (70000 / min_invest cand_A)).
Proof.
  apply (X23_greedy_single_candidate cand_A 70000 7).
  - reflexivity.
  - split; [reflexivity|]. split; [discriminate|]. split; [discriminate|].
    intros x [<- | []]. reflexivity.
  - vm_compute. lia.
Defined.

Lemma read_solution_total_nonneg (value : string -> option Q) (cs : list candidate) :
  (forall c, In c cs -> 0 < min_invest c) ->
  forall al tot, 0 <= tot -> 0 <= snd (read_solution value cs al tot).
Proof.
  induction cs as [|c cs IH]; intros Hpos al tot Htot; cbn [read_solution].
  - exact Htot.
  - assert (Hcs : forall x, In x cs -> 0 < min_invest x)
      by (intros x Hx; apply Hpos; right; exact Hx).
    destruct (0 <? _)%Z eqn:E; [|apply IH; assumption].
    apply IH; [exact Hcs|]. apply Z.ltb_lt in E.
    rewrite Zlt_Qlt in E. change (inject_Z 0) with 0 in E.
    specialize (Hpos c (or_introl eq_refl)). nra.
Qed.

(** X24: on a non-empty list of candidates with distinct ids and
    positive units the allocation step of [main] returns an
    allocation, with or without a solver and whatever the solver
    answers; the leftover it returns is at most the budget, and
    without a solver the result is the heuristic's. *)
Theorem X24_allocation_step_returns (pulp : option solver) (candidates : list candidate)
    (budget : Q) (fuel : nat) :
  candidates <> [] ->
  (forall c, In c candidates -> 0 < min_invest c) ->
  NoDup (map ipo candidates) ->
  (enough_fuel candidates budget <= fuel)%nat ->
  exists al rem,
    main_allocation pulp fuel candidates budget = Ok (Some (al, rem)) /\
    rem <= budget /\
    (pulp = None -> greedy_fill_full fuel candidates budget = Ok (al, rem)).
Proof.
  intros Hne Hpos Hnd Hfuel.
  destruct (greedy_returns candidates budget fuel Hne Hpos Hfuel) as (gal & grem & Hg).
  assert (Hgle : grem <= budget).
  { destruct (greedy_inversion candidates budget Hpos fuel gal grem Hg)
      as (st & _ & -> & Hb & _).
    apply (buys_le _ _ _ Hpos Hb). }
  unfold main_allocation. destruct candidates as [|c0 cs0] eqn:Ec; [congruence|].
  rewrite <- Ec in *. unfold select_allocation.
  destruct pulp as [solve|].
  - destruct (allocate_balanced_spec solve candidates budget Hpos Hnd)
      as (prob & al & rem & Hprob & Hal & _ & _ & _).
    assert (Hle : rem <= budget).
    { unfold allocate_balanced in Hal. rewrite Hprob in Hal. cbn [rbind] in Hal.
      pose proof (read_solution_total_nonneg (solve prob) candidates Hpos [] 0
                    (Qle_refl 0)) as Hnn.
      destruct (read_solution (solve prob) candidates [] 0) as [al' tot].
      injection Hal as _ <-. cbn [snd] in Hnn. lra. }
    rewrite Hal. cbn [rbind].
    destruct (Qgtb rem ((1 # 100) * budget)).
    + rewrite Hg. cbn [rbind].
      destruct (Qgtb (budget - grem) (budget - rem)); cbn [rbind].
      * exists gal, grem. split; [reflexivity|]. split; [exact Hgle | discriminate].
      * exists al, rem. split; [reflexivity|]. split; [exact Hle | discriminate].
    + cbn [rbind]. exists al, rem. split; [reflexivity|]. split; [exact Hle | discriminate].
  - cbn [allocate_balanced rbind]. rewrite Hg. cbn [rbind].
    exists gal, grem. split; [reflexivity|]. split; [exact Hgle | intros _; reflexivity].
Qed.

Lemma X24_allocation_step_returns_witness :
  exists al rem,
    main_allocation None 5 [cand_A; cand_B] 25000 = Ok (Some (al, rem)) /\
    rem <= 25000 /\
    (@None solver = None -> greedy_fill_full 5 [cand_A; cand_B] 25000 = Ok (al, rem)).
Proof.
  apply (X24_allocation_step_returns None [cand_A; cand_B] 25000 5).
  - discriminate.
  - intros c [<- | [<- | []]]; reflexivity.
  - repeat constructor; rewrite list_elem_of_In; cbn; intuition discriminate.
  - vm_compute. lia.
Defined.

(** * Where the rounding of binary64 is seen *)

(** C4 as stated fails: with one candidate of unit 1000.1 and the
    budget 10001 the heuristic buys nine lots, one in the seed pass
    and eight by [found["invested"] += c["min_invest"]].  The nine
    additions leave [invested = 9000.900000000001], while
    [lots * min_invest] is [9 * 1000.1 = 9000.9]: the line does not
    satisfy [invested == lots * min_invest]. *)
Theorem C4_counterexample :
  exists a rem,
    Binary64.greedy_fill_full 20 [Binary64.mkCand "A" 8 1000.1] 10001
      = Ok ([a], rem) /\
    Binary64.a_lots a = 9%Z /\
    Binary64.a_min_invest a = 1000.1%float /\
    Binary64.a_invested a = 9000.900000000001%float /\
    (Binary64.of_lots 9 * 1000.1 = 9000.9)%float /\
    Binary64.line_exact a = false.
Proof.
  eexists _, _. split; [vm_compute; reflexivity|].
  repeat split; vm_compute; reflexivity.
Qed.

(** C6 as stated fails: with one candidate of unit 13380.27 the
    heuristic buys ten lots at the budget 144452 and at the budget
    144453, and [budget - leftover] is 133802.70000000004 at the
    smaller budget and 133802.7 at the larger one. *)
Theorem C6_counterexample :
  exists al1 rem1 al2 rem2,
    Binary64.greedy_fill_full 20 [Binary64.mkCand "A" 8 13380.27] 144452
      = Ok (al1, rem1) /\
    Binary64.greedy_fill_full 20 [Binary64.mkCand "A" 8 13380.27] 144453
      = Ok (al2, rem2) /\
    PrimFloat.leb 144452 144453 = true /\
    (144452 - rem1 = 133802.70000000004)%float /\
    (144453 - rem2 = 133802.7)%float /\
    PrimFloat.ltb (144453 - rem2) (144452 - rem1) = true.
Proof.
  eexists _, _, _, _. split; [vm_compute; reflexivity|].
  split; [vm_compute; reflexivity|].
  repeat split; vm_compute; reflexivity.
Qed.

(** The same rounding breaks the accounting: with the unit 1000.01 and
    the budget 10000 the invested amount and the leftover that the
    heuristic returns add up to 9999.999999999998. *)
Lemma binary64_accounting_off :
  exists al rem,
    Binary64.greedy_fill_full 20 [Binary64.mkCand "A" 8 1000.01] 10000
      = Ok (al, rem) /\
    (Binary64.total_invested al + rem = 9999.999999999998)%float.
Proof. eexists _, _. split; vm_compute; reflexivity. Qed.

(** It also decides whether a lot is bought: three units that add up
    to the budget 53661 exactly, as decimals, leave 17193.749999999996
    after the first two, and the third candidate gets no lot. *)
Lemma binary64_third_not_served :
  exists al rem,
    Binary64.greedy_fill_full 20
      [Binary64.mkCand "A" 8 18599.19; Binary64.mkCand "B" 7 17868.06;
       Binary64.mkCand "C" 6 17193.75] 53661 = Ok (al, rem) /\
    map Binary64.a_ipo al = ["A"; "B"] /\
    PrimFloat.ltb rem 17193.75 = true.
Proof. eexists _, _. split; [|split]; vm_compute; reflexivity. Qed.

(** A composite that is not a number is not below the eligibility
    floor: [nan < 5] is false, so [build_candidates] keeps it. *)
Lemma nan_not_below_floor : Binary64.below_floor PrimFloat.nan = false.
Proof. reflexivity. Qed.

(** On whole amounts the binary64 run and the exact run agree, lot
    for lot: the scenario of two candidates with the budget 70000. *)
Lemma binary64_whole_scenario :
  Binary64.greedy_fill_full 9
    [Binary64.mkCand "A" 8 15000; Binary64.mkCand "B" 6 10000] 70000
  = Ok ([Binary64.mkLine "A" 2 15000 30000 8; Binary64.mkLine "B" 4 10000 40000 6],
        0%float) /\
  greedy_fill_full 9 [cand_A; cand_B] 70000
  = Ok ([mkLine "A" 2 15000 (15000 + 15000) 8;
         mkLine "B" 4 10000 (10000 + 10000 + 10000 + 10000) 6], 70000 - 10000 - 15000 - 10000 - 15000 - 10000 - 10000).
Proof. split; vm_compute; reflexivity. Qed.

(** ** The hypotheses on the inputs are needed *)

(** Two candidates under one id share the first line of that id:
    every further lot of either is added to it, at its own unit, so
    the line's [invested] is no multiple of the line's unit. *)
Lemma shared_id_breaks_exactness :
  exists al rem,
    greedy_fill_full 12 [plain_candidate "A" 8 10; plain_candidate "A" 5 15] 100
      = Ok (al, rem) /\
    al = [mkLine "A" 7 10 85 8; mkLine "A" 1 15 15 5] /\
    ~ Forall line_exact al.
Proof.
  eexists _, _. split; [vm_compute; reflexivity|]. split; [reflexivity|].
  intros H. inversion H as [|? ? Ha _]; subst.
  unfold line_exact, Qeq in Ha. cbn in Ha. discriminate Ha.
Qed.

(** With a negative budget nothing is bought, and the invested total,
    0, is above the budget. *)
Lemma negative_budget_exceeded :
  greedy_fill_full 5 [cand_A] (-1) = Ok ([], -1) /\
  ~ total_invested [] <= -1.
Proof.
  split; [reflexivity|]. unfold total_invested. cbn [fold_right]. lra.
Qed.
